(** * General-conference citation scraper and dashboard

    A shallow embedding of [download.py] (fetching with an on-disk cache,
    citation counting, de-duplication of talk rows) and of [dashboard.py]
    (text clean-up, per-100-verse columns, rolling averages), followed by
    the properties the specification states about them.

    Python [str] values are lists of Unicode code points, Python [int]s
    are [Z], [float]s are binary64 primitive floats, a [dict] is an
    association list in insertion order, and the file system is a finite
    map from paths to nodes.  Console output ([print]) is not modelled. *)

From Stdlib Require Import ZArith NArith List Bool Lia Permutation Sorted.
From Stdlib Require Import QArith Uint63 PrimFloat.
From stdpp Require Import base option list strings gmap.
Import ListNotations.

Local Open Scope nat_scope.

(* ===================================================================== *)
(** * Python built-ins *)
(* ===================================================================== *)

Module Py.

(** A Python string: the sequence of its code points. *)
Abbreviation str := (list N).

(** A literal.  Only ASCII literals are written this way; other code
    points are given numerically. *)
Definition py (s : string) : str :=
  List.map Ascii.N_of_ascii (String.list_ascii_of_string s).

(** [s.startswith(pre)] *)
Fixpoint startswith (s pre : str) {struct pre} : bool :=
  match pre, s with
  | [], _ => true
  | _ :: _, [] => false
  | p :: pre', c :: s' => (c =? p)%N && startswith s' pre'
  end.

(** [s.endswith(suf)] *)
Definition endswith (s suf : str) : bool :=
  (length suf <=? length s) &&
  bool_decide (skipn (length s - length suf) s = suf).

(** [sub in s] *)
Fixpoint contains (s sub : str) : bool :=
  startswith s sub ||
  match s with
  | [] => false
  | _ :: s' => contains s' sub
  end.

(** [s.split(sep)] for a one-character separator. *)
Fixpoint split (sep : N) (s : str) : list str :=
  match s with
  | [] => [[]]
  | c :: s' =>
      if (c =? sep)%N then [] :: split sep s'
      else match split sep s' with
           | h :: t => (c :: h) :: t
           | [] => [[c]]
           end
  end.

(** [l[-k]] for a literal [k >= 1]; [None] stands for [IndexError]. *)
Definition index_neg {A : Type} (l : list A) (k : nat) : option A :=
  if (1 <=? k) && (k <=? length l) then nth_error l (length l - k) else None.

(** [s[:stop]] for an arbitrary integer [stop]: a negative [stop] counts
    from the end, and [-0] is [0]. *)
Definition slice_until (s : str) (stop : Z) : str :=
  if (stop <? 0)%Z
  then firstn (Z.to_nat (Z.of_nat (length s) + stop)) s
  else firstn (Z.to_nat stop) s.

(** [c.isspace()], which is also what [\s] matches in a [str] pattern. *)
Definition isspace (c : N) : bool :=
  ((9 <=? c) && (c <=? 13) || (28 <=? c) && (c <=? 32)
   || (c =? 0x85) || (c =? 0xA0) || (c =? 0x1680)
   || (0x2000 <=? c) && (c <=? 0x200A)
   || (c =? 0x2028) || (c =? 0x2029) || (c =? 0x202F)
   || (c =? 0x205F) || (c =? 0x3000))%N.

Fixpoint lstrip (s : str) : str :=
  match s with
  | c :: s' => if isspace c then lstrip s' else s
  | [] => []
  end.

Definition rstrip (s : str) : str := rev (lstrip (rev s)).

(** [s.strip()] *)
Definition strip (s : str) : str := rstrip (lstrip s).

(** [s.count(sub)]: scan from the left; after a match the scan resumes
    behind it, so [skip] positions are passed over. *)
Fixpoint count_from (sub : str) (skip : nat) (s : str) : Z :=
  match s with
  | [] => 0
  | _ :: s' =>
      match skip with
      | S k => count_from sub k s'
      | O => if startswith s sub
             then 1 + count_from sub (length sub - 1) s'
             else count_from sub 0 s'
      end
  end%Z.

Definition count (s sub : str) : Z :=
  match sub with
  | [] => Z.of_nat (length s) + 1
  | _ :: _ => count_from sub 0 s
  end%Z.

(** [s.lower()].  ASCII letters are mapped here; the lower-case mapping of
    a code point outside ASCII comes from the interpreter's Unicode
    tables, and may look at the text before and after it and produce
    several code points. *)
Section Lower.
Variable unicode_lower : str -> N -> str -> str.

Definition is_ascii (c : N) : bool := (c <=? 0x7F)%N.

Definition ascii_lower (c : N) : N :=
  if ((65 <=? c) && (c <=? 90))%N then (c + 32)%N else c.

Fixpoint lower_from (before : str) (s : str) : str :=
  match s with
  | [] => []
  | c :: s' =>
      (if is_ascii c then [ascii_lower c] else unicode_lower before c s')
      ++ lower_from (before ++ [c]) s'
  end.

Definition lower (s : str) : str := lower_from [] s.
End Lower.

(** Comparison of two strings, code point by code point. *)
Fixpoint str_compare (a b : str) : comparison :=
  match a, b with
  | [], [] => Eq
  | [], _ :: _ => Lt
  | _ :: _, [] => Gt
  | x :: a', y :: b' =>
      match (x ?= y)%N with
      | Eq => str_compare a' b'
      | o => o
      end
  end.

(** [a < b] and [a <= b] *)
Definition str_ltb (a b : str) : bool :=
  match str_compare a b with Lt => true | _ => false end.

Definition str_leb (a b : str) : bool :=
  match str_compare a b with Gt => false | _ => true end.

(** A [dict] with string keys, in insertion order. *)
Abbreviation dict V := (list (list N * V)).

Fixpoint dict_get {V : Type} (d : dict V) (k : str) : option V :=
  match d with
  | [] => None
  | (k', v) :: d' => if bool_decide (k' = k) then Some v else dict_get d' k
  end.

(** [d[k] = v] *)
Fixpoint dict_set {V : Type} (d : dict V) (k : str) (v : V) : dict V :=
  match d with
  | [] => [(k, v)]
  | (k', v') :: d' =>
      if bool_decide (k' = k) then (k', v) :: d' else (k', v') :: dict_set d' k v
  end.

Definition dict_keys {V : Type} (d : dict V) : list str := List.map fst d.

End Py.

Import Py.

(* ===================================================================== *)
(** * download.py *)
(* ===================================================================== *)

Module Download.

(** ** The outside world *)

(** What a path names on disk.  Reading a file decodes it as UTF-8, which
    fails on some byte sequences. *)
Inductive node :=
| Directory
| TextFile (text : str)
| UndecodableFile.

(** The answer to [requests.get(url)]: the request raises, or a response
    with a status code and a body comes back. *)
Inductive http_result :=
| ConnectionFailed
| HttpResponse (status_code : Z) (text : str).

Inductive fs_op :=
| OpMakedirs (path : str)
| OpOpen (path : str)
| OpWrite (path : str).

(** Exceptions.  [ConnectionError] and [HTTPError] are
    [requests.exceptions.RequestException]s; all of them are
    [Exception]s. *)
Inductive exn :=
| ConnectionError
| HTTPError (status_code : Z)
| IndexError
| OSError
| UnicodeDecodeError.

Definition is_request_exception (e : exn) : bool :=
  match e with
  | ConnectionError | HTTPError _ => true
  | _ => false
  end.

(** The libraries and the environment the script runs against. *)
Record env := {
  (** lower-casing of code points outside ASCII *)
  unicode_lower : str -> N -> str -> str;
  (** [str(BeautifulSoup(html, 'html.parser'))] *)
  bs4_str : str -> str;
  (** the remote site, given the requests sent so far *)
  remote : list str -> str -> http_result;
  (** which file-system operations fail (permissions, full disk, ...) *)
  os_fault : fs_op -> bool
}.

(** The state the script changes: the disk, and the requests it has sent
    (oldest first). *)
Record world := {
  fs : gmap str node;
  sent : list str
}.

Inductive outcome (A : Type) :=
| Returned (a : A)
| Raised (e : exn).
Arguments Returned {A} a.
Arguments Raised {A} e.

(** Computations that read and change the world and may raise. *)
Definition M (A : Type) : Type := world -> outcome A * world.

Definition ret {A} (a : A) : M A := fun w => (Returned a, w).

Definition raise {A} (e : exn) : M A := fun w => (Raised e, w).

Definition bind {A B} (m : M A) (k : A -> M B) : M B :=
  fun w =>
    match m w with
    | (Returned a, w') => k a w'
    | (Raised e, w') => (Raised e, w')
    end.

Notation "x <- m ;; k" := (bind m (fun x => k))
  (at level 100, m at level 99, k at level 200, right associativity).
Notation "m ;;; k" := (bind m (fun _ => k))
  (at level 100, k at level 200, right associativity).

(** [try: body  except ...: handler] *)
Definition try_except {A} (body : M A) (handler : exn -> M A) : M A :=
  fun w =>
    match body w with
    | (Returned a, w') => (Returned a, w')
    | (Raised e, w') => handler e w'
    end.

(** An [IndexError] from a subscript that is out of range. *)
Definition subscript {A} (o : option A) : M A :=
  match o with
  | Some a => ret a
  | None => raise IndexError
  end.

Section Operations.
Variable E : env.

(** [os.path.join(a, b)] *)
Definition os_path_join (a b : str) : str :=
  if startswith b (py "/") then b
  else if bool_decide (a = []) || endswith a (py "/") then a ++ b
  else a ++ py "/" ++ b.

(** [os.path.exists(p)] *)
Definition exists_in (w : world) (p : str) : bool :=
  bool_decide (is_Some (fs w !! p)).

Definition os_path_exists (p : str) : M bool :=
  fun w => (Returned (exists_in w p), w).

(** [os.path.split(p)]: the path up to its last [/] and the name behind
    it; the slashes at the end of the first are dropped unless it holds
    nothing else.  Both helpers work on the reversed path. *)
Fixpoint span_name (reversed : str) : str * str :=
  match reversed with
  | [] => ([], [])
  | c :: rest =>
      if (c =? 47)%N then ([], reversed)
      else let '(name, head) := span_name rest in (c :: name, head)
  end.

Fixpoint drop_slashes (reversed : str) : str :=
  match reversed with
  | c :: rest => if (c =? 47)%N then drop_slashes rest else reversed
  | [] => []
  end.

Definition os_path_split (p : str) : str * str :=
  let '(tail, head) := span_name (rev p) in
  let head := if forallb (N.eqb 47) head then head else drop_slashes head in
  (rev head, rev tail).

(** The directories above [p] that [os.makedirs(p)] goes through, the
    nearest first: the head of [p] (of the head, when [p] ends with a
    slash), then the head of that, as long as head and tail are not
    empty.  The root is always there, so the walk ends at a head of
    slashes only.  [fuel] bounds the walk; each head is shorter than the
    path it is split from, so the length of [p] is enough. *)
Fixpoint parent_dirs_from (fuel : nat) (p : str) : list str :=
  match fuel with
  | O => []
  | S fuel' =>
      let '(head, tail) := os_path_split p in
      let '(head, tail) :=
        if bool_decide (tail = []) then os_path_split head else (head, tail) in
      if negb (bool_decide (head = [])) && negb (bool_decide (tail = []))
         && negb (forallb (N.eqb 47) head)
      then head :: parent_dirs_from fuel' head
      else []
  end.

Definition parent_dirs (p : str) : list str := parent_dirs_from (length p) p.

(** [os.makedirs] goes up only until it finds a directory that exists. *)
Fixpoint missing_parents (w : world) (dirs : list str) : list str :=
  match dirs with
  | [] => []
  | d :: rest => if exists_in w d then [] else d :: missing_parents w rest
  end.

Definition mkdirs (dirs : list str) (disk : gmap str node) : gmap str node :=
  foldr (fun d disk => <[d := Directory]> disk) disk dirs.

(** [os.makedirs(p)]: it makes [p] and every missing directory above it,
    and raises when [p] is there already.  A failure of the environment
    is one of the call as a whole.  (Paths are plain names here: [.] and
    [..] are not resolved.) *)
Definition os_makedirs (p : str) : M unit :=
  fun w =>
    if os_fault E (OpMakedirs p) || bool_decide (p = []) || exists_in w p
    then (Raised OSError, w)
    else (Returned tt,
          {| fs := mkdirs (p :: missing_parents w (parent_dirs p)) (fs w);
             sent := sent w |}).

(** [os.path.isdir(p)] *)
Definition is_directory (w : world) (p : str) : bool :=
  match fs w !! p with
  | Some Directory => true
  | _ => false
  end.

(** [with open(p, 'w', encoding='utf-8') as f: f.write(text)].  Opening
    truncates; a write that fails leaves the truncated file behind. *)
Definition write_file (p : str) (text : str) : M unit :=
  fun w =>
    if os_fault E (OpOpen p) || is_directory w p
    then (Raised OSError, w)
    else if os_fault E (OpWrite p)
    then (Raised OSError, {| fs := <[p := TextFile []]> (fs w); sent := sent w |})
    else (Returned tt, {| fs := <[p := TextFile text]> (fs w); sent := sent w |}).

(** [with open(p, 'r', encoding='utf-8') as f: f.read()] *)
Definition read_file (p : str) : M str :=
  fun w =>
    match fs w !! p with
    | Some (TextFile text) =>
        if os_fault E (OpOpen p) then (Raised OSError, w)
        else (Returned text, w)
    | Some UndecodableFile =>
        if os_fault E (OpOpen p) then (Raised OSError, w)
        else (Raised UnicodeDecodeError, w)
    | Some Directory | None => (Raised OSError, w)
    end.

(** [requests.get(url)] *)
Definition requests_get (url : str) : M (Z * str) :=
  fun w =>
    let w' := {| fs := fs w; sent := sent w ++ [url] |} in
    match remote E (sent w) url with
    | ConnectionFailed => (Raised ConnectionError, w')
    | HttpResponse status text => (Returned (status, text), w')
    end.

(** [response.raise_for_status()]: the [requests] library raises
    [HTTPError] for the client and server error codes, 400 to 599. *)
Definition raise_for_status (response : Z * str) : M unit :=
  let status := fst response in
  if ((400 <=? status) && (status <? 600))%Z
  then raise (HTTPError status)
  else ret tt.

(** ** save_conference_list_html *)

Definition conference_list_filename (url : str) : option str :=
  let parts := split 47 url in
  a ← index_neg parts 2;
  b ← index_neg parts 1;
  c ← nth_error (split 63 b) 0;
  Some (a ++ py "-" ++ c ++ py ".html").

Definition save_conference_list_html_try (url folder_path : str)
  : M (option str * bool) :=
  filename <- subscript (conference_list_filename url) ;;
  let filepath := os_path_join folder_path filename in
  cached <- os_path_exists filepath ;;
  if cached then ret (Some filepath, false)
  else
    response <- requests_get url ;;
    raise_for_status response ;;;
    let html_content := snd response in
    have_folder <- os_path_exists folder_path ;;
    (if negb have_folder then os_makedirs folder_path else ret tt) ;;;
    write_file filepath html_content ;;;
    ret (Some filepath, true).

(** Both [except] clauses print and fall through to
    [return None, False]. *)
Definition save_conference_list_html (url folder_path : str)
  : M (option str * bool) :=
  try_except (save_conference_list_html_try url folder_path)
    (fun e =>
       if is_request_exception e then ret (None, false)
       else ret (None, false)).

(** ** save_talk_html *)

Definition talk_base_filename (url : str) : option str :=
  let parts := split 47 url in
  a ← index_neg parts 3;
  b ← index_neg parts 2;
  c ← index_neg parts 1;
  d ← nth_error (split 63 c) 0;
  Some (a ++ py "-" ++ b ++ py "-" ++ d).

Definition save_talk_html_try (url folder_path : str)
  : M (option str * bool) :=
  base_filename <- subscript (talk_base_filename url) ;;
  let filename_plain := base_filename ++ py ".html" in
  let filename_lang := base_filename ++ py "_lang=eng.html" in
  let filepath_plain := os_path_join folder_path filename_plain in
  let filepath_lang := os_path_join folder_path filename_lang in
  have_plain <- os_path_exists filepath_plain ;;
  have_lang <- os_path_exists filepath_lang ;;
  if have_plain || have_lang then
    ret (Some (if have_lang then filepath_lang else filepath_plain), false)
  else
    response <- requests_get url ;;
    raise_for_status response ;;;
    let html_content := snd response in
    have_folder <- os_path_exists folder_path ;;
    (if negb have_folder then os_makedirs folder_path else ret tt) ;;;
    let filepath :=
      if contains url (py "lang=eng") then filepath_lang else filepath_plain in
    write_file filepath html_content ;;;
    ret (Some filepath, true).

Definition save_talk_html (url folder_path : str) : M (option str * bool) :=
  try_except (save_talk_html_try url folder_path)
    (fun e =>
       if is_request_exception e then ret (None, false)
       else ret (None, false)).

(** ** count_scripture_references_from_file *)

Definition search_strings_map : dict str :=
  [ (py "bom", py "scriptures/bofm/");
    (py "dc", py "scriptures/dc-testament/dc/");
    (py "pgp", py "scriptures/pgp/");
    (py "nt", py "scriptures/nt/");
    (py "ot", py "scriptures/ot/") ].

Definition zero_counts : dict Z :=
  [ (py "bom", 0%Z); (py "dc", 0%Z); (py "pgp", 0%Z);
    (py "nt", 0%Z); (py "ot", 0%Z) ].

(** [not filepath]: [None] and the empty string are falsy. *)
Definition falsy (filepath : option str) : bool :=
  match filepath with
  | None | Some [] => true
  | Some (_ :: _) => false
  end.

Definition count_in_text (html_as_text : str) : dict Z :=
  let counts := List.map (fun kv => (fst kv, 0%Z)) search_strings_map in
  fold_left
    (fun counts kv =>
       dict_set counts (fst kv)
         (count html_as_text (lower (unicode_lower E) (snd kv))))
    search_strings_map counts.

Definition count_scripture_references_from_file (filepath : option str)
  : M (dict Z) :=
  match filepath with
  | Some p =>
      present <- (if falsy filepath then ret false else os_path_exists p) ;;
      if negb present then ret zero_counts
      else
        html_content <- read_file p ;;
        let html_as_text := lower (unicode_lower E) (bs4_str E html_content) in
        ret (count_in_text html_as_text)
  | None => ret zero_counts
  end.
End Operations.

(** ** De-duplication of the talk table (the end of [main]) *)

Record talk_row := {
  Title : str;
  Speaker : str;
  URL_Suffix : str;
  Full_URL : str;
  Year : str;
  Month : str;
  talk_html_filepath : option str;
  citations : dict Z;
  filename : str
}.

(** get_base_talk_filename *)
Definition get_base_talk_filename (filename : str) : str :=
  if endswith filename (py "_lang=eng.html")
  then slice_until filename (- Z.of_nat (length (py "_lang=eng.html"))) ++ py ".html"
  else filename.

(** [df.sort_values(by=[key], ascending=[False])]: rows in descending
    order of the key.  Rows with equal keys keep their relative order
    here; the library leaves their order open. *)
Section Sorting.
Context {A : Type} (key : A -> str).

Fixpoint insert_desc (r : A) (sorted : list A) : list A :=
  match sorted with
  | [] => [r]
  | x :: rest =>
      if str_ltb (key x) (key r) then r :: sorted
      else x :: insert_desc r rest
  end.

Definition sort_values_desc (rows : list A) : list A :=
  fold_right insert_desc [] (rev rows).

(** [df.drop_duplicates(subset=[key], keep='first')] *)
Fixpoint drop_duplicates_from (seen : list str) (rows : list A) : list A :=
  match rows with
  | [] => []
  | r :: rest =>
      if bool_decide (key r ∈ seen) then drop_duplicates_from seen rest
      else r :: drop_duplicates_from (key r :: seen) rest
  end.

Definition drop_duplicates_first (rows : list A) : list A :=
  drop_duplicates_from [] rows.
End Sorting.

(** Lines 258 to 261: add the [base_filename] column, sort by
    [filename] descending, keep the first row of each [base_filename],
    drop the column again. *)
Definition deduplicate (processed_df : list talk_row) : list talk_row :=
  let with_base :=
    List.map (fun r => (r, get_base_talk_filename (filename r))) processed_df in
  let sorted := sort_values_desc (fun rb => filename (fst rb)) with_base in
  let kept := drop_duplicates_first snd sorted in
  List.map fst kept.

(** ** The names [main] and the parser build *)

Definition BASE_URL : str :=
  py "https://www.churchofjesuschrist.org/study/general-conference/".

Definition CONFERENCE_LINKS_DIR : str := py "conference_links".

Definition CONFERENCE_TALKS_DIR : str := py "conference_talks".

Definition MONTHS_TO_SCRAPE : list str := [py "04"; py "10"].

(** [f"{BASE_URL}{year}/{month}?lang=eng"], the year already as text. *)
Definition conference_url (year month : str) : str :=
  BASE_URL ++ year ++ py "/" ++ month ++ py "?lang=eng".

(** [filename.split('-')[0]] and [filename.split('-')[1][:2]] of
    [parse_conference_links_to_dataframe]; [None] stands for
    [IndexError]. *)
Definition year_from_filename (filename : str) : option str :=
  nth_error (split 45 filename) 0.

Definition month_from_filename (filename : str) : option str :=
  part ← nth_error (split 45 filename) 1;
  Some (firstn 2 part).

(** The [Full_URL] cell the parser builds from a link. *)
Definition full_url (talk_url_suffix : str) : str :=
  py "https://www.churchofjesuschrist.org" ++ talk_url_suffix.

(** The URL the download loop of [main] fetches for a row. *)
Definition main_talk_url (Full_URL : str) : str :=
  if negb (startswith Full_URL (py "http"))
  then py "https://www.churchofjesuschrist.org" ++ Full_URL
  else Full_URL.

(** The [filename] cell [main] computes from a [URL_Suffix] that is a
    string; [None] stands for [IndexError]. *)
Definition filename_of_suffix (x : str) : option str :=
  a ← index_neg (split 47 x) 3;
  b ← index_neg (split 47 x) 2;
  c ← index_neg (split 47 x) 1;
  d ← nth_error (split 63 c) 0;
  Some (a ++ py "-" ++ b ++ py "-" ++ d
        ++ (if contains x (py "lang=eng") then py "_lang=eng.html"
            else py ".html")).

(** The download loop of [main] over the [Full_URL] cells of the table,
    in row order: the path each talk was saved to, or [None].  (The pause
    after a download changes nothing of the world.) *)
Fixpoint download_talks (E : env) (full_urls : list str)
  : M (list (option str)) :=
  match full_urls with
  | [] => ret []
  | Full_URL :: rest =>
      result <- save_talk_html E (main_talk_url Full_URL) CONFERENCE_TALKS_DIR ;;
      downloaded_talk_paths <- download_talks E rest ;;
      ret (fst result :: downloaded_talk_paths)
  end.

End Download.

(* ===================================================================== *)
(** * dashboard.py *)
(* ===================================================================== *)

Module Dashboard.

Definition VERSE_COUNTS : dict Z :=
  [ (py "ot", 23145%Z); (py "nt", 7957%Z); (py "bom", 6604%Z);
    (py "dc", 3654%Z); (py "pgp", 635%Z) ].

Definition get_citation_columns : list str := dict_keys VERSE_COUNTS.

(** ** Text clean-up *)

(** The characters of the first pattern of [clean_text].  The pattern
    is written as two adjacent string literals: the two apostrophes in
    its middle end the first literal and start the second, so the class
    holds no apostrophe.  It holds A and a with circumflex, the euro and
    trade-mark signs, the double quote, the en and em dashes, and the
    euro, copyright and trade-mark signs (two of them twice). *)
Definition odd_chars : list N :=
  [ 0xC2; 0xE2; 0x20AC; 0x2122; 0x22; 0x2013; 0x2014;
    0x20AC; 0xA9; 0x2122 ]%N.

Definition is_odd_char (c : N) : bool := existsb (N.eqb c) odd_chars.

(** [[a-zA-Z0-9]] *)
Definition is_alnum (c : N) : bool :=
  ((97 <=? c) && (c <=? 122) || (65 <=? c) && (c <=? 90)
   || (48 <=? c) && (c <=? 57))%N.

(** [re.sub(pattern, '', text)] for a pattern that is a character class,
    or one or more characters of a class: every match is deleted. *)
Definition re_sub_delete (in_class : N -> bool) (text : str) : str :=
  List.filter (fun c => negb (in_class c)) text.

(** [re.sub(r'\s+', ' ', text)]: [in_run] tells that the character before
    was white space, whose run has been replaced already. *)
Fixpoint collapse_spaces (in_run : bool) (text : str) : str :=
  match text with
  | [] => []
  | c :: rest =>
      if isspace c
      then (if in_run then [] else [32%N]) ++ collapse_spaces true rest
      else c :: collapse_spaces false rest
  end.

(** clean_text; [None] is a null cell. *)
Definition clean_text (text : option str) : option str :=
  match text with
  | None => None
  | Some text =>
      let text := re_sub_delete is_odd_char text in
      let text := re_sub_delete (fun c => negb (is_ascii c)) text in
      let text := collapse_spaces false text in
      Some (strip text)
  end.

Section Titles.
Variable unicode_lower : str -> N -> str -> str.

(** remove_speaker_from_title *)
Definition remove_speaker_from_title (title speaker : option str)
  : option str :=
  match title, speaker with
  | Some title', Some speaker' =>
      let t := lower unicode_lower
                 (re_sub_delete (fun c => negb (is_alnum c)) title') in
      let s := lower unicode_lower
                 (re_sub_delete (fun c => negb (is_alnum c)) speaker') in
      if endswith t s
      then Some (strip (slice_until title' (- Z.of_nat (length speaker'))))
      else title
  | _, _ => title
  end.

(** The [Speaker] and [Title] cells of one row as [load_data] leaves
    them: the speaker is cleaned first, and the title is cleaned, cut
    with the cleaned speaker, and cleaned again. *)
Definition load_data_cells (title speaker : option str)
  : option str * option str :=
  let speaker := clean_text speaker in
  let title := remove_speaker_from_title (clean_text title) speaker in
  (clean_text title, speaker).
End Titles.

(** ** Per-100-verse columns *)

(** An [int64] cell or a Python [int] as a [float64]; counts and verse
    totals are not negative. *)
Definition to_float (z : Z) : float := PrimFloat.of_uint63 (Uint63.of_Z z).

(** [count / verses * 100] *)
Definition per100 (verses count : Z) : float :=
  (to_float count / to_float verses * to_float 100)%float.

(** The loop of [load_data] over [VERSE_COUNTS]: a citation column that
    is present gets a [_per100] companion. *)
Definition per100_columns (df : dict (list Z)) : dict (list float) :=
  fold_left
    (fun out kv =>
       match dict_get df (fst kv) with
       | Some column =>
           dict_set out (fst kv ++ py "_per100")
             (List.map (per100 (snd kv)) column)
       | None => out
       end)
    VERSE_COUNTS [].

(** ** Rolling average *)

(** The arithmetic the rolling mean needs, for exact and for binary64
    numbers. *)
Class Number (A : Type) := {
  num_zero : A;
  num_add : A -> A -> A;
  num_sub : A -> A -> A;
  num_div_count : A -> nat -> A
}.

#[export] Instance Q_number : Number Q := {|
  num_zero := 0%Q;
  num_add := Qplus;
  num_sub := Qminus;
  num_div_count := fun x n => (x / inject_Z (Z.of_nat n))%Q
|}.

#[export] Instance float_number : Number float := {|
  num_zero := 0%float;
  num_add := PrimFloat.add;
  num_sub := PrimFloat.sub;
  num_div_count := fun x n => (x / to_float (Z.of_nat n))%float
|}.

Section Rolling.
Context {A : Type} `{Number A}.

(** [series.rolling(window, min_periods).mean()] as the library
    computes it: a running sum and a count of observations, to which
    each new value is added and from which the value that leaves the
    window is removed; a position with fewer than [min_periods]
    observations is null.  (The library also carries a compensation for
    the rounding of the sum; it is zero when the sums are exact.)
    [past] holds the values seen so far, newest first. *)
Fixpoint rolling_from (window min_periods : nat) (past : list A)
    (sum_x : A) (nobs : nat) (values : list A) : list (option A) :=
  match values with
  | [] => []
  | x :: rest =>
      let sum_x := num_add sum_x x in
      let nobs := S nobs in
      let '(sum_x, nobs) :=
        match nth_error past (window - 1) with
        | Some old => (num_sub sum_x old, nobs - 1)
        | None => (sum_x, nobs)
        end in
      (if min_periods <=? nobs then Some (num_div_count sum_x nobs) else None)
      :: rolling_from window min_periods (x :: past) sum_x nobs rest
  end.

Definition rolling_mean (window min_periods : nat) (values : list A)
  : list (option A) :=
  rolling_from window min_periods [] num_zero 0 values.

(** The simple moving mean in the words of the specification: the
    mean of the last [window] values up to and including position [i],
    or of all of them while there are fewer. *)
Definition window_at (window i : nat) (values : list A) : list A :=
  skipn (S i - window) (firstn (S i) values).

Definition mean (l : list A) : A :=
  num_div_count (fold_right num_add num_zero l) (length l).

Definition moving_mean_spec (window : nat) (values : list A) : list A :=
  List.map (fun i => mean (window_at window i values))
    (seq 0 (length values)).
End Rolling.

(** [apply_rolling] adds, for one citation column of the table sorted by
    year and month, the [_avg] column. *)
Definition apply_rolling_column (window : nat) (column : list Q)
  : list (option Q) :=
  rolling_mean window 1 column.

(** [s.zfill(width)] for a string without a sign. *)
Definition zfill (width : nat) (s : str) : str :=
  repeat 48%N (width - length s) ++ s.

(** The [Conference] label of a row, [YYYY-MM]. *)
Definition conference_label (year month : str) : str :=
  year ++ py "-" ++ zfill 2 month.

(** [plot_df.groupby(["Conference"])[col].sum()]: one sum for each
    label, the labels in ascending order.  A row is added to the group
    of its label. *)
Fixpoint add_to_group (label : str) (value : Q) (groups : dict Q) : dict Q :=
  match groups with
  | [] => [(label, value)]
  | (l, sum) :: rest =>
      match str_compare label l with
      | Lt => (label, value) :: groups
      | Eq => (l, (sum + value)%Q) :: rest
      | Gt => (l, sum) :: add_to_group label value rest
      end
  end.

Definition groupby_sum (rows : dict Q) : dict Q :=
  fold_left (fun groups row => add_to_group (fst row) (snd row) groups) rows [].

(** The series the visualization page plots for one column when an
    averaging window is chosen: the per-conference sums, smoothed. *)
Definition smoothed_series (window : nat) (rows : dict Q) : list (option Q) :=
  rolling_mean window 1 (List.map snd (groupby_sum rows)).

(** ** The table page *)

(** [sorted(strings)] *)
Fixpoint insert_asc (s : str) (sorted : list str) : list str :=
  match sorted with
  | [] => [s]
  | x :: rest => if str_ltb s x then s :: sorted else x :: insert_asc s rest
  end.

Definition sorted_asc (strings : list str) : list str :=
  fold_right insert_asc [] strings.

(** [series.dropna()] and [series.unique()] (values in order of first
    appearance). *)
Definition dropna {A : Type} (series : list (option A)) : list A :=
  flat_map (fun cell => match cell with Some a => [a] | None => [] end) series.

Definition unique (series : list str) : list str :=
  Download.drop_duplicates_first (fun s => s) series.

Section Table.
(** A row of the table, with its [Speaker] cell (null or text) and its
    [Year] cell as text. *)
Context {row : Type} (Speaker_of : row -> option str) (Year_of : row -> str).

(** The options of the speaker menu. *)
Definition speaker_options (df : list row) : list str :=
  py "All" :: sorted_asc (unique (dropna (List.map Speaker_of df))).

(** The rows shown for a choice of speaker and year. *)
Definition filter_table (speaker year : str) (df : list row) : list row :=
  let filtered := df in
  let filtered :=
    if negb (bool_decide (speaker = py "All"))
    then List.filter (fun r => bool_decide (Speaker_of r = Some speaker)) filtered
    else filtered in
  let filtered :=
    if negb (bool_decide (year = py "All"))
    then List.filter (fun r => bool_decide (Year_of r = year)) filtered
    else filtered in
  filtered.
End Table.

End Dashboard.

Import Download Dashboard.

(* ===================================================================== *)
(** * Notions the properties are stated with *)
(* ===================================================================== *)

(** [sub] occurs in [s] at position [p]. *)
Definition occurs_at (s sub : str) (p : nat) : Prop :=
  startswith (skipn p s) sub = true.

(** [ps] lists, in increasing order, positions at or after [lo] where
    [sub] occurs in [s], each at or after the end of the occurrence
    before it. *)
Fixpoint non_overlapping (s sub : str) (lo : nat) (ps : list nat) : Prop :=
  match ps with
  | [] => True
  | p :: ps' =>
      lo <= p /\ occurs_at s sub p /\ non_overlapping s sub (p + length sub) ps'
  end.

(** [n] is the number of non-overlapping occurrences of [sub] in [s]:
    some family of non-overlapping occurrences has [n] members and none
    has more. *)
Definition number_of_occurrences (s sub : str) (n : Z) : Prop :=
  (exists ps, non_overlapping s sub 0 ps /\ Z.of_nat (length ps) = n) /\
  (forall ps, non_overlapping s sub 0 ps -> (Z.of_nat (length ps) <= n)%Z).

(** The five book codes, in the order the counting function lists them. *)
Definition book_codes : list str :=
  [py "bom"; py "dc"; py "pgp"; py "nt"; py "ot"].

(** A file the counting function can read: it is there, it is a text
    file, and opening it does not fail. *)
Definition readable (E : env) (w : world) (p content : str) : Prop :=
  p <> [] /\ fs w !! p = Some (TextFile content) /\
  os_fault E (OpOpen p) = false.

(** ** Fixtures *)

(** An environment in which nothing fails: text is rendered as it is
    parsed, code points outside ASCII are their own lower case, every
    request is answered [200] with a fixed page. *)
Definition plain_env : env := {|
  unicode_lower := fun _ c _ => [c];
  bs4_str := fun html => html;
  remote := fun _ _ => HttpResponse 200 (py "<html>talk</html>");
  os_fault := fun _ => false
|}.

Definition empty_world : world := {| fs := ∅; sent := [] |}.

(** A talk page that links to the Book of Mormon three times. *)
Definition talk_fixture : str :=
  py "<p>See <a href=/study/scriptures/bofm/1-ne/3>1 Nephi 3</a>, <a href=/study/Scriptures/BofM/alma/32>Alma 32</a> and <a href=/study/scriptures/bofm/ether/12>Ether 12</a>.</p>".

Definition talk_fixture_path : str :=
  py "conference_talks/2023-10-11nelson_lang=eng.html".

Definition talk_fixture_world : world :=
  {| fs := {[ talk_fixture_path := TextFile talk_fixture ]}; sent := [] |}.

(** ** The cache and the failures of a fetch *)

(** The cache file [save_conference_list_html] derives from a URL;
    [None] when the URL has too few path segments to derive one. *)
Definition list_cache_path (url folder_path : str) : option str :=
  filename ← conference_list_filename url;
  Some (os_path_join folder_path filename).

(** The two cache files [save_talk_html] derives from a URL: the plain
    one and the language-tagged one. *)
Definition talk_cache_paths (url folder_path : str) : option (str * str) :=
  base ← talk_base_filename url;
  Some (os_path_join folder_path (base ++ py ".html"),
        os_path_join folder_path (base ++ py "_lang=eng.html")).

(** The file [save_talk_html] writes after a download. *)
Definition talk_download_path (url : str) (paths : str * str) : str :=
  if contains url (py "lang=eng") then snd paths else fst paths.

(** The request for [url] fails: no response, or a response whose status
    is a client or server error. *)
Definition network_fails (E : env) (w : world) (url : str) : Prop :=
  match remote E (sent w) url with
  | ConnectionFailed => True
  | HttpResponse status _ => (400 <= status < 600)%Z
  end.

(** Creating the missing folder, or opening or writing the cache file,
    fails. *)
Definition filesystem_fails (E : env) (w : world) (folder_path filepath : str)
  : Prop :=
  (exists_in w folder_path = false /\
   os_fault E (OpMakedirs folder_path) = true) \/
  os_fault E (OpOpen filepath) = true \/
  os_fault E (OpWrite filepath) = true.

(** A site that answers every request [304 Not Modified], with a body. *)
Definition not_modified_env : env := {|
  unicode_lower := fun _ c _ => [c];
  bs4_str := fun html => html;
  remote := fun _ _ => HttpResponse 304 (py "<html>stale</html>");
  os_fault := fun _ => false
|}.

Definition talk_url : str :=
  py "https://www.churchofjesuschrist.org/study/general-conference/2023/10/11nelson?lang=eng".

Definition list_url : str :=
  py "https://www.churchofjesuschrist.org/study/general-conference/2023/10?lang=eng".

(** A cache directory that already holds one conference list and one
    talk page. *)
Definition list_fixture_path : str := py "conference_links/2023-10.html".

Definition cached_world : world :=
  {| fs := {[ list_fixture_path := TextFile (py "<html>list</html>");
              talk_fixture_path := TextFile talk_fixture ]};
     sent := [] |}.

(** A site that answers every request [503 Service Unavailable]. *)
Definition failing_env : env := {|
  unicode_lower := fun _ c _ => [c];
  bs4_str := fun html => html;
  remote := fun _ _ => HttpResponse 503 (py "Service Unavailable");
  os_fault := fun _ => false
|}.

(** ** De-duplication *)

(** The normalized base filename of a row. *)
Definition base_filename (r : talk_row) : str :=
  get_base_talk_filename (filename r).

(** Two synthetic rows for the same talk, the plain one first. *)
Definition synthetic_row (name : str) : talk_row := {|
  Title := py "Talk A"; Speaker := py "Speaker A";
  URL_Suffix := py "/study/general-conference/2023/10/talk-A";
  Full_URL := py "https://www.churchofjesuschrist.org/study/general-conference/2023/10/talk-A";
  Year := py "2023"; Month := py "10";
  talk_html_filepath := None; citations := zero_counts;
  filename := name
|}.

Definition synthetic_df : list talk_row :=
  [synthetic_row (py "talk-A.html"); synthetic_row (py "talk-A_lang=eng.html")].

(** [x] may stand before [y] in descending order of the key. *)
Definition desc {A : Type} (key : A -> str) (x y : A) : Prop :=
  str_leb (key y) (key x) = true.

(** The table with its [base_filename] column, sorted, before the
    duplicates are dropped. *)
Definition tagged (r : talk_row) : talk_row * str := (r, base_filename r).

Definition sorted_table (processed_df : list talk_row) : list (talk_row * str) :=
  sort_values_desc (fun rb => filename (fst rb)) (List.map tagged processed_df).

(** ** Cleaned text *)

Definition no_leading_space (s : str) : Prop :=
  match s with
  | c :: _ => isspace c = false
  | [] => True
  end.

Definition no_trailing_space (s : str) : Prop := no_leading_space (rev s).

(** No two white-space characters stand next to each other. *)
Fixpoint no_space_run (s : str) : Prop :=
  match s with
  | [] => True
  | c :: rest =>
      match rest with
      | d :: _ => ~ (isspace c = true /\ isspace d = true)
      | [] => True
      end /\ no_space_run rest
  end.

(** White space is single blanks only; [after_space] tells that a blank
    stands just before the text. *)
Fixpoint single_blanks (after_space : bool) (s : str) : Prop :=
  match s with
  | [] => True
  | c :: rest =>
      if isspace c
      then c = 32%N /\ after_space = false /\ single_blanks true rest
      else single_blanks false rest
  end.

(** ** Floating-point tolerance *)

(** [x] and [y] differ by at most [tolerance]. *)
Definition within_tolerance (tolerance x y : float) : bool :=
  PrimFloat.leb (PrimFloat.abs (x - y)%float) tolerance.

(** A table with one talk that cites the Old Testament 231 times. *)
Definition verse_fixture : dict (list Z) :=
  [ (py "bom", [4%Z]); (py "ot", [231%Z]) ].

(** ** Sums of rationals *)

Definition total (l : list Q) : Q := fold_right Qplus 0%Q l.

(** A position of the rolling mean holds a number equal to [want]; in
    particular it is not null. *)
Definition holds (got : option Q) (want : Q) : Prop :=
  exists q, got = Some q /\ Qeq q want.

(** ** Tactics *)

(** Unfolds the monad and the operations of the world. *)
Ltac run_world :=
  cbv beta iota zeta delta
    [save_conference_list_html save_talk_html try_except
     save_conference_list_html_try save_talk_html_try bind ret raise
     subscript os_path_exists requests_get raise_for_status os_makedirs
     write_file is_request_exception fst snd].

(** ** The download behind the cache check *)

(** What both fetch functions do once the cache has no file: request,
    check the status, create the folder if it is missing, write the
    body. *)
Definition fetch_and_store (E : env) (url folder_path filepath : str)
  : M (option str * bool) :=
  response <- requests_get E url ;;
  raise_for_status response ;;;
  have_folder <- os_path_exists folder_path ;;
  (if negb have_folder then os_makedirs E folder_path else ret tt) ;;;
  write_file E filepath (snd response) ;;;
  ret (Some filepath, true).

(** The two [except] clauses. *)
Definition on_exception (e : exn) : M (option str * bool) :=
  if is_request_exception e then ret (None, false) else ret (None, false).

(** Nothing stands in the way of a download: the site answers with a
    status that is no error, the folder is there or can be created, and
    the file can be opened and written. *)
Definition can_download (E : env) (w : world)
    (url folder_path filepath text : str) : Prop :=
  (exists status, remote E (sent w) url = HttpResponse status text /\
                  ~ (400 <= status < 600)%Z) /\
  (exists_in w folder_path = true \/
   (folder_path <> [] /\ os_fault E (OpMakedirs folder_path) = false)) /\
  os_fault E (OpOpen filepath) = false /\
  os_fault E (OpWrite filepath) = false.

(** Settles the request log and the untouched files at one way out of a
    download; [made] settles what [os.makedirs] made. *)
Ltac fetch_leaf made :=
  do 2 eexists; split; [reflexivity|]; cbn [fs sent];
  split; [reflexivity|];
  split; [intros ? ? ? ?; rewrite ?lookup_insert_ne by congruence; made|].

(** A disk on which the folder exists, the request is answered, but the
    body cannot be written. *)
Definition full_disk_env : env := {|
  unicode_lower := fun _ c _ => [c];
  bs4_str := fun html => html;
  remote := fun _ _ => HttpResponse 200 (py "<html>talk</html>");
  os_fault := fun op => match op with OpWrite _ => true | _ => false end
|}.

(** Settles, at one way out of a download, that a path on disk before is
    on disk after. *)
Ltac still_there H made :=
  cbn [snd]; unfold exists_in in *; cbn [fs sent] in *;
  apply bool_decide_eq_true; apply bool_decide_eq_true in H;
  repeat (apply lookup_insert_is_Some'; right); made.

(** The site answers and the cache file can be opened, but writing the
    body into it fails. *)
Definition body_cannot_be_written (E : env) (w : world)
    (url folder_path filepath : str) : Prop :=
  (exists status text, remote E (sent w) url = HttpResponse status text /\
                       ~ (400 <= status < 600)%Z) /\
  (exists_in w folder_path = true \/
   (folder_path <> [] /\ os_fault E (OpMakedirs folder_path) = false)) /\
  os_fault E (OpOpen filepath) = false /\
  os_fault E (OpWrite filepath) = true.

(** A world in which the folder of the talk pages is there and empty. *)
Definition empty_folder_world : world :=
  {| fs := {[ py "conference_talks" := Directory ]}; sent := [] |}.

(** ** What [clean_text] keeps *)

(** The characters [clean_text] neither deletes nor replaces: ASCII, not
    in its first pattern, not white space. *)
Definition kept_by_clean_text (c : N) : bool :=
  is_ascii c && negb (is_odd_char c) && negb (isspace c).

(** A text on which [clean_text] has nothing to do. *)
Definition already_clean (t : str) : Prop :=
  List.Forall (fun c => is_odd_char c = false) t /\
  List.Forall (fun c => is_ascii c = true) t /\
  single_blanks false t /\
  no_leading_space t /\
  no_trailing_space t.

(** ** Titles and bylines *)

(** The letters and digits of a text, in lower case: what
    [remove_speaker_from_title] compares. *)
Definition letters_and_digits (s : str) : str :=
  List.map ascii_lower (List.filter is_alnum s).

(** ** Sums by conference *)

(** The values of the rows with a given label, and the sum a table of
    groups holds for a label (zero when it has no such group). *)
Definition values_with (label : str) (rows : dict Q) : list Q :=
  List.map snd (List.filter (fun row => bool_decide (fst row = label)) rows).

Definition sum_of (groups : dict Q) (label : str) : Q :=
  match dict_get groups label with
  | Some sum => sum
  | None => 0%Q
  end.

(** ** Years and months as numbers *)

Definition is_digit (c : N) : bool := ((48 <=? c) && (c <=? 57))%N.

(** [int(s)] for a string of decimal digits. *)
Fixpoint int_from (acc : N) (s : str) : N :=
  match s with
  | [] => acc
  | c :: s' => int_from (10 * acc + (c - 48)) s'
  end.

Definition int (s : str) : N := int_from 0 s.

(** A year or a month as the table holds it: decimal digits. *)
Definition digits (s : str) : Prop := List.Forall (fun c => is_digit c = true) s.

(** ** Runs of the download loop *)

(** One of the two cache files of a talk URL is on disk. *)
Definition cached_in (w : world) (url : str) : Prop :=
  exists plain lang,
    talk_cache_paths url CONFERENCE_TALKS_DIR = Some (plain, lang) /\
    (exists_in w plain = true \/ exists_in w lang = true).

(** The URLs of the rows for which a run of the loop obtained no path. *)
Fixpoint without_path (full_urls : list str) (paths : list (option str))
  : list str :=
  match full_urls, paths with
  | url :: urls, None :: rest => main_talk_url url :: without_path urls rest
  | _ :: urls, Some _ :: rest => without_path urls rest
  | _, _ => []
  end.

(** Three talk pages, the second one twice. *)
Definition three_talks : list str :=
  [ py "https://www.churchofjesuschrist.org/study/general-conference/2023/10/11nelson?lang=eng";
    py "https://www.churchofjesuschrist.org/study/general-conference/2023/10/12oaks?lang=eng";
    py "https://www.churchofjesuschrist.org/study/general-conference/2023/10/12oaks" ].

(* ===================================================================== *)
(** * Facts about the built-ins *)
(* ===================================================================== *)

Lemma startswith_iff (s pre : str) :
  startswith s pre = true <-> exists rest, s = pre ++ rest.
Proof.
  revert s. induction pre as [|p pre IH]; intros s; simpl.
  - split; [intros _; exists s; reflexivity | reflexivity].
  - destruct s as [|c s].
    + split; [discriminate | intros [r Hr]; discriminate].
    + rewrite andb_true_iff, N.eqb_eq, IH. split.
      * intros [-> [r ->]]. exists r. reflexivity.
      * intros [r Hr]. injection Hr as -> ->. split; [reflexivity | exists r; reflexivity].
Qed.

Lemma startswith_app (pre rest : str) : startswith (pre ++ rest) pre = true.
Proof. apply startswith_iff. exists rest. reflexivity. Qed.

Lemma endswith_iff (s suf : str) :
  endswith s suf = true <-> exists front, s = front ++ suf.
Proof.
  unfold endswith. rewrite andb_true_iff, Nat.leb_le, bool_decide_eq_true. split.
  - intros [Hlen Heq]. exists (firstn (length s - length suf) s).
    pose proof (firstn_skipn (length s - length suf) s) as Hsplit.
    rewrite Heq in Hsplit. symmetry. exact Hsplit.
  - intros [front ->]. rewrite length_app. split; [lia|].
    replace (length front + length suf - length suf) with (length front) by lia.
    rewrite skipn_app, skipn_all, Nat.sub_diag. reflexivity.
Qed.

Lemma endswith_app (front suf : str) : endswith (front ++ suf) suf = true.
Proof. apply endswith_iff. exists front. reflexivity. Qed.

Lemma slice_until_neg_app (front suf : str) :
  suf <> [] ->
  slice_until (front ++ suf) (- Z.of_nat (length suf)) = front.
Proof.
  intros Hne. unfold slice_until.
  assert (0 < length suf) by (destruct suf; [congruence | simpl; lia]).
  destruct (Z.ltb_spec (- Z.of_nat (length suf)) 0); [|lia].
  rewrite length_app.
  replace (Z.to_nat _) with (length front) by lia.
  rewrite firstn_app, firstn_all, Nat.sub_diag. simpl. apply app_nil_r.
Qed.

(** ** [str.count]: the greedy scan finds a largest family of
    non-overlapping occurrences *)

Lemma non_overlapping_weaken s sub lo lo' ps :
  lo' <= lo -> non_overlapping s sub lo ps -> non_overlapping s sub lo' ps.
Proof.
  destruct ps as [|p ps]; simpl; [tauto|].
  intros Hle (Hlo & Hocc & Hrest). repeat split; [lia | assumption | assumption].
Qed.

Lemma non_overlapping_cons_intro c s sub lo qs :
  non_overlapping s sub lo qs ->
  non_overlapping (c :: s) sub (S lo) (List.map S qs).
Proof.
  revert lo. induction qs as [|q qs IH]; intros lo; simpl; [tauto|].
  intros (Hlo & Hocc & Hrest). repeat split; [lia | exact Hocc |].
  apply (IH (q + length sub)). exact Hrest.
Qed.

Lemma non_overlapping_cons_elim c s sub lo ps :
  non_overlapping (c :: s) sub (S lo) ps ->
  exists qs, ps = List.map S qs /\ non_overlapping s sub lo qs.
Proof.
  revert lo. induction ps as [|p ps IH]; intros lo; simpl.
  - intros _. exists []. split; reflexivity.
  - intros (Hlo & Hocc & Hrest). destruct p as [|p]; [lia|].
    destruct (IH (p + length sub) Hrest) as (qs & -> & Hqs).
    exists (p :: qs). split; [reflexivity|]. simpl.
    repeat split; [lia | exact Hocc | exact Hqs].
Qed.

Lemma count_from_nonneg sub skip s : (0 <= count_from sub skip s)%Z.
Proof.
  revert skip. induction s as [|c s IH]; intros skip; simpl; [lia|].
  destruct skip; [|apply IH].
  destruct (startswith (c :: s) sub); [|apply IH].
  specialize (IH (length sub - 1)). lia.
Qed.

Lemma count_nonneg s sub : (0 <= count s sub)%Z.
Proof.
  unfold count. destruct sub; [lia | apply count_from_nonneg].
Qed.

Lemma count_from_reaches sub skip s :
  sub <> [] ->
  exists ps, non_overlapping s sub skip ps /\
             Z.of_nat (length ps) = count_from sub skip s.
Proof.
  intros Hne.
  assert (Hlen : length sub = S (length sub - 1))
    by (destruct sub; [congruence | simpl; lia]).
  revert skip. induction s as [|c s IH]; intros skip; simpl.
  - exists []. split; reflexivity.
  - destruct skip as [|k].
    + destruct (startswith (c :: s) sub) eqn:Hm.
      * destruct (IH (length sub - 1)) as (qs & Hqs & Hcount).
        exists (0 :: List.map S qs). split.
        -- simpl. repeat split; [lia | exact Hm |].
           rewrite Hlen. apply non_overlapping_cons_intro. exact Hqs.
        -- simpl. rewrite length_map. lia.
      * destruct (IH 0) as (qs & Hqs & Hcount).
        exists (List.map S qs). split.
        -- apply non_overlapping_weaken with (lo := 1); [lia|].
           apply non_overlapping_cons_intro. exact Hqs.
        -- rewrite length_map. exact Hcount.
    + destruct (IH k) as (qs & Hqs & Hcount).
      exists (List.map S qs). split.
      * apply non_overlapping_cons_intro. exact Hqs.
      * rewrite length_map. exact Hcount.
Qed.

Lemma count_from_bounds sub skip s ps :
  sub <> [] ->
  non_overlapping s sub skip ps ->
  (Z.of_nat (length ps) <= count_from sub skip s)%Z.
Proof.
  intros Hne.
  assert (Hlen : length sub = S (length sub - 1))
    by (destruct sub; [congruence | simpl; lia]).
  revert skip ps. induction s as [|c s IH]; intros skip ps Hps.
  - destruct ps as [|p ps]; [simpl; lia|].
    destruct Hps as (_ & Hocc & _). unfold occurs_at in Hocc.
    rewrite skipn_nil in Hocc. destruct sub; [congruence | discriminate].
  - simpl. destruct skip as [|k].
    + destruct ps as [|p ps].
      { simpl. destruct (startswith (c :: s) sub).
        - pose proof (count_from_nonneg sub (length sub - 1) s). lia.
        - apply count_from_nonneg. }
      destruct p as [|p].
      * (* the family starts with the occurrence at the head *)
        destruct Hps as (_ & Hocc & Hrest). unfold occurs_at in Hocc.
        simpl in Hocc. rewrite Hocc.
        simpl in Hrest. rewrite Hlen in Hrest.
        apply non_overlapping_cons_elim in Hrest as (qs & -> & Hqs).
        specialize (IH _ _ Hqs). simpl. rewrite length_map. lia.
      * (* the family starts later *)
        assert (H1 : non_overlapping (c :: s) sub 1 (S p :: ps)).
        { destruct Hps as (_ & Hocc & Hrest). simpl.
          repeat split; [lia | exact Hocc | exact Hrest]. }
        apply non_overlapping_cons_elim in H1 as (qs & Heq & Hqs).
        rewrite Heq, length_map.
        destruct (startswith (c :: s) sub).
        -- destruct qs as [|q qs]; [discriminate|].
           destruct Hqs as (_ & _ & Hrest).
           apply non_overlapping_weaken with (lo' := length sub - 1) in Hrest;
             [|lia].
           specialize (IH _ _ Hrest). simpl. lia.
        -- apply IH. exact Hqs.
    + apply non_overlapping_cons_elim in Hps as (qs & -> & Hqs).
      rewrite length_map. apply IH. exact Hqs.
Qed.

Lemma count_is_number_of_occurrences (s sub : str) :
  sub <> [] -> number_of_occurrences s sub (count s sub).
Proof.
  intros Hne. unfold number_of_occurrences, count.
  destruct sub as [|x sub]; [congruence|]. split.
  - apply count_from_reaches. exact Hne.
  - intros ps Hps. apply count_from_bounds; assumption.
Qed.

Lemma number_of_occurrences_unique s sub n m :
  number_of_occurrences s sub n -> number_of_occurrences s sub m -> n = m.
Proof.
  intros [(ps & Hps & Hn) Hmax_n] [(qs & Hqs & Hm) Hmax_m].
  specialize (Hmax_n _ Hqs). specialize (Hmax_m _ Hps). lia.
Qed.

(* ===================================================================== *)
(** * Citation counting *)
(* ===================================================================== *)

Lemma lower_search_strings (E : env) :
  List.map (fun kv => (fst kv, lower (unicode_lower E) (snd kv)))
    search_strings_map = search_strings_map.
Proof. reflexivity. Qed.

Lemma count_in_text_unfold (E : env) (text : str) :
  count_in_text E text =
  [ (py "bom", count text (py "scriptures/bofm/"));
    (py "dc", count text (py "scriptures/dc-testament/dc/"));
    (py "pgp", count text (py "scriptures/pgp/"));
    (py "nt", count text (py "scriptures/nt/"));
    (py "ot", count text (py "scriptures/ot/")) ].
Proof. reflexivity. Qed.

Lemma count_in_text_value (E : env) (text : str) code marker :
  In (code, marker) search_strings_map ->
  dict_get (count_in_text E text) code = Some (count text marker).
Proof.
  rewrite count_in_text_unfold. unfold search_strings_map. simpl.
  intros [H|[H|[H|[H|[H|[]]]]]]; injection H as <- <-; reflexivity.
Qed.

Lemma search_strings_nonempty code marker :
  In (code, marker) search_strings_map -> marker <> [].
Proof.
  unfold search_strings_map. simpl.
  intros [H|[H|[H|[H|[H|[]]]]]]; injection H as <- <-; discriminate.
Qed.

Lemma count_file_readable (E : env) (w : world) (p content : str) :
  readable E w p content ->
  count_scripture_references_from_file E (Some p) w =
  (Returned (count_in_text E (lower (unicode_lower E) (bs4_str E content))), w).
Proof.
  intros (Hne & Hfile & Hok).
  unfold count_scripture_references_from_file, falsy.
  destruct p as [|c p]; [congruence|].
  unfold bind, os_path_exists, exists_in, read_file, ret.
  rewrite Hfile, bool_decide_eq_true_2 by (eexists; reflexivity).
  cbn. rewrite Hfile, Hok. reflexivity.
Qed.

(** C2.  For an existing, readable talk page,
    [count_scripture_references_from_file] returns, for each of the five
    book codes, the number of non-overlapping occurrences of that book's
    URL-path marker in the lower-cased text of the parsed document; so a
    text with three non-overlapping occurrences of [scriptures/bofm/]
    and none of the other four markers gives
    [{bom: 3, dc: 0, pgp: 0, nt: 0, ot: 0}]. *)
Theorem count_scripture_references_counts_markers
    (E : env) (w : world) (p content : str) :
  readable E w p content ->
  let text := lower (unicode_lower E) (bs4_str E content) in
  exists counts,
    count_scripture_references_from_file E (Some p) w = (Returned counts, w) /\
    dict_keys counts = book_codes /\
    (forall code marker, In (code, marker) search_strings_map ->
       exists n, dict_get counts code = Some n /\
                 number_of_occurrences text marker n) /\
    (number_of_occurrences text (py "scriptures/bofm/") 3 ->
     number_of_occurrences text (py "scriptures/dc-testament/dc/") 0 ->
     number_of_occurrences text (py "scriptures/pgp/") 0 ->
     number_of_occurrences text (py "scriptures/nt/") 0 ->
     number_of_occurrences text (py "scriptures/ot/") 0 ->
     counts = [ (py "bom", 3%Z); (py "dc", 0%Z); (py "pgp", 0%Z);
                (py "nt", 0%Z); (py "ot", 0%Z) ]).
Proof.
  intros Hread text. exists (count_in_text E text).
  split; [apply count_file_readable; exact Hread|].
  split; [reflexivity|]. split.
  - intros code marker Hin. exists (count text marker). split.
    + apply count_in_text_value. exact Hin.
    + apply count_is_number_of_occurrences.
      apply (search_strings_nonempty code). exact Hin.
  - intros Hbom Hdc Hpgp Hnt Hot. rewrite count_in_text_unfold.
    assert (Hc : forall marker n, marker <> [] ->
               number_of_occurrences text marker n -> count text marker = n).
    { intros marker n Hne Hn.
      apply (number_of_occurrences_unique text marker); [|exact Hn].
      apply count_is_number_of_occurrences. exact Hne. }
    apply Hc in Hbom, Hdc, Hpgp, Hnt, Hot; try discriminate.
    rewrite Hbom, Hdc, Hpgp, Hnt, Hot. reflexivity.
Qed.

Lemma talk_fixture_readable :
  readable plain_env talk_fixture_world talk_fixture_path talk_fixture.
Proof. repeat split. discriminate. Qed.

Lemma count_fixture (marker : str) (n : Z) :
  marker <> [] ->
  count (lower (unicode_lower plain_env) (bs4_str plain_env talk_fixture)) marker = n ->
  number_of_occurrences
    (lower (unicode_lower plain_env) (bs4_str plain_env talk_fixture)) marker n.
Proof. intros Hne <-. apply count_is_number_of_occurrences. exact Hne. Qed.

Lemma count_scripture_references_counts_markers_witness :
  readable plain_env talk_fixture_world talk_fixture_path talk_fixture /\
  count_scripture_references_from_file plain_env (Some talk_fixture_path)
    talk_fixture_world =
  (Returned [ (py "bom", 3%Z); (py "dc", 0%Z); (py "pgp", 0%Z);
              (py "nt", 0%Z); (py "ot", 0%Z) ], talk_fixture_world).
Proof.
  split; [exact talk_fixture_readable|].
  destruct (count_scripture_references_counts_markers
              plain_env talk_fixture_world talk_fixture_path talk_fixture
              talk_fixture_readable)
    as (counts & Hrun & _ & _ & Hthree).
  rewrite Hrun. f_equal. f_equal.
  apply Hthree; apply count_fixture; solve [discriminate | vm_compute; reflexivity].
Defined.

Lemma count_file_missing (E : env) (w : world) (filepath : option str) :
  falsy filepath = true \/
  (exists p, filepath = Some p /\ fs w !! p = None) ->
  count_scripture_references_from_file E filepath w = (Returned zero_counts, w).
Proof.
  intros [Hfalsy | (p & -> & Hnone)].
  - destruct filepath as [[|c p]|]; [reflexivity | discriminate | reflexivity].
  - destruct p as [|c p]; [reflexivity|].
    unfold count_scripture_references_from_file, falsy, bind, os_path_exists,
      exists_in.
    rewrite Hnone, bool_decide_eq_false_2; [reflexivity|].
    intros [x Hx]. discriminate.
Qed.

(** C7.  When the file path is [None] or empty, or names nothing on
    disk, [count_scripture_references_from_file] returns the mapping with
    all five book codes at zero, and raises nothing. *)
Theorem count_scripture_references_missing_file
    (E : env) (w : world) (filepath : option str) :
  falsy filepath = true \/
  (exists p, filepath = Some p /\ fs w !! p = None) ->
  count_scripture_references_from_file E filepath w =
  (Returned [ (py "bom", 0%Z); (py "dc", 0%Z); (py "pgp", 0%Z);
              (py "nt", 0%Z); (py "ot", 0%Z) ], w).
Proof. apply count_file_missing. Qed.

Lemma count_scripture_references_missing_file_witness :
  (forall E : env,
     count_scripture_references_from_file E None talk_fixture_world =
     (Returned [ (py "bom", 0%Z); (py "dc", 0%Z); (py "pgp", 0%Z);
                 (py "nt", 0%Z); (py "ot", 0%Z) ], talk_fixture_world)) /\
  fs empty_world !! talk_fixture_path = None /\
  count_scripture_references_from_file plain_env (Some talk_fixture_path)
    empty_world =
  (Returned [ (py "bom", 0%Z); (py "dc", 0%Z); (py "pgp", 0%Z);
              (py "nt", 0%Z); (py "ot", 0%Z) ], empty_world).
Proof.
  split; [|split].
  - intros E. apply count_scripture_references_missing_file.
    left. reflexivity.
  - reflexivity.
  - apply count_scripture_references_missing_file.
    right. exists talk_fixture_path. split; reflexivity.
Defined.

Lemma count_in_text_shape (E : env) (text : str) :
  dict_keys (count_in_text E text) = book_codes /\
  Forall (fun kv => (0 <= snd kv)%Z) (count_in_text E text).
Proof.
  rewrite count_in_text_unfold. split; [reflexivity|].
  repeat (apply List.Forall_cons; [apply count_nonneg|]). apply List.Forall_nil.
Qed.

Lemma zero_counts_shape :
  dict_keys zero_counts = book_codes /\
  Forall (fun kv => (0 <= snd kv)%Z) zero_counts.
Proof.
  split; [reflexivity|].
  repeat (apply List.Forall_cons; [simpl; lia|]). apply List.Forall_nil.
Qed.

(** C9.  Whatever the file path, a mapping returned by
    [count_scripture_references_from_file] has exactly the five keys
    bom, dc, pgp, nt, ot and only non-negative values; and a mapping is
    returned whenever the path is null or empty, names nothing, or names
    a readable text file. *)
Theorem count_scripture_references_shape
    (E : env) (w : world) (filepath : option str) :
  (forall counts w',
     count_scripture_references_from_file E filepath w = (Returned counts, w') ->
     dict_keys counts = book_codes /\
     Forall (fun kv => (0 <= snd kv)%Z) counts) /\
  (falsy filepath = true \/
   (exists p, filepath = Some p /\
      (fs w !! p = None \/ exists content, readable E w p content)) ->
   exists counts,
     count_scripture_references_from_file E filepath w = (Returned counts, w)).
Proof.
  split.
  - intros counts w'.
    destruct filepath as [[|c p]|]; simpl;
      try (intros [= <- <-]; apply zero_counts_shape).
    unfold bind, os_path_exists, exists_in, read_file, ret.
    destruct (bool_decide (is_Some (fs w !! (c :: p)))); simpl;
      [|intros [= <- <-]; apply zero_counts_shape].
    destruct (fs w !! (c :: p)) as [[| text |]|]; try discriminate;
      destruct (os_fault E (OpOpen (c :: p))); try discriminate.
    intros [= <- <-]. apply count_in_text_shape.
  - intros [Hfalsy | (p & -> & [Hnone | (content & Hread)])].
    + eexists. apply count_file_missing. left. exact Hfalsy.
    + eexists. apply count_file_missing. right. exists p. split; [reflexivity | exact Hnone].
    + eexists. apply count_file_readable. exact Hread.
Qed.

Lemma count_scripture_references_shape_witness :
  exists counts,
    count_scripture_references_from_file plain_env (Some talk_fixture_path)
      talk_fixture_world = (Returned counts, talk_fixture_world) /\
    dict_keys counts = book_codes /\
    Forall (fun kv => (0 <= snd kv)%Z) counts.
Proof.
  destruct (count_scripture_references_shape plain_env talk_fixture_world
              (Some talk_fixture_path)) as [Hshape Hreturns].
  destruct Hreturns as [counts Hrun].
  - right. exists talk_fixture_path. split; [reflexivity|].
    right. exists talk_fixture. exact talk_fixture_readable.
  - exists counts. split; [exact Hrun|]. apply (Hshape _ _ Hrun).
Defined.

(* ===================================================================== *)
(** * Fetching with the cache *)
(* ===================================================================== *)

Lemma list_cache_path_inv url folder filepath :
  list_cache_path url folder = Some filepath ->
  exists filename, conference_list_filename url = Some filename /\
                   filepath = os_path_join folder filename.
Proof.
  unfold list_cache_path. destruct (conference_list_filename url) as [fn|];
    simpl; [|discriminate].
  intros [= <-]. exists fn. split; reflexivity.
Qed.

Lemma talk_cache_paths_inv url folder plain lang :
  talk_cache_paths url folder = Some (plain, lang) ->
  exists base, talk_base_filename url = Some base /\
               plain = os_path_join folder (base ++ py ".html") /\
               lang = os_path_join folder (base ++ py "_lang=eng.html").
Proof.
  unfold talk_cache_paths. destruct (talk_base_filename url) as [base|];
    simpl; [|discriminate].
  intros [= <- <-]. exists base. repeat split.
Qed.

Lemma save_conference_list_html_cached (E : env) (w : world) url folder filepath :
  list_cache_path url folder = Some filepath ->
  exists_in w filepath = true ->
  save_conference_list_html E url folder w = (Returned (Some filepath, false), w).
Proof.
  intros Hpath Hexists.
  apply list_cache_path_inv in Hpath as (fn & Hfn & ->).
  run_world. rewrite Hfn. run_world. rewrite Hexists. reflexivity.
Qed.

Lemma save_talk_html_cached (E : env) (w : world) url folder plain lang :
  talk_cache_paths url folder = Some (plain, lang) ->
  exists_in w plain = true \/ exists_in w lang = true ->
  save_talk_html E url folder w =
  (Returned (Some (if exists_in w lang then lang else plain), false), w).
Proof.
  intros Hpaths Hexists.
  apply talk_cache_paths_inv in Hpaths as (base & Hbase & -> & ->).
  run_world. rewrite Hbase. run_world.
  destruct (exists_in w (os_path_join folder (base ++ py ".html"))) eqn:Hplain,
    (exists_in w (os_path_join folder (base ++ py "_lang=eng.html"))) eqn:Hlang;
    cbn [orb]; try reflexivity.
  destruct Hexists; discriminate.
Qed.

(** C6.  A fetch whose cache file is already there (for a talk page: the
    plain or the language-tagged one) returns that path with
    [downloaded = False] and leaves the world as it was: the disk is
    unchanged and no request has been sent. *)
Theorem fetch_returns_cached_file (E : env) (w : world) (url folder : str) :
  (forall filepath,
     list_cache_path url folder = Some filepath ->
     exists_in w filepath = true ->
     save_conference_list_html E url folder w =
     (Returned (Some filepath, false), w)) /\
  (forall plain lang,
     talk_cache_paths url folder = Some (plain, lang) ->
     exists_in w plain = true \/ exists_in w lang = true ->
     let cached := if exists_in w lang then lang else plain in
     exists_in w cached = true /\
     save_talk_html E url folder w = (Returned (Some cached, false), w)).
Proof.
  split.
  - intros filepath. apply save_conference_list_html_cached.
  - intros plain lang Hpaths Hexists cached. split.
    + subst cached. destruct (exists_in w lang) eqn:Hlang; [exact Hlang|].
      destruct Hexists; [assumption | discriminate].
    + apply save_talk_html_cached; assumption.
Qed.

Lemma fetch_returns_cached_file_witness :
  save_conference_list_html not_modified_env list_url (py "conference_links")
    cached_world =
  (Returned (Some list_fixture_path, false), cached_world) /\
  save_talk_html not_modified_env talk_url (py "conference_talks")
    cached_world =
  (Returned (Some talk_fixture_path, false), cached_world).
Proof.
  split.
  - apply (proj1 (fetch_returns_cached_file not_modified_env cached_world
                    list_url (py "conference_links"))).
    + vm_compute. reflexivity.
    + vm_compute. reflexivity.
  - apply (proj2 (fetch_returns_cached_file not_modified_env cached_world
                    talk_url (py "conference_talks"))
             (py "conference_talks/2023-10-11nelson.html") talk_fixture_path).
    + vm_compute. reflexivity.
    + right. vm_compute. reflexivity.
Defined.

Lemma try_except_returns {A} (body : M A) (handler : exn -> M A) (w : world) :
  (forall e w', exists a w'', handler e w' = (Returned a, w'')) ->
  exists a w', try_except body handler w = (Returned a, w').
Proof.
  intros Hhandler. unfold try_except.
  destruct (body w) as [[a|e] w'].
  - exists a, w'. reflexivity.
  - apply Hhandler.
Qed.

Lemma save_conference_list_html_returns (E : env) (w : world) url folder :
  exists res w',
    save_conference_list_html E url folder w = (Returned res, w').
Proof.
  apply try_except_returns. intros e w'. exists (None, false), w'.
  destruct (is_request_exception e); reflexivity.
Qed.

Lemma save_talk_html_returns (E : env) (w : world) url folder :
  exists res w', save_talk_html E url folder w = (Returned res, w').
Proof.
  apply try_except_returns. intros e w'. exists (None, false), w'.
  destruct (is_request_exception e); reflexivity.
Qed.

(** What the part of a fetch behind the cache check does when the
    request or the disk fails: in every case the result is
    [(None, False)]. *)
Lemma download_fails (E : env) (w : world) url folder filepath :
  network_fails E w url \/ filesystem_fails E w folder filepath ->
  fst (try_except
         (response <- requests_get E url ;;
          raise_for_status response ;;;
          have_folder <- os_path_exists folder ;;
          (if negb have_folder then os_makedirs E folder else ret tt) ;;;
          write_file E filepath (snd response) ;;;
          ret (Some filepath, true))
         (fun e =>
            if is_request_exception e then ret (None, false)
            else ret (None, false)) w)
  = Returned (None, false).
Proof.
  unfold network_fails, filesystem_fails. intros Hfail. run_world.
  destruct (remote E (sent w) url) as [|status text]; [reflexivity|].
  destruct ((400 <=? status)%Z && (status <? 600)%Z) eqn:Hstatus;
    [reflexivity|].
  destruct Hfail as [Hnet | Hfs]; [lia|].
  unfold exists_in, is_directory in *. cbn [fs sent] in *.
  destruct (bool_decide (is_Some (fs w !! folder))) eqn:Hfolder; cbn [negb].
  - destruct Hfs as [[Hno _] | [Hopen | Hwrite]]; [discriminate| |].
    + rewrite Hopen. reflexivity.
    + rewrite Hwrite.
      destruct (os_fault E (OpOpen filepath) || _); reflexivity.
  - destruct (os_fault E (OpMakedirs folder)) eqn:Hmk; [reflexivity|].
    cbn [fs sent orb]. rewrite Hfolder.
    destruct (bool_decide (folder = [])); [reflexivity|]. cbn [orb fs sent].
    destruct Hfs as [[_ Hmk'] | [Hopen | Hwrite]]; [discriminate| |].
    + rewrite Hopen. reflexivity.
    + rewrite Hwrite.
      destruct (os_fault E (OpOpen filepath) || _); reflexivity.
Qed.

Lemma save_conference_list_html_fails (E : env) (w : world) url folder filepath :
  list_cache_path url folder = Some filepath ->
  exists_in w filepath = false ->
  network_fails E w url \/ filesystem_fails E w folder filepath ->
  fst (save_conference_list_html E url folder w) = Returned (None, false).
Proof.
  intros Hpath Hmiss Hfail.
  apply list_cache_path_inv in Hpath as (fn & Hfn & ->).
  rewrite <- (download_fails E w url folder _ Hfail).
  run_world. rewrite Hfn. run_world. rewrite Hmiss. reflexivity.
Qed.

Lemma save_talk_html_fails (E : env) (w : world) url folder paths :
  talk_cache_paths url folder = Some paths ->
  exists_in w (fst paths) = false ->
  exists_in w (snd paths) = false ->
  network_fails E w url \/
  filesystem_fails E w folder (talk_download_path url paths) ->
  fst (save_talk_html E url folder w) = Returned (None, false).
Proof.
  intros Hpaths Hplain Hlang Hfail. destruct paths as [plain lang].
  apply talk_cache_paths_inv in Hpaths as (base & Hbase & -> & ->).
  rewrite <- (download_fails E w url folder _ Hfail).
  unfold talk_download_path. cbn [fst snd] in *.
  run_world. rewrite Hbase. run_world. rewrite Hplain, Hlang. reflexivity.
Qed.

(** C8, as the code has it.  Neither fetch function ever raises; and when
    a fetch that is not served from the cache fails, because the request
    raises, or the response has a client or server error status (400 to
    599), or the folder cannot be created, or the file cannot be opened
    or written, the result is [(None, False)]. *)
Theorem fetch_failure_yields_empty_result
    (E : env) (w : world) (url folder : str) :
  (exists res w',
     save_conference_list_html E url folder w = (Returned res, w')) /\
  (exists res w', save_talk_html E url folder w = (Returned res, w')) /\
  (forall filepath,
     list_cache_path url folder = Some filepath ->
     exists_in w filepath = false ->
     network_fails E w url \/ filesystem_fails E w folder filepath ->
     fst (save_conference_list_html E url folder w) = Returned (None, false)) /\
  (forall paths,
     talk_cache_paths url folder = Some paths ->
     exists_in w (fst paths) = false ->
     exists_in w (snd paths) = false ->
     network_fails E w url \/
     filesystem_fails E w folder (talk_download_path url paths) ->
     fst (save_talk_html E url folder w) = Returned (None, false)).
Proof.
  split; [apply save_conference_list_html_returns|].
  split; [apply save_talk_html_returns|].
  split.
  - intros filepath. apply save_conference_list_html_fails.
  - intros paths. apply save_talk_html_fails.
Qed.

(** C8 as stated fails: a response with a status outside 200 to 299 that
    is no client or server error, here 304, is written to the cache and
    returned as a download. *)
Lemma non_2xx_response_is_saved :
  ~ (forall (E : env) (w : world) (url folder : str) status text paths,
       remote E (sent w) url = HttpResponse status text ->
       ~ (200 <= status < 300)%Z ->
       talk_cache_paths url folder = Some paths ->
       exists_in w (fst paths) = false ->
       exists_in w (snd paths) = false ->
       fst (save_talk_html E url folder w) = Returned (None, false)).
Proof.
  intros Hclaim.
  specialize (Hclaim not_modified_env empty_world talk_url
                (py "conference_talks") 304%Z (py "<html>stale</html>")
                (py "conference_talks/2023-10-11nelson.html", talk_fixture_path)).
  assert (Hsaved :
    fst (save_talk_html not_modified_env talk_url (py "conference_talks")
           empty_world) = Returned (Some talk_fixture_path, true))
    by (vm_compute; reflexivity).
  rewrite Hclaim in Hsaved; try (vm_compute; reflexivity); try discriminate.
  lia.
Qed.

Lemma fetch_failure_yields_empty_result_witness :
  network_fails failing_env empty_world talk_url /\
  fst (save_conference_list_html failing_env list_url (py "conference_links")
         empty_world) = Returned (None, false) /\
  fst (save_talk_html failing_env talk_url (py "conference_talks")
         empty_world) = Returned (None, false).
Proof.
  split; [unfold network_fails; simpl; lia|]. split.
  - apply (proj1 (proj2 (proj2 (fetch_failure_yields_empty_result failing_env
             empty_world list_url (py "conference_links"))))
             list_fixture_path).
    + vm_compute. reflexivity.
    + vm_compute. reflexivity.
    + left. unfold network_fails. simpl. lia.
  - apply (proj2 (proj2 (proj2 (fetch_failure_yields_empty_result failing_env
             empty_world talk_url (py "conference_talks"))))
             (py "conference_talks/2023-10-11nelson.html", talk_fixture_path)).
    + vm_compute. reflexivity.
    + vm_compute. reflexivity.
    + vm_compute. reflexivity.
    + left. unfold network_fails. simpl. lia.
Defined.

(* ===================================================================== *)
(** * The order on strings *)
(* ===================================================================== *)

Lemma str_compare_refl (a : str) : str_compare a a = Eq.
Proof.
  induction a as [|x a IH]; simpl; [reflexivity|].
  rewrite N.compare_refl. exact IH.
Qed.

Lemma str_compare_eq (a b : str) : str_compare a b = Eq -> a = b.
Proof.
  revert b. induction a as [|x a IH]; intros [|y b]; simpl;
    try discriminate; [reflexivity|].
  destruct (N.compare_spec x y) as [->| |]; try discriminate.
  intros H. f_equal. apply IH. exact H.
Qed.

Lemma str_compare_antisym (a b : str) :
  str_compare b a = CompOpp (str_compare a b).
Proof.
  revert b. induction a as [|x a IH]; intros [|y b]; simpl; try reflexivity.
  rewrite (N.compare_antisym x y).
  destruct (x ?= y)%N; simpl; [apply IH | reflexivity | reflexivity].
Qed.

Lemma str_leb_refl (a : str) : str_leb a a = true.
Proof. unfold str_leb. rewrite str_compare_refl. reflexivity. Qed.

Lemma str_leb_total (a b : str) : str_leb a b = true \/ str_leb b a = true.
Proof.
  unfold str_leb. rewrite (str_compare_antisym a b).
  destruct (str_compare a b); simpl; auto.
Qed.

Lemma str_ltb_leb (a b : str) : str_ltb a b = true -> str_leb a b = true.
Proof. unfold str_ltb, str_leb. destruct (str_compare a b); auto. Qed.

Lemma str_ltb_false_leb (a b : str) : str_ltb a b = false -> str_leb b a = true.
Proof.
  unfold str_ltb, str_leb. rewrite (str_compare_antisym a b).
  destruct (str_compare a b); simpl; auto.
Qed.

Lemma str_ltb_not_leb (a b : str) : str_ltb a b = true -> str_leb b a = false.
Proof.
  unfold str_ltb, str_leb. rewrite (str_compare_antisym a b).
  destruct (str_compare a b); simpl; auto; discriminate.
Qed.

Lemma str_leb_antisym (a b : str) :
  str_leb a b = true -> str_leb b a = true -> a = b.
Proof.
  unfold str_leb. rewrite (str_compare_antisym a b).
  destruct (str_compare a b) eqn:Hc; simpl; try discriminate.
  intros _ _. apply str_compare_eq. exact Hc.
Qed.

Lemma str_leb_trans (a b c : str) :
  str_leb a b = true -> str_leb b c = true -> str_leb a c = true.
Proof.
  unfold str_leb. revert b c.
  induction a as [|x a IH]; intros [|y b] [|z c]; simpl; try reflexivity;
    try discriminate.
  destruct (N.compare_spec x y) as [->|Hxy|Hxy]; try discriminate.
  - destruct (N.compare_spec y z) as [->|Hyz|Hyz]; try discriminate;
      [apply IH | reflexivity].
  - intros _.
    destruct (N.compare_spec y z) as [->|Hyz|Hyz]; try discriminate; intros _.
    + rewrite (proj2 (N.compare_lt_iff x z)) by exact Hxy. reflexivity.
    + rewrite (proj2 (N.compare_lt_iff x z)) by lia. reflexivity.
Qed.

Lemma str_compare_app (front a b : str) :
  str_compare (front ++ a) (front ++ b) = str_compare a b.
Proof.
  induction front as [|x front IH]; simpl; [reflexivity|].
  rewrite N.compare_refl. exact IH.
Qed.

(** The language-tagged filename of a talk sorts after the plain one. *)
Lemma lang_filename_sorts_later (b : str) :
  str_ltb (b ++ py ".html") (b ++ py "_lang=eng.html") = true.
Proof. unfold str_ltb. rewrite str_compare_app. reflexivity. Qed.

(* ===================================================================== *)
(** * Sorting and dropping duplicates *)
(* ===================================================================== *)

Section SortingFacts.
Context {A : Type} (key : A -> str).

Lemma desc_trans : Transitive (desc key).
Proof. intros x y z Hxy Hyz. unfold desc in *. eapply str_leb_trans; eauto. Qed.

Lemma insert_desc_perm (r : A) (l : list A) :
  Permutation (r :: l) (insert_desc key r l).
Proof.
  induction l as [|x l IH]; simpl; [reflexivity|].
  destruct (str_ltb (key x) (key r)); [reflexivity|].
  rewrite perm_swap. apply perm_skip. exact IH.
Qed.

Lemma insert_desc_sorted (r : A) (l : list A) :
  Sorted (desc key) l -> Sorted (desc key) (insert_desc key r l).
Proof.
  induction l as [|x l IH]; simpl; intros Hs.
  - repeat constructor.
  - destruct (str_ltb (key x) (key r)) eqn:Hlt.
    + constructor; [exact Hs|]. constructor. apply str_ltb_leb. exact Hlt.
    + inversion Hs as [|? ? Hs' Hhd]; subst.
      constructor; [apply IH; exact Hs'|].
      destruct l as [|y l]; simpl.
      * constructor. apply str_ltb_false_leb. exact Hlt.
      * destruct (str_ltb (key y) (key r)).
        -- constructor. apply str_ltb_false_leb. exact Hlt.
        -- inversion Hhd; subst. constructor. assumption.
Qed.

Lemma sort_values_desc_perm (rows : list A) :
  Permutation rows (sort_values_desc key rows).
Proof.
  unfold sort_values_desc. rewrite (Permutation_rev rows) at 1.
  induction (rev rows) as [|r l IH]; simpl; [reflexivity|].
  rewrite <- insert_desc_perm. apply perm_skip. exact IH.
Qed.

Lemma sort_values_desc_sorted (rows : list A) :
  StronglySorted (desc key) (sort_values_desc key rows).
Proof.
  apply Sorted_StronglySorted; [exact desc_trans|].
  unfold sort_values_desc.
  induction (rev rows) as [|r l IH]; simpl; [constructor|].
  apply insert_desc_sorted. exact IH.
Qed.
End SortingFacts.

Section DropDuplicatesFacts.
Context {A : Type} (key : A -> str).

Lemma drop_duplicates_subset (seen : list str) (rows : list A) (r : A) :
  In r (drop_duplicates_from key seen rows) -> In r rows.
Proof.
  revert seen. induction rows as [|x rows IH]; intros seen; simpl; [tauto|].
  destruct (bool_decide (key x ∈ seen)).
  - intros H. right. eapply IH. exact H.
  - intros [->|H]; [left; reflexivity | right; eapply IH; exact H].
Qed.

Lemma drop_duplicates_unseen (seen : list str) (rows : list A) (r : A) :
  In r (drop_duplicates_from key seen rows) -> key r ∉ seen.
Proof.
  revert seen. induction rows as [|x rows IH]; intros seen; simpl; [tauto|].
  destruct (bool_decide (key x ∈ seen)) eqn:Hseen.
  - apply IH.
  - apply bool_decide_eq_false in Hseen.
    intros [->|H]; [exact Hseen|].
    apply IH in H. intros Hin. apply H. right. exact Hin.
Qed.

Lemma drop_duplicates_nodup (seen : list str) (rows : list A) :
  NoDup (List.map key (drop_duplicates_from key seen rows)).
Proof.
  revert seen. induction rows as [|x rows IH]; intros seen; simpl.
  - constructor.
  - destruct (bool_decide (key x ∈ seen)); [apply IH|].
    simpl. constructor; [|apply IH].
    rewrite list_elem_of_In, in_map_iff. intros (r & Hkey & Hr).
    apply drop_duplicates_unseen in Hr. apply Hr. rewrite Hkey. left.
Qed.

Lemma drop_duplicates_complete (seen : list str) (rows : list A) (r : A) :
  In r rows -> key r ∉ seen ->
  exists r', In r' (drop_duplicates_from key seen rows) /\ key r' = key r.
Proof.
  revert seen. induction rows as [|x rows IH]; intros seen; simpl; [tauto|].
  intros Hin Hunseen.
  destruct (bool_decide (key x ∈ seen)) eqn:Hseen.
  - apply bool_decide_eq_true in Hseen.
    destruct Hin as [->|Hin]; [contradiction|]. apply IH; assumption.
  - destruct Hin as [->|Hin]; [exists r; split; [left|]; reflexivity|].
    destruct (decide (key r = key x)) as [Heq|Hne].
    + exists x. split; [left; reflexivity | symmetry; exact Heq].
    + destruct (IH (key x :: seen) Hin) as (r' & Hr' & Hkey).
      * intros Hmem. apply list_elem_of_In in Hmem as [Hmem|Hmem];
          [apply Hne; symmetry; exact Hmem|].
        apply Hunseen. apply list_elem_of_In. exact Hmem.
      * exists r'. split; [right; exact Hr' | exact Hkey].
Qed.

(** A kept row is the first row of the table with its key. *)
Lemma drop_duplicates_first_occurrence (seen : list str) (rows : list A) (r : A) :
  In r (drop_duplicates_from key seen rows) ->
  exists before after,
    rows = before ++ r :: after /\
    forall x, In x before -> key x <> key r.
Proof.
  revert seen. induction rows as [|x rows IH]; intros seen; simpl; [tauto|].
  destruct (bool_decide (key x ∈ seen)) eqn:Hseen.
  - apply bool_decide_eq_true in Hseen. intros Hr.
    pose proof (drop_duplicates_unseen _ _ _ Hr) as Hunseen.
    destruct (IH _ Hr) as (before & after & -> & Hfirst).
    exists (x :: before), after. split; [reflexivity|].
    intros y [<-|Hy]; [|apply Hfirst; exact Hy].
    intros Heq. apply Hunseen. rewrite <- Heq. exact Hseen.
  - intros [->|Hr].
    + exists [], rows. split; [reflexivity|]. intros y [].
    + pose proof (drop_duplicates_unseen _ _ _ Hr) as Hunseen.
      destruct (IH _ Hr) as (before & after & -> & Hfirst).
      exists (x :: before), after. split; [reflexivity|].
      intros y [<-|Hy]; [|apply Hfirst; exact Hy].
      intros Heq. apply Hunseen. rewrite <- Heq. left.
Qed.
End DropDuplicatesFacts.

(* ===================================================================== *)
(** * De-duplication of the talk table *)
(* ===================================================================== *)

Lemma get_base_talk_filename_lang (b : str) :
  get_base_talk_filename (b ++ py "_lang=eng.html") = b ++ py ".html".
Proof.
  unfold get_base_talk_filename. rewrite endswith_app.
  rewrite slice_until_neg_app by discriminate. reflexivity.
Qed.

(** The filenames with base [b.html] are [b.html] and
    [b_lang=eng.html]. *)
Lemma get_base_talk_filename_inv (f b : str) :
  get_base_talk_filename f = b ++ py ".html" ->
  f = b ++ py ".html" \/ f = b ++ py "_lang=eng.html".
Proof.
  unfold get_base_talk_filename.
  destruct (endswith f (py "_lang=eng.html")) eqn:Hend.
  - apply endswith_iff in Hend as [front ->].
    rewrite slice_until_neg_app by discriminate.
    intros H. apply app_inv_tail in H. subst. right. reflexivity.
  - intros ->. left. reflexivity.
Qed.

Lemma StronglySorted_after {A} (R : A -> A -> Prop) (l1 l2 : list A) (x : A) :
  StronglySorted R (l1 ++ x :: l2) -> List.Forall (R x) l2.
Proof.
  induction l1 as [|y l1 IH]; simpl; intros Hs.
  - inversion Hs; assumption.
  - inversion Hs; subst. apply IH. assumption.
Qed.

Lemma deduplicate_unfold (processed_df : list talk_row) :
  deduplicate processed_df =
  List.map fst (drop_duplicates_first snd (sorted_table processed_df)).
Proof. reflexivity. Qed.

Lemma sorted_table_rows (processed_df : list talk_row) (rb : talk_row * str) :
  In rb (sorted_table processed_df) <->
  In (fst rb) processed_df /\ rb = tagged (fst rb).
Proof.
  unfold sorted_table. split.
  - intros Hin.
    apply (Permutation_in _ (Permutation_sym (sort_values_desc_perm _ _))) in Hin.
    apply in_map_iff in Hin as (r & <- & Hr). split; [exact Hr | reflexivity].
  - intros [Hin Heq].
    apply (Permutation_in _ (sort_values_desc_perm _ _)).
    rewrite Heq. apply in_map. exact Hin.
Qed.

Lemma deduplicate_kept (processed_df : list talk_row) (r : talk_row) :
  In r (deduplicate processed_df) <->
  In (tagged r) (drop_duplicates_first snd (sorted_table processed_df)).
Proof.
  rewrite deduplicate_unfold, in_map_iff. split.
  - intros (rb & <- & Hrb).
    pose proof (drop_duplicates_subset _ _ _ _ Hrb) as Hin.
    apply sorted_table_rows in Hin as [_ Heq]. rewrite <- Heq. exact Hrb.
  - intros Hin. exists (tagged r). split; [reflexivity | exact Hin].
Qed.

Lemma deduplicate_subset (processed_df : list talk_row) (r : talk_row) :
  In r (deduplicate processed_df) -> In r processed_df.
Proof.
  rewrite deduplicate_kept. intros Hin.
  apply drop_duplicates_subset, sorted_table_rows in Hin as [Hin _]. exact Hin.
Qed.

Lemma deduplicate_nodup (processed_df : list talk_row) :
  NoDup (List.map base_filename (deduplicate processed_df)).
Proof.
  rewrite deduplicate_unfold, List.map_map.
  rewrite (map_ext_in _ snd).
  - apply drop_duplicates_nodup.
  - intros rb Hrb.
    apply drop_duplicates_subset, sorted_table_rows in Hrb as [_ Heq].
    rewrite Heq at 2. reflexivity.
Qed.

Lemma deduplicate_complete (processed_df : list talk_row) (r : talk_row) :
  In r processed_df ->
  exists r', In r' (deduplicate processed_df) /\
             base_filename r' = base_filename r.
Proof.
  intros Hin.
  destruct (drop_duplicates_complete snd [] (sorted_table processed_df) (tagged r))
    as (rb & Hrb & Hkey).
  - apply sorted_table_rows. split; [exact Hin | reflexivity].
  - apply not_elem_of_nil.
  - pose proof (drop_duplicates_subset _ _ _ _ Hrb) as Hsorted.
    apply sorted_table_rows in Hsorted as [_ Heq].
    exists (fst rb). split.
    + apply deduplicate_kept. rewrite <- Heq. exact Hrb.
    + rewrite Heq in Hkey. exact Hkey.
Qed.

Lemma deduplicate_greatest (processed_df : list talk_row) (r r' : talk_row) :
  In r processed_df ->
  In r' (deduplicate processed_df) ->
  base_filename r' = base_filename r ->
  str_leb (filename r) (filename r') = true.
Proof.
  intros Hin Hkept Hbase. apply deduplicate_kept in Hkept.
  destruct (drop_duplicates_first_occurrence _ _ _ _ Hkept)
    as (before & after & Hsplit & Hfirst).
  assert (Hr : In (tagged r) (sorted_table processed_df))
    by (apply sorted_table_rows; split; [exact Hin | reflexivity]).
  rewrite Hsplit in Hr. apply in_app_or in Hr as [Hr | [Hr | Hr]].
  - exfalso. apply (Hfirst _ Hr). simpl. symmetry. exact Hbase.
  - injection Hr as ->. apply str_leb_refl.
  - pose proof (sort_values_desc_sorted (fun rb => filename (fst rb))
                  (List.map tagged processed_df)) as Hsorted.
    fold (sorted_table processed_df) in Hsorted. rewrite Hsplit in Hsorted.
    apply StronglySorted_after in Hsorted.
    rewrite List.Forall_forall in Hsorted. apply (Hsorted _ Hr).
Qed.

(** C1.  After de-duplication the table has exactly one row for each
    normalized base filename of the input; each kept row is a row of the
    input and has the lexically greatest filename among the rows with
    its base filename; so where a plain [b.html] and a language-tagged
    [b_lang=eng.html] share a base filename, the kept row is the
    language-tagged one. *)
Theorem deduplicate_one_row_per_base_filename (processed_df : list talk_row) :
  let kept := deduplicate processed_df in
  NoDup (List.map base_filename kept) /\
  (forall r, In r kept -> In r processed_df) /\
  (forall r, In r processed_df ->
     exists r', In r' kept /\ base_filename r' = base_filename r) /\
  (forall r r', In r processed_df -> In r' kept ->
     base_filename r' = base_filename r ->
     str_leb (filename r) (filename r') = true) /\
  (forall r1 r2 b,
     In r1 processed_df -> In r2 processed_df ->
     filename r1 = b ++ py ".html" ->
     filename r2 = b ++ py "_lang=eng.html" ->
     base_filename r1 = base_filename r2 ->
     forall r', In r' kept -> base_filename r' = base_filename r2 ->
                filename r' = b ++ py "_lang=eng.html").
Proof.
  intros kept. split; [apply deduplicate_nodup|].
  split; [apply deduplicate_subset|].
  split; [apply deduplicate_complete|].
  split; [apply deduplicate_greatest|].
  intros r1 r2 b Hin1 Hin2 Hplain Hlang Hshare r' Hkept Hbase.
  pose proof (deduplicate_greatest _ _ _ Hin2 Hkept Hbase) as Hge.
  unfold base_filename in Hbase. rewrite Hlang in Hbase, Hge.
  rewrite get_base_talk_filename_lang in Hbase.
  apply get_base_talk_filename_inv in Hbase as [Hf|Hf]; [|exact Hf].
  rewrite Hf in Hge.
  rewrite (str_ltb_not_leb _ _ (lang_filename_sorts_later b)) in Hge.
  discriminate.
Qed.

Lemma deduplicate_one_row_per_base_filename_witness :
  deduplicate synthetic_df = [synthetic_row (py "talk-A_lang=eng.html")] /\
  forall r', In r' (deduplicate synthetic_df) ->
    filename r' = py "talk-A_lang=eng.html".
Proof.
  split; [vm_compute; reflexivity|].
  intros r' Hkept.
  destruct (deduplicate_one_row_per_base_filename synthetic_df)
    as (_ & _ & _ & _ & Hlang).
  apply (Hlang (synthetic_row (py "talk-A.html"))
               (synthetic_row (py "talk-A_lang=eng.html")) (py "talk-A"));
    try (vm_compute; reflexivity); try (simpl; tauto); try exact Hkept.
  assert (Hrows : deduplicate synthetic_df
                  = [synthetic_row (py "talk-A_lang=eng.html")])
    by (vm_compute; reflexivity).
  rewrite Hrows in Hkept. destruct Hkept as [<-|[]]. vm_compute. reflexivity.
Defined.

(* ===================================================================== *)
(** * Cleaning text *)
(* ===================================================================== *)

Lemma re_sub_delete_clean (in_class : N -> bool) (text : str) :
  List.Forall (fun c => in_class c = false) (re_sub_delete in_class text).
Proof.
  unfold re_sub_delete. rewrite List.Forall_forall. intros c Hc.
  apply filter_In in Hc as [_ Hc]. apply negb_true_iff. exact Hc.
Qed.

Lemma re_sub_delete_id (in_class : N -> bool) (text : str) :
  List.Forall (fun c => in_class c = false) text ->
  re_sub_delete in_class text = text.
Proof.
  unfold re_sub_delete. induction 1 as [|c text Hc _ IH]; simpl; [reflexivity|].
  rewrite Hc. simpl. f_equal. exact IH.
Qed.

Lemma re_sub_delete_Forall (P : N -> Prop) (in_class : N -> bool) (text : str) :
  List.Forall P text -> List.Forall P (re_sub_delete in_class text).
Proof.
  unfold re_sub_delete. rewrite !List.Forall_forall. intros H c Hc.
  apply filter_In in Hc as [Hc _]. apply H. exact Hc.
Qed.

Lemma collapse_spaces_Forall (P : N -> Prop) (b : bool) (text : str) :
  P 32%N -> List.Forall P text -> List.Forall P (collapse_spaces b text).
Proof.
  intros Hblank Htext. revert b.
  induction Htext as [|c text Hc _ IH]; intros b; simpl; [constructor|].
  destruct (isspace c).
  - destruct b; simpl; [apply IH|]. constructor; [exact Hblank | apply IH].
  - constructor; [exact Hc | apply IH].
Qed.

Lemma collapse_spaces_single_blanks (b : bool) (text : str) :
  single_blanks b (collapse_spaces b text).
Proof.
  revert b. induction text as [|c text IH]; intros b; simpl; [exact I|].
  destruct (isspace c) eqn:Hc.
  - destruct b; simpl; [apply IH|].
    change (isspace 32) with true. cbv iota.
    repeat split. apply IH.
  - simpl. rewrite Hc. apply IH.
Qed.

Lemma collapse_spaces_id (b : bool) (text : str) :
  single_blanks b text -> collapse_spaces b text = text.
Proof.
  revert b. induction text as [|c text IH]; intros b; simpl; [reflexivity|].
  destruct (isspace c).
  - intros (-> & -> & Hrest). simpl. f_equal. apply IH. exact Hrest.
  - intros Hrest. f_equal. apply IH. exact Hrest.
Qed.

Lemma single_blanks_weaken (s : str) : single_blanks true s -> single_blanks false s.
Proof.
  destruct s as [|c s]; simpl; [tauto|].
  destruct (isspace c); [intros (_ & H & _); discriminate | tauto].
Qed.

Lemma single_blanks_prefix (b : bool) (p q : str) :
  single_blanks b (p ++ q) -> single_blanks b p.
Proof.
  revert b. induction p as [|c p IH]; intros b; simpl; [intros _; exact I|].
  destruct (isspace c).
  - intros (Hc & Hb & Hrest). repeat split; [exact Hc | exact Hb |].
    apply IH. exact Hrest.
  - apply IH.
Qed.

Lemma single_blanks_no_space_run (b : bool) (s : str) :
  single_blanks b s -> no_space_run s.
Proof.
  revert b. induction s as [|c s IH]; intros b; simpl; [tauto|].
  destruct (isspace c) eqn:Hc.
  - intros (_ & _ & Hrest). split; [|eapply IH; exact Hrest].
    destruct s as [|d s]; [exact I|]. simpl in Hrest.
    destruct (isspace d); [destruct Hrest as (_ & Hd & _); discriminate|].
    intros [_ Hd]. discriminate.
  - intros Hrest. split; [|eapply IH; exact Hrest].
    destruct s as [|d s]; [exact I|]. intros [Hc' _]. discriminate.
Qed.

Lemma lstrip_suffix (s : str) : exists dropped, s = dropped ++ lstrip s.
Proof.
  induction s as [|c s [dropped IH]]; simpl.
  - exists []. reflexivity.
  - destruct (isspace c).
    + exists (c :: dropped). simpl. f_equal. exact IH.
    + exists []. reflexivity.
Qed.

Lemma lstrip_no_leading_space (s : str) : no_leading_space (lstrip s).
Proof.
  induction s as [|c s IH]; simpl; [exact I|].
  destruct (isspace c) eqn:Hc; [exact IH | exact Hc].
Qed.

Lemma lstrip_id (s : str) : no_leading_space s -> lstrip s = s.
Proof. destruct s as [|c s]; simpl; [reflexivity|]. intros ->. reflexivity. Qed.

Lemma lstrip_single_blanks (s : str) :
  single_blanks false s -> single_blanks false (lstrip s).
Proof.
  destruct s as [|c s]; simpl; [tauto|].
  destruct (isspace c) eqn:Hc.
  - intros (_ & _ & Hrest).
    assert (Hhead : no_leading_space s).
    { destruct s as [|d s]; simpl in *; [exact I|].
      destruct (isspace d); [destruct Hrest as (_ & H & _); discriminate|].
      reflexivity. }
    rewrite (lstrip_id _ Hhead). apply single_blanks_weaken. exact Hrest.
  - intros Hrest. simpl. rewrite Hc. exact Hrest.
Qed.

Lemma rstrip_prefix (s : str) : exists dropped, s = rstrip s ++ dropped.
Proof.
  unfold rstrip. destruct (lstrip_suffix (rev s)) as [dropped Hd].
  exists (rev dropped). rewrite <- rev_app_distr, <- Hd, rev_involutive.
  reflexivity.
Qed.

Lemma rstrip_no_trailing_space (s : str) : no_trailing_space (rstrip s).
Proof.
  unfold no_trailing_space, rstrip. rewrite rev_involutive.
  apply lstrip_no_leading_space.
Qed.

Lemma rstrip_id (s : str) : no_trailing_space s -> rstrip s = s.
Proof.
  unfold no_trailing_space, rstrip. intros H.
  rewrite (lstrip_id _ H). apply rev_involutive.
Qed.

Lemma rstrip_no_leading_space (s : str) :
  no_leading_space s -> no_leading_space (rstrip s).
Proof.
  destruct (rstrip_prefix s) as [dropped Hd].
  destruct (rstrip s) as [|c r]; [intros _; exact I|].
  rewrite Hd. simpl. tauto.
Qed.

Lemma strip_sublist (P : N -> Prop) (s : str) :
  List.Forall P s -> List.Forall P (strip s).
Proof.
  unfold strip. intros H.
  destruct (lstrip_suffix s) as [d1 H1].
  destruct (rstrip_prefix (lstrip s)) as [d2 H2].
  rewrite H1 in H. apply Forall_app in H as [_ H].
  rewrite H2 in H. apply Forall_app in H as [H _]. exact H.
Qed.

Lemma strip_single_blanks (s : str) :
  single_blanks false s -> single_blanks false (strip s).
Proof.
  unfold strip. intros H. apply lstrip_single_blanks in H.
  destruct (rstrip_prefix (lstrip s)) as [d Hd].
  rewrite Hd in H. eapply single_blanks_prefix. exact H.
Qed.

Lemma strip_id (s : str) :
  no_leading_space s -> no_trailing_space s -> strip s = s.
Proof.
  unfold strip. intros Hl Ht. rewrite (lstrip_id _ Hl). apply rstrip_id. exact Ht.
Qed.

(** C10.  On a string that is not null, [clean_text] gives a string on
    which it changes nothing more; that string holds only ASCII
    characters, neither starts nor ends with white space, and has no two
    white-space characters in a row. *)
Theorem clean_text_idempotent (text : str) :
  exists cleaned,
    clean_text (Some text) = Some cleaned /\
    clean_text (clean_text (Some text)) = clean_text (Some text) /\
    List.Forall (fun c => (c <= 127)%N) cleaned /\
    no_leading_space cleaned /\
    no_trailing_space cleaned /\
    no_space_run cleaned.
Proof.
  set (collapsed := collapse_spaces false
         (re_sub_delete (fun c => negb (is_ascii c))
            (re_sub_delete is_odd_char text))).
  assert (Hclean : clean_text (Some text) = Some (strip collapsed))
    by reflexivity.
  assert (Hodd : List.Forall (fun c => is_odd_char c = false) (strip collapsed)).
  { apply strip_sublist, collapse_spaces_Forall; [reflexivity|].
    apply re_sub_delete_Forall, re_sub_delete_clean. }
  assert (Hascii : List.Forall (fun c => negb (is_ascii c) = false)
                     (strip collapsed)).
  { apply strip_sublist, collapse_spaces_Forall; [reflexivity|].
    apply re_sub_delete_clean. }
  assert (Hblanks : single_blanks false (strip collapsed))
    by apply strip_single_blanks, collapse_spaces_single_blanks.
  assert (Hlead : no_leading_space (strip collapsed))
    by apply rstrip_no_leading_space, lstrip_no_leading_space.
  assert (Htrail : no_trailing_space (strip collapsed))
    by apply rstrip_no_trailing_space.
  exists (strip collapsed). split; [exact Hclean|]. split; [|split; [|split; [|split]]].
  - rewrite Hclean. unfold clean_text at 1.
    rewrite (re_sub_delete_id _ _ Hodd), (re_sub_delete_id _ _ Hascii),
      (collapse_spaces_id _ _ Hblanks), (strip_id _ Hlead Htrail).
    reflexivity.
  - eapply List.Forall_impl; [|exact Hascii].
    intros c Hc. apply negb_false_iff in Hc. unfold is_ascii in Hc.
    apply N.leb_le in Hc. exact Hc.
  - exact Hlead.
  - exact Htrail.
  - eapply single_blanks_no_space_run. exact Hblanks.
Qed.

(* ===================================================================== *)
(** * Removing the speaker from a title *)
(* ===================================================================== *)

Lemma lower_from_ascii (U : str -> N -> str -> str) (before s : str) :
  List.Forall (fun c => is_ascii c = true) s ->
  lower_from U before s = List.map ascii_lower s.
Proof.
  intros Hs. revert before.
  induction Hs as [|c s Hc _ IH]; intros before; simpl; [reflexivity|].
  rewrite Hc. simpl. f_equal. apply IH.
Qed.

Lemma is_alnum_ascii (c : N) : is_alnum c = true -> is_ascii c = true.
Proof.
  unfold is_alnum, is_ascii.
  rewrite !orb_true_iff, !andb_true_iff, !N.leb_le. lia.
Qed.

(** The normalized form compared by [remove_speaker_from_title]. *)
Lemma normalized_ascii (U : str -> N -> str -> str) (s : str) :
  lower U (re_sub_delete (fun c => negb (is_alnum c)) s) =
  List.map ascii_lower (List.filter is_alnum s).
Proof.
  unfold lower, re_sub_delete.
  rewrite (List.filter_ext _ is_alnum) by (intros c; apply negb_involutive).
  apply lower_from_ascii. rewrite List.Forall_forall. intros c Hc.
  apply filter_In in Hc as [_ Hc]. apply is_alnum_ascii. exact Hc.
Qed.

(** Where the title ends with the speaker's name letter for letter, the
    name is cut off. *)
Lemma remove_speaker_from_title_literal
    (U : str -> N -> str -> str) (front speaker : str) :
  speaker <> [] ->
  remove_speaker_from_title U (Some (front ++ speaker)) (Some speaker) =
  Some (strip front).
Proof.
  intros Hne. unfold remove_speaker_from_title.
  rewrite !normalized_ascii, List.filter_app, List.map_app, endswith_app.
  rewrite slice_until_neg_app by exact Hne. reflexivity.
Qed.

(** The example of the specification. *)
Lemma remove_speaker_from_title_example (U : str -> N -> str -> str) :
  remove_speaker_from_title U (Some (py "Faith in Christ Elder John Smith"))
    (Some (py "Elder John Smith")) = Some (py "Faith in Christ").
Proof.
  change (py "Faith in Christ Elder John Smith")
    with (py "Faith in Christ " ++ py "Elder John Smith").
  rewrite remove_speaker_from_title_literal by discriminate. reflexivity.
Qed.

(** C4, where the code departs from it.  The cut is as long as the
    speaker string, not as long as the byline found in the title: when
    the two differ in punctuation or spacing, letters of the title are
    lost or letters of the byline are left, and an empty speaker empties
    the title. *)
Theorem remove_speaker_from_title_cuts_speaker_length
    (U : str -> N -> str -> str) :
  remove_speaker_from_title U (Some (py "Faith Elder John A Smith Jr"))
    (Some (py "Elder John A. Smith, Jr.")) = Some (py "Fai") /\
  remove_speaker_from_title U (Some (py "Faith Elder John A. Smith, Jr."))
    (Some (py "Elder John A Smith Jr")) = Some (py "Faith Eld") /\
  remove_speaker_from_title U (Some (py "Faith in Christ")) (Some (py ""))
    = Some (py "").
Proof.
  unfold remove_speaker_from_title. rewrite !normalized_ascii.
  repeat split; vm_compute; reflexivity.
Qed.

(* ===================================================================== *)
(** * Per-100-verse columns *)
(* ===================================================================== *)

(** C3 as stated fails: for the Old Testament, 231 citations give
    0.998..., which is not within even [2^-10] of 1.0. *)
Lemma per100_of_231_is_not_one :
  dict_get VERSE_COUNTS (py "ot") = Some 23145%Z /\
  within_tolerance 0x1p-10 (per100 23145 231) 1 = false.
Proof. split; vm_compute; reflexivity. Qed.

(** C3, as the code has it.  Each citation column present in the table
    gets a [_per100] column holding [count / verses * 100] in binary64,
    with the verse total of [VERSE_COUNTS]; for the Old Testament, with
    23145 verses, 231 citations give 0.998055735580039 (1540/1543 up to
    rounding: times 1543 it is within [2^-40] of 1540), further than
    0.0019 from 1.0, and 23145 citations give 100. *)
Theorem per100_is_count_over_verses_times_100
    (df : dict (list Z)) (col : str) (verses : Z) (column : list Z) :
  In (col, verses) VERSE_COUNTS ->
  dict_get df col = Some column ->
  dict_get (per100_columns df) (col ++ py "_per100") =
    Some (List.map
            (fun count => (to_float count / to_float verses * to_float 100)%float)
            column) /\
  dict_get VERSE_COUNTS (py "ot") = Some 23145%Z /\
  per100 23145 231 = 0x1.ff01294fcd902p-1%float /\
  within_tolerance 0x1p-40 (per100 23145 231 * 1543)%float 1540 = true /\
  PrimFloat.ltb 0x1.f212d77318fc5p-10 (PrimFloat.abs (per100 23145 231 - 1))
    = true /\
  per100 23145 23145 = 100%float.
Proof.
  intros Hin Hcol. split; [|repeat split; vm_compute; reflexivity].
  unfold per100_columns, VERSE_COUNTS in *. simpl in Hin. cbn [fold_left fst snd].
  destruct Hin as [H|[H|[H|[H|[H|[]]]]]]; injection H as <- <-;
    rewrite ?Hcol;
    destruct (dict_get df (py "ot")); destruct (dict_get df (py "nt"));
    destruct (dict_get df (py "bom")); destruct (dict_get df (py "dc"));
    destruct (dict_get df (py "pgp")); try discriminate;
    injection Hcol as ->; reflexivity.
Qed.

Lemma per100_is_count_over_verses_times_100_witness :
  dict_get (per100_columns verse_fixture) (py "ot_per100") =
  Some [0x1.ff01294fcd902p-1%float].
Proof.
  destruct (per100_is_count_over_verses_times_100 verse_fixture (py "ot")
              23145%Z [231%Z]) as [Hcol _].
  - simpl. tauto.
  - vm_compute. reflexivity.
  - exact Hcol.
Defined.

(* ===================================================================== *)
(** * Rolling average *)
(* ===================================================================== *)

Lemma total_app (a b : list Q) : Qeq (total (a ++ b)) (total a + total b).
Proof.
  induction a as [|x a IH]; simpl.
  - rewrite Qplus_0_l. reflexivity.
  - rewrite IH. apply Qplus_assoc.
Qed.

Lemma total_rev (l : list Q) : Qeq (total (rev l)) (total l).
Proof.
  induction l as [|x l IH]; simpl; [reflexivity|].
  rewrite total_app, IH. simpl. rewrite Qplus_0_r. apply Qplus_comm.
Qed.

Lemma firstn_snoc {A} (l : list A) (n : nat) (a : A) :
  nth_error l n = Some a -> firstn (S n) l = firstn n l ++ [a].
Proof.
  revert n. induction l as [|x l IH]; intros [|n]; simpl; try discriminate.
  - intros [= ->]. reflexivity.
  - intros H. f_equal. apply IH. exact H.
Qed.

(** The values in the window at the newest position, oldest first, are
    the first [window] of the values seen, newest first. *)
Lemma window_at_newest (window : nat) (prefix rest : list Q) (x : Q) :
  rev (window_at window (length prefix) (prefix ++ x :: rest)) =
  firstn window (x :: rev prefix).
Proof.
  unfold window_at.
  replace (firstn (S (length prefix)) (prefix ++ x :: rest))
    with (prefix ++ [x]).
  - replace (x :: rev prefix) with (rev (prefix ++ [x]))
      by (rewrite rev_app_distr; reflexivity).
    rewrite firstn_rev. rewrite length_app. simpl.
    replace (length prefix + 1) with (S (length prefix)) by lia. reflexivity.
  - replace (S (length prefix)) with (length (prefix ++ [x]))
      by (rewrite length_app; simpl; lia).
    change (prefix ++ x :: rest) with (prefix ++ [x] ++ rest).
    rewrite app_assoc, firstn_app, firstn_all, Nat.sub_diag. simpl.
    rewrite app_nil_r. reflexivity.
Qed.

Lemma mean_of_window (window : nat) (prefix rest : list Q) (x sum : Q) (nobs : nat) :
  Qeq sum (total (firstn window (x :: rev prefix))) ->
  nobs = length (firstn window (x :: rev prefix)) ->
  Qeq (num_div_count sum nobs)
      (mean (window_at window (length prefix) (prefix ++ x :: rest))).
Proof.
  intros Hsum Hnobs. unfold mean. cbn [num_div_count num_add num_zero Q_number].
  fold (total (window_at window (length prefix) (prefix ++ x :: rest))).
  rewrite <- (total_rev (window_at _ _ _)).
  rewrite <- (length_rev (window_at _ _ _)).
  rewrite window_at_newest, <- Hnobs, <- Hsum. reflexivity.
Qed.

Lemma rolling_from_is_moving_mean (window : nat) (prefix rest : list Q) (sum : Q) :
  1 <= window ->
  Qeq sum (total (firstn window (rev prefix))) ->
  Forall2 holds
    (rolling_from window 1 (rev prefix) sum (Nat.min (length prefix) window) rest)
    (List.map (fun i => mean (window_at window i (prefix ++ rest)))
       (seq (length prefix) (length rest))).
Proof.
  intros Hwindow. revert prefix sum.
  induction rest as [|x rest IH]; intros prefix sum Hsum; [constructor|].
  destruct window as [|w]; [lia|].
  cbn [rolling_from length seq List.map].
  replace (S w - 1) with w by lia.
  assert (Hlen : length (rev prefix) = length prefix) by apply length_rev.
  destruct (nth_error (rev prefix) w) as [old|] eqn:Hold.
  - (* the window is full: the oldest value leaves it *)
    assert (Hfull : w < length prefix).
    { rewrite <- Hlen. apply nth_error_Some. congruence. }
    assert (Hsum' : Qeq (num_sub (num_add sum x) old)
                        (total (firstn (S w) (x :: rev prefix)))).
    { cbn [num_sub num_add Q_number firstn total fold_right].
      fold (total (firstn w (rev prefix))).
      rewrite Hsum, (firstn_snoc _ _ _ Hold), total_app. simpl. ring. }
    replace (Nat.min (length prefix) (S w)) with (S w) by lia.
    replace (S (S w) - 1) with (S w) by lia.
    constructor.
    + exists (num_div_count (num_sub (num_add sum x) old) (S w)).
      split; [reflexivity|].
      apply mean_of_window; [exact Hsum'|].
      rewrite length_firstn. simpl. lia.
    + specialize (IH (prefix ++ [x]) (num_sub (num_add sum x) old)).
      rewrite rev_app_distr, length_app, <- app_assoc in IH. simpl in IH.
      replace (length prefix + 1) with (S (length prefix)) in IH by lia.
      replace (Nat.min (S (length prefix)) (S w)) with (S w) in IH by lia.
      apply IH. exact Hsum'.
  - (* the window is still filling *)
    assert (Hshort : length prefix <= w).
    { rewrite <- Hlen. apply nth_error_None. exact Hold. }
    assert (Hsum' : Qeq (num_add sum x)
                        (total (firstn (S w) (x :: rev prefix)))).
    { cbn [num_add Q_number firstn total fold_right].
      fold (total (firstn w (rev prefix))).
      rewrite Hsum, !firstn_all2 by lia. apply Qplus_comm. }
    replace (Nat.min (length prefix) (S w)) with (length prefix) by lia.
    constructor.
    + exists (num_div_count (num_add sum x) (S (length prefix))).
      split; [reflexivity|].
      apply mean_of_window; [exact Hsum'|].
      rewrite length_firstn. simpl. lia.
    + specialize (IH (prefix ++ [x]) (num_add sum x)).
      rewrite rev_app_distr, length_app, <- app_assoc in IH. simpl in IH.
      replace (length prefix + 1) with (S (length prefix)) in IH by lia.
      replace (Nat.min (S (length prefix)) (S w)) with (S (length prefix))
        in IH by lia.
      apply IH. exact Hsum'.
Qed.

Lemma window_at_length (window i : nat) (values : list Q) :
  i < length values ->
  length (window_at window i values) = Nat.min (S i) window.
Proof.
  intros Hi. unfold window_at. rewrite length_skipn, length_firstn. lia.
Qed.

(** The labels of the per-conference sums are strictly ascending: every
    conference appears once, in the order of its label. *)
Lemma add_to_group_labels (label : str) (value : Q) (groups : dict Q) (l : str) :
  In l (dict_keys (add_to_group label value groups)) <->
  l = label \/ In l (dict_keys groups).
Proof.
  induction groups as [|[k sum] rest IH]; simpl.
  - intuition.
  - destruct (str_compare label k) eqn:Hcmp; simpl.
    + apply str_compare_eq in Hcmp. subst. intuition.
    + intuition.
    + rewrite IH. intuition.
Qed.

Lemma add_to_group_ascending (label : str) (value : Q) (groups : dict Q) :
  StronglySorted (fun a b => str_ltb a b = true) (dict_keys groups) ->
  StronglySorted (fun a b => str_ltb a b = true)
    (dict_keys (add_to_group label value groups)).
Proof.
  induction groups as [|[k sum] rest IH]; simpl; intros Hs.
  - repeat constructor.
  - inversion Hs as [|? ? Hrest Hall]; subst.
    destruct (str_compare label k) eqn:Hcmp; simpl.
    + constructor; assumption.
    + assert (Hlt : str_ltb label k = true)
        by (unfold str_ltb; rewrite Hcmp; reflexivity).
      constructor; [exact Hs|]. constructor; [exact Hlt|].
      eapply List.Forall_impl; [|exact Hall]. intros a Ha.
      unfold str_ltb in *.
      destruct (str_compare label a) eqn:Hla; [| reflexivity |].
      * apply str_compare_eq in Hla. subst a.
        rewrite (str_compare_antisym label k), Hcmp in Ha. discriminate.
      * exfalso.
        assert (H1 : str_leb label k = true)
          by (unfold str_leb; rewrite Hcmp; reflexivity).
        assert (H2 : str_leb k a = true)
          by (unfold str_leb; destruct (str_compare k a); congruence).
        pose proof (str_leb_trans _ _ _ H1 H2) as H3.
        unfold str_leb in H3. rewrite Hla in H3. discriminate.
    + constructor; [apply IH; exact Hrest|].
      rewrite List.Forall_forall. intros a Ha.
      apply add_to_group_labels in Ha as [->|Ha].
      * unfold str_ltb. rewrite (str_compare_antisym label k), Hcmp. reflexivity.
      * rewrite List.Forall_forall in Hall. apply Hall. exact Ha.
Qed.

Lemma groupby_sum_ascending (rows : dict Q) :
  StronglySorted (fun a b => str_ltb a b = true) (dict_keys (groupby_sum rows)).
Proof.
  unfold groupby_sum.
  assert (H : StronglySorted (fun a b => str_ltb a b = true)
                (dict_keys ([] : dict Q))) by constructor.
  revert H. generalize ([] : dict Q).
  induction rows as [|row rows IH]; intros groups Hs; simpl; [exact Hs|].
  apply IH, add_to_group_ascending, Hs.
Qed.

(** The smoothed series of the page is the moving mean of the
    per-conference sums. *)
Lemma smoothed_series_is_moving_mean (window : nat) (rows : dict Q) :
  1 <= window ->
  Forall2 holds (smoothed_series window rows)
    (moving_mean_spec window (List.map snd (groupby_sum rows))).
Proof.
  intros Hwindow. unfold smoothed_series, rolling_mean.
  apply (rolling_from_is_moving_mean window [] _ 0%Q Hwindow).
  simpl. destruct window; reflexivity.
Qed.

(** C5.  With a window of at least one and [min_periods = 1], the
    rolling mean of a series is its simple moving mean: every position,
    the first ones too, holds the mean of the last [window] values up to
    it, or of all values up to it while there are fewer, and none is
    null; the page applies it to the per-conference sums, which stand in
    ascending order of their [YYYY-MM] label; for window 2 over
    [10, 20, 30] it is [10, 15, 25], in exact and in binary64
    arithmetic. *)
Theorem rolling_mean_is_moving_mean (window : nat) (values : list Q) :
  1 <= window ->
  Forall2 holds (rolling_mean window 1 values) (moving_mean_spec window values) /\
  (forall i, i < length values ->
     length (window_at window i values) = Nat.min (S i) window) /\
  (forall rows : dict Q,
     StronglySorted (fun a b => str_ltb a b = true)
       (dict_keys (groupby_sum rows)) /\
     Forall2 holds (smoothed_series window rows)
       (moving_mean_spec window (List.map snd (groupby_sum rows)))) /\
  Forall2 holds (rolling_mean 2 1 [10; 20; 30]%Q) [10; 15; 25]%Q /\
  rolling_mean 2 1 [10; 20; 30]%float = [Some 10; Some 15; Some 25]%float.
Proof.
  intros Hwindow. split; [|split; [|split; [|split]]].
  - apply (rolling_from_is_moving_mean window [] values 0%Q Hwindow).
    simpl. destruct window; reflexivity.
  - intros i. apply window_at_length.
  - intros rows. split; [apply groupby_sum_ascending|].
    apply smoothed_series_is_moving_mean. exact Hwindow.
  - repeat constructor; eexists; (split; [reflexivity|]); reflexivity.
  - vm_compute. reflexivity.
Qed.

Lemma rolling_mean_is_moving_mean_witness :
  Forall2 holds (rolling_mean 3 1 [4; 8; 9; 1]%Q)
    (moving_mean_spec 3 [4; 8; 9; 1]%Q).
Proof.
  apply (rolling_mean_is_moving_mean 3 [4; 8; 9; 1]%Q). lia.
Defined.

(* ===================================================================== *)
(** * More about the built-ins *)
(* ===================================================================== *)

Lemma split_nonempty (sep : N) (s : str) : split sep s <> [].
Proof.
  induction s as [|c s IH]; simpl; [discriminate|].
  destruct (c =? sep)%N; [discriminate|].
  destruct (split sep s); [congruence | discriminate].
Qed.

(** No part of a split holds the separator. *)
Lemma split_no_sep (sep : N) (s part : str) :
  In part (split sep s) -> ~ In sep part.
Proof.
  revert part. induction s as [|c s IH]; simpl; intros part.
  - intros [<-|[]]. intros [].
  - destruct (N.eqb_spec c sep) as [->|Hne].
    + intros [<-|Hin]; [intros [] | apply IH; exact Hin].
    + destruct (split sep s) as [|h t] eqn:Hsplit.
      * intros [<-|[]]. intros [H|[]]. congruence.
      * intros [<-|Hin].
        -- intros [H|H]; [congruence|]. apply (IH h); [left; reflexivity | exact H].
        -- apply IH. right. exact Hin.
Qed.

Lemma split_single (sep : N) (s : str) : ~ In sep s -> split sep s = [s].
Proof.
  induction s as [|c s IH]; simpl; intros Hno; [reflexivity|].
  destruct (N.eqb_spec c sep) as [->|Hne]; [exfalso; apply Hno; left; reflexivity|].
  rewrite IH by (intros H; apply Hno; right; exact H). reflexivity.
Qed.

(** Splitting distributes over a separator. *)
Lemma split_app_sep (sep : N) (a b : str) :
  split sep (a ++ sep :: b) = split sep a ++ split sep b.
Proof.
  induction a as [|c a IH]; simpl.
  - rewrite N.eqb_refl. reflexivity.
  - destruct (c =? sep)%N; [rewrite IH; reflexivity|].
    rewrite IH. pose proof (split_nonempty sep a) as Hne.
    destruct (split sep a); [congruence | reflexivity].
Qed.

Lemma index_neg_In {A} (l : list A) (k : nat) (a : A) :
  index_neg l k = Some a -> In a l.
Proof.
  unfold index_neg. destruct ((1 <=? k) && (k <=? length l)); [|discriminate].
  apply nth_error_In.
Qed.

(** The last elements of a list are those of its tail end. *)
Lemma index_neg_app {A} (front l : list A) (k : nat) :
  k <= length l -> index_neg (front ++ l) k = index_neg l k.
Proof.
  intros Hk. unfold index_neg. rewrite length_app.
  destruct (Nat.leb_spec 1 k) as [H1|H1]; [|reflexivity]. simpl.
  destruct (Nat.leb_spec k (length l)) as [_|]; [|lia].
  destruct (Nat.leb_spec k (length front + length l)) as [_|]; [|lia].
  rewrite nth_error_app2 by lia. f_equal. lia.
Qed.

Lemma index_neg_None {A} (l : list A) (k : nat) :
  length l < k -> index_neg l k = None.
Proof.
  intros Hk. unfold index_neg.
  destruct (Nat.leb_spec k (length l)); [lia|]. rewrite andb_false_r. reflexivity.
Qed.

Lemma startswith_cons_false (c : N) (s : str) :
  c <> 47%N -> startswith (c :: s) (py "/") = false.
Proof.
  intros Hc. change (py "/") with [47%N]. simpl.
  destruct (N.eqb_spec c 47); [congruence | reflexivity].
Qed.

(** A name that starts with a part of a split by [/] and a dash does not
    start with [/]. *)
Lemma split_part_name (url part rest : str) :
  In part (split 47 url) ->
  startswith (part ++ py "-" ++ rest) (py "/") = false.
Proof.
  intros Hin. apply split_no_sep in Hin.
  destruct part as [|c part].
  - reflexivity.
  - simpl app. apply startswith_cons_false. intros ->. apply Hin. left. reflexivity.
Qed.

(** Joining a folder and a relative name gives a longer path, and names
    can be read back from joined paths. *)
Lemma os_path_join_longer (folder name : str) :
  startswith name (py "/") = false -> name <> [] ->
  length folder < length (os_path_join folder name).
Proof.
  intros Hrel Hne. unfold os_path_join. rewrite Hrel.
  assert (0 < length name) by (destruct name; [congruence | simpl; lia]).
  destruct (bool_decide (folder = []) || endswith folder (py "/"));
    rewrite !length_app; simpl; lia.
Qed.

Lemma os_path_join_inj (folder name1 name2 : str) :
  startswith name1 (py "/") = false -> startswith name2 (py "/") = false ->
  os_path_join folder name1 = os_path_join folder name2 -> name1 = name2.
Proof.
  intros H1 H2. unfold os_path_join. rewrite H1, H2.
  destruct (bool_decide (folder = []) || endswith folder (py "/")); intros Heq.
  - apply app_inv_head in Heq. exact Heq.
  - apply app_inv_head in Heq. apply app_inv_head in Heq. exact Heq.
Qed.

(** ** Directories above a path *)

Lemma span_name_length (reversed : str) :
  length (fst (span_name reversed)) + length (snd (span_name reversed))
  = length reversed.
Proof.
  induction reversed as [|c r IH]; simpl; [reflexivity|].
  destruct (c =? 47)%N; simpl; [reflexivity|].
  destruct (span_name r) as [name head]. simpl in *. lia.
Qed.

Lemma drop_slashes_length (reversed : str) :
  length (drop_slashes reversed) <= length reversed.
Proof.
  induction reversed as [|c r IH]; simpl; [lia|].
  destruct (c =? 47)%N; simpl; lia.
Qed.

(** Head and tail of a path are no longer than the path. *)
Lemma os_path_split_length (p : str) :
  length (fst (os_path_split p)) + length (snd (os_path_split p)) <= length p.
Proof.
  unfold os_path_split. pose proof (span_name_length (rev p)) as Hlen.
  destruct (span_name (rev p)) as [tail head]. simpl in *.
  rewrite length_rev in Hlen. rewrite !length_rev.
  destruct (forallb (N.eqb 47) head); [lia|].
  pose proof (drop_slashes_length head). lia.
Qed.

(** Every directory above a path has a shorter name than the path. *)
Lemma parent_dirs_from_shorter (fuel : nat) (p q : str) :
  In q (parent_dirs_from fuel p) -> length q < length p.
Proof.
  revert p. induction fuel as [|fuel IH]; intros p; simpl; [tauto|].
  pose proof (os_path_split_length p) as Hp.
  destruct (os_path_split p) as [head tail]. simpl in Hp.
  assert (Hstep : forall h t,
            (if bool_decide (tail = []) then os_path_split head else (head, tail))
            = (h, t) -> t <> [] -> length h < length p).
  { intros h t Hsplit Ht. destruct (bool_decide (tail = [])).
    - pose proof (os_path_split_length head) as Hh. rewrite Hsplit in Hh.
      simpl in Hh. destruct t; [congruence | simpl in Hh; lia].
    - injection Hsplit as <- <-. destruct tail; [congruence | simpl in Hp; lia]. }
  destruct (if bool_decide (tail = []) then os_path_split head else (head, tail))
    as [h t].
  destruct (bool_decide (h = [])); [intros []|].
  destruct (bool_decide (t = [])) eqn:Ht; [intros []|].
  destruct (forallb (N.eqb 47) h); [intros []|]. cbn [negb andb].
  apply bool_decide_eq_false in Ht. specialize (Hstep h t eq_refl Ht).
  intros [<-|Hin]; [exact Hstep|]. apply IH in Hin. lia.
Qed.

Lemma parent_dirs_shorter (p q : str) :
  In q (parent_dirs p) -> length q < length p.
Proof. apply parent_dirs_from_shorter. Qed.

(** The length of the path is fuel enough: more of it changes nothing. *)
Lemma parent_dirs_from_enough (fuel : nat) (p : str) :
  length p <= fuel -> parent_dirs_from fuel p = parent_dirs p.
Proof.
  unfold parent_dirs.
  assert (Hany : forall fuel1 fuel2 p0,
            length p0 <= fuel1 -> length p0 <= fuel2 ->
            parent_dirs_from fuel1 p0 = parent_dirs_from fuel2 p0).
  { clear. induction fuel1 as [|fuel1 IH]; intros fuel2 p0 H1 H2.
    - destruct p0; [|simpl in H1; lia]. destruct fuel2; reflexivity.
    - destruct fuel2 as [|fuel2];
        [destruct p0; [reflexivity | simpl in H2; lia]|].
      pose proof (fun q => parent_dirs_from_shorter 1 p0 q) as Hshort.
      simpl in *.
      destruct (os_path_split p0) as [head tail].
      destruct (if bool_decide (tail = []) then os_path_split head
                else (head, tail)) as [h t].
      destruct (negb (bool_decide (h = [])) && negb (bool_decide (t = []))
                && negb (forallb (N.eqb 47) h)); [|reflexivity].
      specialize (Hshort h (or_introl eq_refl)).
      f_equal. apply IH; lia. }
  intros Hfuel. apply Hany; [exact Hfuel | lia].
Qed.

Lemma missing_parents_In (w : world) (dirs : list str) (q : str) :
  In q (missing_parents w dirs) -> In q dirs /\ exists_in w q = false.
Proof.
  induction dirs as [|d dirs IH]; simpl; [tauto|].
  destruct (exists_in w d) eqn:Hd; [intros []|].
  intros [<-|Hin]; [split; [left; reflexivity | exact Hd]|].
  destruct (IH Hin). split; [right|]; assumption.
Qed.

Lemma mkdirs_cons (d : str) (dirs : list str) (disk : gmap str node) :
  mkdirs (d :: dirs) disk = <[d := Directory]> (mkdirs dirs disk).
Proof. reflexivity. Qed.

Lemma lookup_mkdirs_out (dirs : list str) (disk : gmap str node) (q : str) :
  ~ In q dirs -> mkdirs dirs disk !! q = disk !! q.
Proof.
  induction dirs as [|d dirs IH]; intros Hout; [reflexivity|].
  rewrite mkdirs_cons, lookup_insert_ne.
  - apply IH. intros H. apply Hout. right. exact H.
  - intros ->. apply Hout. left. reflexivity.
Qed.

Lemma lookup_mkdirs_keeps (dirs : list str) (disk : gmap str node) (q : str) :
  is_Some (disk !! q) -> is_Some (mkdirs dirs disk !! q).
Proof.
  intros Hq. induction dirs as [|d dirs IH]; [exact Hq|].
  rewrite mkdirs_cons. apply lookup_insert_is_Some'. right. exact IH.
Qed.



(** What [os.makedirs] makes is the folder or a directory above it. *)
Lemma made_dirs_out (w : world) (folder q : str) :
  q <> folder -> ~ In q (parent_dirs folder) ->
  ~ In q (folder :: missing_parents w (parent_dirs folder)).
Proof.
  intros Hne Hout [<-|Hin]; [congruence|].
  apply missing_parents_In in Hin as [Hin _]. contradiction.
Qed.

Lemma longer_not_above (folder q : str) :
  length folder < length q -> q <> folder /\ ~ In q (parent_dirs folder).
Proof.
  intros Hlen. split; [intros ->; lia|].
  intros Hin. apply parent_dirs_shorter in Hin. lia.
Qed.

Lemma made_dirs_not_longer (w : world) (folder q : str) :
  length folder < length q ->
  ~ In q (folder :: missing_parents w (parent_dirs folder)).
Proof.
  intros Hlen [<-|Hin]; [lia|].
  apply missing_parents_In in Hin as [Hin _].
  apply parent_dirs_shorter in Hin. lia.
Qed.

(* ===================================================================== *)
(** * What a fetch does to the world *)
(* ===================================================================== *)

Lemma save_conference_list_html_miss (E : env) (w : world) url folder filepath :
  list_cache_path url folder = Some filepath ->
  exists_in w filepath = false ->
  save_conference_list_html E url folder w =
  try_except (fetch_and_store E url folder filepath) on_exception w.
Proof.
  intros Hpath Hmiss.
  apply list_cache_path_inv in Hpath as (fn & Hfn & ->).
  unfold fetch_and_store, on_exception.
  run_world. rewrite Hfn. run_world. rewrite Hmiss. reflexivity.
Qed.

Lemma save_talk_html_miss (E : env) (w : world) url folder paths :
  talk_cache_paths url folder = Some paths ->
  exists_in w (fst paths) = false ->
  exists_in w (snd paths) = false ->
  save_talk_html E url folder w =
  try_except (fetch_and_store E url folder (talk_download_path url paths))
    on_exception w.
Proof.
  intros Hpaths Hplain Hlang. destruct paths as [plain lang].
  apply talk_cache_paths_inv in Hpaths as (base & Hbase & -> & ->).
  unfold fetch_and_store, on_exception, talk_download_path.
  cbn [fst snd] in *.
  run_world. rewrite Hbase. run_world. rewrite Hplain, Hlang. reflexivity.
Qed.

(** Every way the download can end: one request has been sent; only the
    folder, the directories above it and the cache file can have changed;
    and either nothing is returned, or the path is returned as a download
    and the file holds the body of the response. *)
Lemma fetch_and_store_outcome (E : env) (w : world) url folder filepath :
  exists res w',
    try_except (fetch_and_store E url folder filepath) on_exception w
      = (Returned res, w') /\
    sent w' = sent w ++ [url] /\
    (forall q, q <> folder -> ~ In q (parent_dirs folder) -> q <> filepath ->
               fs w' !! q = fs w !! q) /\
    (res = (None, false) \/
     (res = (Some filepath, true) /\
      exists status text,
        remote E (sent w) url = HttpResponse status text /\
        fs w' !! filepath = Some (TextFile text))).
Proof.
  unfold fetch_and_store, on_exception. run_world.
  destruct (remote E (sent w) url) as [|status text];
    [fetch_leaf ltac:(reflexivity); left; reflexivity|].
  destruct ((400 <=? status)%Z && (status <? 600)%Z);
    [fetch_leaf ltac:(reflexivity); left; reflexivity|].
  unfold exists_in, is_directory. cbn [fs sent].
  destruct (bool_decide (is_Some (fs w !! folder))) eqn:Hfolder; cbn [negb].
  - destruct (os_fault E (OpOpen filepath) || _);
      [fetch_leaf ltac:(reflexivity); left; reflexivity|].
    destruct (os_fault E (OpWrite filepath));
      [fetch_leaf ltac:(reflexivity); left; reflexivity|].
    fetch_leaf ltac:(reflexivity). right. split; [reflexivity|].
    exists status, text. split; [reflexivity | apply lookup_insert_eq].
  - destruct (os_fault E (OpMakedirs folder) || bool_decide (folder = []) || _);
      [fetch_leaf ltac:(reflexivity); left; reflexivity|].
    cbn [fs sent].
    destruct (os_fault E (OpOpen filepath) || _);
      [fetch_leaf ltac:(apply lookup_mkdirs_out, made_dirs_out; assumption);
       left; reflexivity|].
    destruct (os_fault E (OpWrite filepath));
      [fetch_leaf ltac:(apply lookup_mkdirs_out, made_dirs_out; assumption);
       left; reflexivity|].
    fetch_leaf ltac:(apply lookup_mkdirs_out, made_dirs_out; assumption).
    right. split; [reflexivity|].
    exists status, text. split; [reflexivity | apply lookup_insert_eq].
Qed.

Lemma conference_list_filename_relative (url filename : str) :
  conference_list_filename url = Some filename ->
  startswith filename (py "/") = false /\ filename <> [].
Proof.
  unfold conference_list_filename.
  destruct (index_neg (split 47 url) 2) as [a|] eqn:Ha; [|discriminate].
  destruct (index_neg (split 47 url) 1) as [b|]; [|discriminate].
  cbn [mbind option_bind].
  destruct (nth_error (split 63 b) 0) as [c|]; [|discriminate].
  cbn [mbind option_bind].
  intros [= <-]. apply index_neg_In in Ha. split.
  - apply (split_part_name url). exact Ha.
  - destruct a; discriminate.
Qed.

Lemma talk_base_filename_relative (url base ext : str) :
  talk_base_filename url = Some base ->
  startswith (base ++ ext) (py "/") = false /\ base ++ ext <> [].
Proof.
  unfold talk_base_filename.
  destruct (index_neg (split 47 url) 3) as [a|] eqn:Ha; [|discriminate].
  destruct (index_neg (split 47 url) 2) as [b|]; [|discriminate].
  destruct (index_neg (split 47 url) 1) as [c|]; [|discriminate].
  cbn [mbind option_bind].
  destruct (nth_error (split 63 c) 0) as [d|]; [|discriminate].
  cbn [mbind option_bind].
  intros [= <-]. apply index_neg_In in Ha.
  rewrite <- !app_assoc. split.
  - apply (split_part_name url). exact Ha.
  - destruct a; discriminate.
Qed.

(** A cache file has a longer name than its folder, so it is neither the
    folder nor a directory above it. *)
Lemma list_cache_path_longer (url folder filepath : str) :
  list_cache_path url folder = Some filepath -> length folder < length filepath.
Proof.
  intros Hpath. apply list_cache_path_inv in Hpath as (fn & Hfn & ->).
  apply conference_list_filename_relative in Hfn as [Hrel Hne].
  apply os_path_join_longer; assumption.
Qed.

Lemma talk_cache_paths_distinct (url folder plain lang : str) :
  talk_cache_paths url folder = Some (plain, lang) ->
  length folder < length plain /\ length folder < length lang /\ plain <> lang.
Proof.
  intros Hpaths.
  apply talk_cache_paths_inv in Hpaths as (base & Hbase & -> & ->).
  destruct (talk_base_filename_relative url base (py ".html") Hbase)
    as [Hrel1 Hne1].
  destruct (talk_base_filename_relative url base (py "_lang=eng.html") Hbase)
    as [Hrel2 Hne2].
  pose proof (os_path_join_longer folder _ Hrel1 Hne1) as Hlen1.
  pose proof (os_path_join_longer folder _ Hrel2 Hne2) as Hlen2.
  repeat split; [exact Hlen1 | exact Hlen2 |].
  - intros Heq. apply os_path_join_inj in Heq; [|assumption|assumption].
    apply app_inv_head in Heq. discriminate.
Qed.

Lemma fetch_and_store_success (E : env) (w : world) url folder filepath text :
  can_download E w url folder filepath text ->
  exists_in w filepath = false ->
  length folder < length filepath ->
  exists w',
    try_except (fetch_and_store E url folder filepath) on_exception w
      = (Returned (Some filepath, true), w') /\
    fs w' !! filepath = Some (TextFile text) /\
    sent w' = sent w ++ [url] /\
    exists_in w' folder = true.
Proof.
  intros ((status & Hremote & Hstatus) & Hfolder & Hopen & Hwrite) Hmiss Hlen.
  unfold fetch_and_store, on_exception. run_world. rewrite Hremote.
  cbv beta iota.
  destruct ((400 <=? status)%Z && (status <? 600)%Z) eqn:Hcheck;
    [apply andb_true_iff in Hcheck as [H1 H2]; lia|].
  unfold exists_in, is_directory in *. cbn [fs sent] in *.
  assert (Hfile : fs w !! filepath = None).
  { apply bool_decide_eq_false in Hmiss.
    destruct (fs w !! filepath); [exfalso; apply Hmiss; eexists; reflexivity|].
    reflexivity. }
  assert (Hne : filepath <> folder) by (intros ->; lia).
  destruct (bool_decide (is_Some (fs w !! folder))) eqn:Hhave;
    cbn [negb fs sent].
  - rewrite Hopen, Hwrite, Hfile. cbn [orb fs sent].
    eexists. split; [reflexivity|]. cbn [fs sent].
    split; [apply lookup_insert_eq|]. split; [reflexivity|].
    apply bool_decide_eq_true. rewrite lookup_insert_ne by exact Hne.
    apply bool_decide_eq_true in Hhave. exact Hhave.
  - destruct Hfolder as [Hyes | [Hname Hmk]]; [discriminate|].
    rewrite Hmk, (bool_decide_eq_false_2 _ Hname). cbn [orb fs sent].
    rewrite Hhave. cbn [fs sent].
    rewrite Hopen, Hwrite.
    rewrite (lookup_mkdirs_out _ _ filepath (made_dirs_not_longer _ _ _ Hlen)).
    rewrite Hfile. cbn [orb fs sent].
    eexists. split; [reflexivity|]. cbn [fs sent].
    split; [apply lookup_insert_eq|]. split; [reflexivity|].
    apply bool_decide_eq_true. rewrite lookup_insert_ne by exact Hne.
    rewrite mkdirs_cons, lookup_insert_eq. eexists. reflexivity.
Qed.

(** X1.  A fetch that is not served from the cache and meets no failure
    returns the cache path as a download; afterwards the file holds the
    body of the response as it came, the folder exists, and exactly one
    request, for this URL, has been added to those sent. *)
Theorem fresh_download_is_stored (E : env) (w : world) (url folder text : str) :
  (forall filepath,
     list_cache_path url folder = Some filepath ->
     exists_in w filepath = false ->
     can_download E w url folder filepath text ->
     exists w',
       save_conference_list_html E url folder w
         = (Returned (Some filepath, true), w') /\
       fs w' !! filepath = Some (TextFile text) /\
       sent w' = sent w ++ [url] /\
       exists_in w' folder = true) /\
  (forall paths,
     talk_cache_paths url folder = Some paths ->
     exists_in w (fst paths) = false ->
     exists_in w (snd paths) = false ->
     can_download E w url folder (talk_download_path url paths) text ->
     exists w',
       save_talk_html E url folder w
         = (Returned (Some (talk_download_path url paths), true), w') /\
       fs w' !! talk_download_path url paths = Some (TextFile text) /\
       sent w' = sent w ++ [url] /\
       exists_in w' folder = true).
Proof.
  split.
  - intros filepath Hpath Hmiss Hcan.
    rewrite (save_conference_list_html_miss _ _ _ _ _ Hpath Hmiss).
    apply fetch_and_store_success; [exact Hcan | exact Hmiss|].
    eapply list_cache_path_longer. exact Hpath.
  - intros [plain lang] Hpaths Hplain Hlang Hcan.
    rewrite (save_talk_html_miss _ _ _ _ _ Hpaths Hplain Hlang).
    destruct (talk_cache_paths_distinct _ _ _ _ Hpaths) as (H1 & H2 & _).
    apply fetch_and_store_success; [exact Hcan | |];
      unfold talk_download_path in *; cbn [fst snd] in *;
      destruct (contains url (py "lang=eng")); assumption.
Qed.

Lemma fresh_download_is_stored_witness :
  exists w',
    save_talk_html plain_env talk_url (py "conference_talks") empty_world
      = (Returned (Some talk_fixture_path, true), w') /\
    fs w' !! talk_fixture_path = Some (TextFile (py "<html>talk</html>")) /\
    sent w' = [talk_url] /\
    exists_in w' (py "conference_talks") = true.
Proof.
  apply (proj2 (fresh_download_is_stored plain_env empty_world talk_url
                  (py "conference_talks") (py "<html>talk</html>"))
           (py "conference_talks/2023-10-11nelson.html", talk_fixture_path)).
  - vm_compute. reflexivity.
  - vm_compute. reflexivity.
  - vm_compute. reflexivity.
  - split; [exists 200%Z; split; [reflexivity | lia]|].
    split; [right; split; [discriminate | reflexivity]|].
    split; reflexivity.
Defined.

Lemma save_conference_list_html_underivable (E : env) (w : world) url folder :
  list_cache_path url folder = None ->
  save_conference_list_html E url folder w = (Returned (None, false), w).
Proof.
  unfold list_cache_path. intros Hnone.
  destruct (conference_list_filename url) as [fn|] eqn:Hfn; [discriminate|].
  run_world. rewrite Hfn. reflexivity.
Qed.

Lemma save_talk_html_underivable (E : env) (w : world) url folder :
  talk_cache_paths url folder = None ->
  save_talk_html E url folder w = (Returned (None, false), w).
Proof.
  unfold talk_cache_paths. intros Hnone.
  destruct (talk_base_filename url) as [base|] eqn:Hbase; [discriminate|].
  run_world. rewrite Hbase. reflexivity.
Qed.

Lemma exists_in_lookup (w : world) (p : str) (n : node) :
  fs w !! p = Some n -> exists_in w p = true.
Proof.
  intros Hp. unfold exists_in. apply bool_decide_eq_true. eexists. exact Hp.
Qed.

Lemma exists_in_false (w : world) (p : str) :
  exists_in w p = false -> fs w !! p = None.
Proof.
  unfold exists_in. intros Hp. apply bool_decide_eq_false in Hp.
  destruct (fs w !! p); [exfalso; apply Hp; eexists; reflexivity | reflexivity].
Qed.

(** What a returned path tells: it is the cache path of the URL, and the
    file is there when the function returns. *)
Lemma save_conference_list_html_path (E : env) (w w1 : world) url folder p d :
  save_conference_list_html E url folder w = (Returned (Some p, d), w1) ->
  list_cache_path url folder = Some p /\ exists_in w1 p = true.
Proof.
  intros Hrun.
  destruct (list_cache_path url folder) as [fp|] eqn:Hpath.
  - destruct (exists_in w fp) eqn:Hcached.
    + rewrite (save_conference_list_html_cached _ _ _ _ _ Hpath Hcached) in Hrun.
      injection Hrun as <- <- <-. split; [reflexivity | exact Hcached].
    + rewrite (save_conference_list_html_miss _ _ _ _ _ Hpath Hcached) in Hrun.
      destruct (fetch_and_store_outcome E w url folder fp)
        as (res & w' & Hres & _ & _ & [-> | [-> (status & text & _ & Hfile)]]);
        rewrite Hres in Hrun; [discriminate|].
      injection Hrun as <- <- <-. split; [reflexivity|].
      eapply exists_in_lookup. exact Hfile.
  - rewrite (save_conference_list_html_underivable _ _ _ _ Hpath) in Hrun.
    discriminate.
Qed.

Lemma save_talk_html_path (E : env) (w w1 : world) url folder p d :
  save_talk_html E url folder w = (Returned (Some p, d), w1) ->
  exists plain lang,
    talk_cache_paths url folder = Some (plain, lang) /\
    p = (if exists_in w1 lang then lang else plain) /\
    exists_in w1 p = true.
Proof.
  intros Hrun.
  destruct (talk_cache_paths url folder) as [[plain lang]|] eqn:Hpaths.
  - exists plain, lang. split; [reflexivity|].
    destruct (exists_in w plain) eqn:Hplain, (exists_in w lang) eqn:Hlang.
    1-3: rewrite (save_talk_html_cached E w _ _ _ _ Hpaths) in Hrun
      by (rewrite ?Hplain, ?Hlang; auto);
      injection Hrun as <- <- <-; rewrite Hlang; split; [reflexivity|];
      assumption.
    rewrite (save_talk_html_miss _ _ _ _ _ Hpaths Hplain Hlang) in Hrun.
    destruct (fetch_and_store_outcome E w url folder
                (talk_download_path url (plain, lang)))
      as (res & w' & Hres & _ & Hframe & [-> | [-> (status & text & _ & Hfile)]]);
      rewrite Hres in Hrun; [discriminate|].
    injection Hrun as <- <- <-.
    destruct (talk_cache_paths_distinct _ _ _ _ Hpaths) as (H1 & H2 & H3).
    unfold talk_download_path in *. cbn [fst snd] in *.
    destruct (contains url (py "lang=eng")).
    + rewrite (exists_in_lookup _ _ _ Hfile). split; reflexivity.
    + assert (Hno : exists_in w' lang = false).
      { unfold exists_in. apply bool_decide_eq_false.
        destruct (longer_not_above _ _ H2) as [Hq1 Hq2].
        rewrite (Hframe lang Hq1 Hq2)
          by (intros Heq; apply H3; symmetry; exact Heq).
        rewrite (exists_in_false _ _ Hlang). intros [x Hx]. discriminate. }
      rewrite Hno. split; [reflexivity|]. eapply exists_in_lookup. exact Hfile.
  - rewrite (save_talk_html_underivable _ _ _ _ Hpaths) in Hrun. discriminate.
Qed.

(** X2.  Once a fetch has returned a path, downloaded or cached, fetching the
    same URL again returns the same path as cached and leaves the world as
    it is: no second request is sent and nothing is written. *)
Theorem fetch_again_is_cached (E : env) (w w1 : world) (url folder p : str)
    (downloaded : bool) :
  (save_conference_list_html E url folder w = (Returned (Some p, downloaded), w1) ->
   save_conference_list_html E url folder w1 = (Returned (Some p, false), w1)) /\
  (save_talk_html E url folder w = (Returned (Some p, downloaded), w1) ->
   save_talk_html E url folder w1 = (Returned (Some p, false), w1)).
Proof.
  split; intros Hrun.
  - apply save_conference_list_html_path in Hrun as [Hpath Hthere].
    apply save_conference_list_html_cached; assumption.
  - apply save_talk_html_path in Hrun as (plain & lang & Hpaths & Hp & Hthere).
    rewrite (save_talk_html_cached E w1 _ _ _ _ Hpaths).
    + rewrite <- Hp. reflexivity.
    + rewrite Hp in Hthere. destruct (exists_in w1 lang); [right | left]; auto.
Qed.

Lemma fetch_again_is_cached_witness :
  let w1 := snd (save_talk_html plain_env talk_url (py "conference_talks")
                   empty_world) in
  save_talk_html plain_env talk_url (py "conference_talks") w1
    = (Returned (Some talk_fixture_path, false), w1).
Proof.
  intros w1.
  apply (proj2 (fetch_again_is_cached plain_env empty_world w1 talk_url
                  (py "conference_talks") talk_fixture_path true)).
  vm_compute. reflexivity.
Defined.

(** X3.  A URL with too few segments to name a cache file (no [/] for a
    conference list, fewer than two for a talk) yields the empty result:
    the [IndexError] is swallowed, no request is sent and nothing is
    written. *)
Theorem fetch_of_short_url (E : env) (w : world) (url folder : str) :
  (length (split 47 url) < 2 ->
   save_conference_list_html E url folder w = (Returned (None, false), w)) /\
  (length (split 47 url) < 3 ->
   save_talk_html E url folder w = (Returned (None, false), w)).
Proof.
  split; intros Hshort.
  - apply save_conference_list_html_underivable.
    unfold list_cache_path, conference_list_filename.
    rewrite (index_neg_None _ 2 Hshort). reflexivity.
  - apply save_talk_html_underivable.
    unfold talk_cache_paths, talk_base_filename.
    rewrite (index_neg_None _ 3 Hshort). reflexivity.
Qed.

Lemma fetch_of_short_url_witness :
  save_talk_html failing_env (py "2023/11nelson") (py "conference_talks")
    empty_world = (Returned (None, false), empty_world).
Proof.
  apply (proj2 (fetch_of_short_url failing_env empty_world (py "2023/11nelson")
                  (py "conference_talks"))).
  vm_compute. lia.
Defined.

(** A download deletes nothing. *)
Lemma fetch_and_store_keeps (E : env) (w : world) url folder filepath q :
  exists_in w q = true ->
  exists_in (snd (try_except (fetch_and_store E url folder filepath)
                    on_exception w)) q = true.
Proof.
  intros Hq. unfold fetch_and_store, on_exception. run_world.
  destruct (remote E (sent w) url) as [|status text];
    [still_there Hq ltac:(exact Hq)|].
  destruct ((400 <=? status)%Z && (status <? 600)%Z);
    [still_there Hq ltac:(exact Hq)|].
  destruct (negb (exists_in _ folder)).
  - destruct (os_fault E (OpMakedirs folder) || _ || _);
      [still_there Hq ltac:(exact Hq)|].
    destruct (os_fault E (OpOpen filepath) || _);
      [still_there Hq ltac:(apply lookup_mkdirs_keeps; exact Hq)|].
    destruct (os_fault E (OpWrite filepath));
      still_there Hq ltac:(apply lookup_mkdirs_keeps; exact Hq).
  - destruct (os_fault E (OpOpen filepath) || _);
      [still_there Hq ltac:(exact Hq)|].
    destruct (os_fault E (OpWrite filepath)); still_there Hq ltac:(exact Hq).
Qed.


(** A download is reported only after a response whose status is no
    error. *)
Lemma fetch_and_store_status (E : env) (w w' : world) url folder filepath p :
  try_except (fetch_and_store E url folder filepath) on_exception w
    = (Returned (Some p, true), w') ->
  exists status text,
    remote E (sent w) url = HttpResponse status text /\
    ~ (400 <= status < 600)%Z.
Proof.
  unfold fetch_and_store, on_exception. run_world.
  destruct (remote E (sent w) url) as [|status text]; [discriminate|].
  destruct ((400 <=? status)%Z && (status <? 600)%Z) eqn:Hcheck; [discriminate|].
  intros _. exists status, text. split; [reflexivity|].
  apply andb_false_iff in Hcheck as [H | H];
    [apply Z.leb_gt in H | apply Z.ltb_ge in H]; lia.
Qed.


(** X5.  What the result of a fetch tells the caller.  A download is never
    reported without a path; when one is reported, the cache had no file
    for the URL, one request was sent, its answer had a status that is no
    error, and the returned file holds its body.  A path that is not
    reported as a download was in the cache before, and the world is as it
    was. *)
Theorem fetch_result_tells (E : env) (w w' : world) (url folder : str)
    (filepath : option str) (downloaded : bool) :
  (save_conference_list_html E url folder w = (Returned (filepath, downloaded), w') ->
   match filepath, downloaded with
   | Some p, true =>
       list_cache_path url folder = Some p /\ exists_in w p = false /\
       sent w' = sent w ++ [url] /\
       exists status text,
         remote E (sent w) url = HttpResponse status text /\
         ~ (400 <= status < 600)%Z /\
         fs w' !! p = Some (TextFile text)
   | Some p, false =>
       list_cache_path url folder = Some p /\ exists_in w p = true /\ w' = w
   | None, true => False
   | None, false => True
   end) /\
  (save_talk_html E url folder w = (Returned (filepath, downloaded), w') ->
   match filepath, downloaded with
   | Some p, true =>
       exists paths,
         talk_cache_paths url folder = Some paths /\
         p = talk_download_path url paths /\
         exists_in w (fst paths) = false /\ exists_in w (snd paths) = false /\
         sent w' = sent w ++ [url] /\
         exists status text,
           remote E (sent w) url = HttpResponse status text /\
           ~ (400 <= status < 600)%Z /\
           fs w' !! p = Some (TextFile text)
   | Some p, false =>
       exists paths,
         talk_cache_paths url folder = Some paths /\
         (p = fst paths \/ p = snd paths) /\
         exists_in w p = true /\ w' = w
   | None, true => False
   | None, false => True
   end).
Proof.
  split; intros Hrun.
  - destruct (list_cache_path url folder) as [fp|] eqn:Hpath.
    + destruct (exists_in w fp) eqn:Hcached.
      * rewrite (save_conference_list_html_cached _ _ _ _ _ Hpath Hcached) in Hrun.
        injection Hrun as <- <- <-. auto.
      * rewrite (save_conference_list_html_miss _ _ _ _ _ Hpath Hcached) in Hrun.
        destruct (fetch_and_store_outcome E w url folder fp)
          as (res & w1 & Hres & Hsent & _ & [-> | [-> (st & text & Hrem & Hfile)]]);
          rewrite Hres in Hrun; injection Hrun as <- <- <-; [exact I|].
        destruct (fetch_and_store_status _ _ _ _ _ _ _ Hres)
          as (status & text' & Hrem' & Hstatus).
        repeat split; auto.
        exists status, text'. repeat split; auto; try apply Hstatus.
        rewrite Hrem in Hrem'. injection Hrem' as <- <-. exact Hfile.
    + rewrite (save_conference_list_html_underivable _ _ _ _ Hpath) in Hrun.
      injection Hrun as <- <- <-. exact I.
  - destruct (talk_cache_paths url folder) as [[plain lang]|] eqn:Hpaths.
    + destruct (exists_in w plain || exists_in w lang) eqn:Hcached.
      * rewrite (save_talk_html_cached E w _ _ _ _ Hpaths) in Hrun
          by (apply orb_true_iff; exact Hcached).
        injection Hrun as <- <- <-. exists (plain, lang). cbn [fst snd].
        split; [reflexivity|].
        destruct (exists_in w lang) eqn:Hlang; auto.
        rewrite orb_false_r in Hcached. auto.
      * apply orb_false_iff in Hcached as [Hplain Hlang].
        rewrite (save_talk_html_miss _ _ _ _ _ Hpaths Hplain Hlang) in Hrun.
        destruct (fetch_and_store_outcome E w url folder
                    (talk_download_path url (plain, lang)))
          as (res & w1 & Hres & Hsent & _ & [-> | [-> (st & text & Hrem & Hfile)]]);
          rewrite Hres in Hrun; injection Hrun as <- <- <-; [exact I|].
        destruct (fetch_and_store_status _ _ _ _ _ _ _ Hres)
          as (status & text' & Hrem' & Hstatus).
        exists (plain, lang). cbn [fst snd]. repeat split; auto.
        exists status, text'. repeat split; auto; try apply Hstatus.
        rewrite Hrem in Hrem'. injection Hrem' as <- <-. exact Hfile.
    + rewrite (save_talk_html_underivable _ _ _ _ Hpaths) in Hrun.
      injection Hrun as <- <- <-. exact I.
Qed.

Lemma fetch_result_tells_witness :
  list_cache_path list_url (py "conference_links") = Some list_fixture_path /\
  exists_in cached_world list_fixture_path = true /\
  cached_world = cached_world.
Proof.
  apply (proj1 (fetch_result_tells plain_env cached_world cached_world list_url
                  (py "conference_links") (Some list_fixture_path) false)).
  vm_compute. reflexivity.
Defined.

Lemma fetch_and_store_write_fails (E : env) (w : world) url folder filepath :
  body_cannot_be_written E w url folder filepath ->
  exists_in w filepath = false ->
  length folder < length filepath ->
  exists w',
    try_except (fetch_and_store E url folder filepath) on_exception w
      = (Returned (None, false), w') /\
    exists_in w' filepath = true.
Proof.
  intros ((status & text & Hremote & Hstatus) & Hfolder & Hopen & Hwrite) Hmiss Hlen.
  unfold fetch_and_store, on_exception. run_world. rewrite Hremote.
  cbv beta iota.
  destruct ((400 <=? status)%Z && (status <? 600)%Z) eqn:Hcheck;
    [apply andb_true_iff in Hcheck as [H1 H2]; lia|].
  unfold exists_in, is_directory in *. cbn [fs sent] in *.
  assert (Hfile : fs w !! filepath = None).
  { apply bool_decide_eq_false in Hmiss.
    destruct (fs w !! filepath); [exfalso; apply Hmiss; eexists; reflexivity|].
    reflexivity. }
  destruct (bool_decide (is_Some (fs w !! folder))) eqn:Hhave;
    cbn [negb fs sent].
  - rewrite Hopen, Hwrite, Hfile. cbn [orb fs sent].
    eexists. split; [reflexivity|]. cbn [fs sent].
    apply bool_decide_eq_true. rewrite lookup_insert_eq. eexists. reflexivity.
  - destruct Hfolder as [Hyes | [Hname Hmk]]; [discriminate|].
    rewrite Hmk, (bool_decide_eq_false_2 _ Hname). cbn [orb fs sent].
    rewrite Hhave. cbn [fs sent].
    rewrite Hopen, Hwrite.
    rewrite (lookup_mkdirs_out _ _ filepath (made_dirs_not_longer _ _ _ Hlen)).
    rewrite Hfile.
    cbn [orb fs sent].
    eexists. split; [reflexivity|]. cbn [fs sent].
    apply bool_decide_eq_true. rewrite lookup_insert_eq. eexists. reflexivity.
Qed.

(** X6.  When the cache file can be opened but writing the body into it
    fails, the call yields the empty result, yet the file it opened stays
    on disk, and the next call for the URL returns that file as cached,
    without asking the site again. *)
Theorem failed_write_is_served_as_cached (E : env) (w : world)
    (url folder : str) :
  (forall filepath,
     list_cache_path url folder = Some filepath ->
     exists_in w filepath = false ->
     body_cannot_be_written E w url folder filepath ->
     exists w1,
       save_conference_list_html E url folder w = (Returned (None, false), w1) /\
       save_conference_list_html E url folder w1
         = (Returned (Some filepath, false), w1)) /\
  (forall paths,
     talk_cache_paths url folder = Some paths ->
     exists_in w (fst paths) = false ->
     exists_in w (snd paths) = false ->
     body_cannot_be_written E w url folder (talk_download_path url paths) ->
     exists w1,
       save_talk_html E url folder w = (Returned (None, false), w1) /\
       save_talk_html E url folder w1
         = (Returned (Some (talk_download_path url paths), false), w1)).
Proof.
  split.
  - intros filepath Hpath Hmiss Hcut.
    destruct (fetch_and_store_write_fails E w url folder filepath Hcut Hmiss
                (list_cache_path_longer _ _ _ Hpath)) as (w1 & Hrun & Hthere).
    exists w1. rewrite (save_conference_list_html_miss _ _ _ _ _ Hpath Hmiss).
    split; [exact Hrun|]. apply save_conference_list_html_cached; assumption.
  - intros [plain lang] Hpaths Hplain Hlang Hcut. cbn [fst snd] in *.
    destruct (talk_cache_paths_distinct _ _ _ _ Hpaths) as (H1 & H2 & H3).
    assert (Hne : length folder < length (talk_download_path url (plain, lang))).
    { unfold talk_download_path. cbn [fst snd].
      destruct (contains url (py "lang=eng")); assumption. }
    assert (Hmiss : exists_in w (talk_download_path url (plain, lang)) = false).
    { unfold talk_download_path. cbn [fst snd].
      destruct (contains url (py "lang=eng")); assumption. }
    destruct (fetch_and_store_write_fails E w url folder _ Hcut Hmiss Hne)
      as (w1 & Hrun & Hthere).
    destruct (fetch_and_store_outcome E w url folder
                (talk_download_path url (plain, lang)))
      as (res & w' & Hres & _ & Hframe & _).
    rewrite Hrun in Hres. injection Hres as <- <-.
    exists w1. rewrite (save_talk_html_miss _ _ _ _ _ Hpaths Hplain Hlang).
    split; [exact Hrun|].
    unfold talk_download_path in *. cbn [fst snd] in *.
    destruct (contains url (py "lang=eng")).
    + rewrite (save_talk_html_cached E w1 _ _ _ _ Hpaths) by (right; exact Hthere).
      rewrite Hthere. reflexivity.
    + assert (Hno : exists_in w1 lang = false).
      { unfold exists_in. apply bool_decide_eq_false.
        destruct (longer_not_above _ _ H2) as [Hq1 Hq2].
        rewrite (Hframe lang Hq1 Hq2)
          by (intros Heq; apply H3; symmetry; exact Heq).
        rewrite (exists_in_false _ _ Hlang). intros [x Hx]. discriminate. }
      rewrite (save_talk_html_cached E w1 _ _ _ _ Hpaths) by (left; exact Hthere).
      rewrite Hno. reflexivity.
Qed.

Lemma failed_write_is_served_as_cached_witness :
  exists w1,
    save_talk_html full_disk_env talk_url (py "conference_talks")
      empty_folder_world = (Returned (None, false), w1) /\
    save_talk_html full_disk_env talk_url (py "conference_talks") w1
      = (Returned (Some talk_fixture_path, false), w1).
Proof.
  apply (proj2 (failed_write_is_served_as_cached full_disk_env
                  empty_folder_world talk_url (py "conference_talks"))
           (py "conference_talks/2023-10-11nelson.html", talk_fixture_path)).
  - vm_compute. reflexivity.
  - vm_compute. reflexivity.
  - vm_compute. reflexivity.
  - split; [exists 200%Z, (py "<html>talk</html>"); split; [reflexivity | lia]|].
    split; [left; vm_compute; reflexivity|].
    split; reflexivity.
Defined.

(** X7.  A talk page that has just been downloaded is counted from the body
    of the response: fetching and then counting gives the counts of the
    text the site sent. *)
Theorem downloaded_talk_is_counted (E : env) (w : world)
    (url folder text : str) (paths : str * str) :
  talk_cache_paths url folder = Some paths ->
  exists_in w (fst paths) = false ->
  exists_in w (snd paths) = false ->
  can_download E w url folder (talk_download_path url paths) text ->
  exists p w',
    save_talk_html E url folder w = (Returned (Some p, true), w') /\
    count_scripture_references_from_file E (Some p) w'
      = (Returned (count_in_text E (lower (unicode_lower E) (bs4_str E text))),
         w').
Proof.
  intros Hpaths Hplain Hlang Hcan. destruct paths as [plain lang].
  cbn [fst snd] in *.
  destruct (talk_cache_paths_distinct _ _ _ _ Hpaths) as (H1 & H2 & _).
  assert (Hne : length folder < length (talk_download_path url (plain, lang))).
  { unfold talk_download_path. cbn [fst snd].
    destruct (contains url (py "lang=eng")); assumption. }
  assert (Hmiss : exists_in w (talk_download_path url (plain, lang)) = false).
  { unfold talk_download_path. cbn [fst snd].
    destruct (contains url (py "lang=eng")); assumption. }
  destruct (fetch_and_store_success E w url folder _ text Hcan Hmiss Hne)
    as (w' & Hrun & Hfile & _ & Hfolder).
  exists (talk_download_path url (plain, lang)), w'.
  rewrite (save_talk_html_miss _ _ _ _ _ Hpaths Hplain Hlang).
  split; [exact Hrun|]. apply count_file_readable.
  split; [|split; [exact Hfile | apply Hcan]].
  intros Hnil. rewrite Hnil in Hfile, Hmiss, Hne.
  apply talk_cache_paths_inv in Hpaths as (base & Hbase & -> & ->).
  destruct (talk_base_filename_relative url base (py ".html") Hbase) as [R1 N1].
  destruct (talk_base_filename_relative url base (py "_lang=eng.html") Hbase)
    as [R2 N2].
  pose proof (os_path_join_longer folder _ R1 N1) as L1.
  pose proof (os_path_join_longer folder _ R2 N2) as L2.
  unfold talk_download_path in Hnil. cbn [fst snd] in Hnil.
  destruct (contains url (py "lang=eng")); rewrite Hnil in *; simpl in *; lia.
Qed.

Lemma downloaded_talk_is_counted_witness :
  exists p w',
    save_talk_html plain_env talk_url (py "conference_talks") empty_world
      = (Returned (Some p, true), w') /\
    count_scripture_references_from_file plain_env (Some p) w'
      = (Returned
           (count_in_text plain_env
              (lower (unicode_lower plain_env)
                 (bs4_str plain_env (py "<html>talk</html>")))),
         w').
Proof.
  apply (downloaded_talk_is_counted plain_env empty_world talk_url
           (py "conference_talks") (py "<html>talk</html>")
           (py "conference_talks/2023-10-11nelson.html", talk_fixture_path)).
  - vm_compute. reflexivity.
  - vm_compute. reflexivity.
  - vm_compute. reflexivity.
  - split; [exists 200%Z; split; [reflexivity | lia]|].
    split; [right; split; [discriminate | reflexivity]|].
    split; reflexivity.
Defined.

(* ===================================================================== *)
(** * The names of the cache files *)
(* ===================================================================== *)

Lemma split_two (sep : N) (a b : str) :
  ~ In sep a -> ~ In sep b -> split sep (a ++ sep :: b) = [a; b].
Proof.
  intros Ha Hb. rewrite split_app_sep, (split_single _ _ Ha), (split_single _ _ Hb).
  reflexivity.
Qed.

Lemma not_in_app (c : N) (a b : str) : ~ In c a -> ~ In c b -> ~ In c (a ++ b).
Proof.
  intros Ha Hb Hin. apply in_app_or in Hin as [H|H]; [apply Ha | apply Hb]; exact H.
Qed.

Lemma not_in_literal (c : N) (s : str) :
  forallb (fun x => negb (x =? c)%N) s = true -> ~ In c s.
Proof.
  intros Hall Hin. rewrite forallb_forall in Hall. specialize (Hall c Hin).
  rewrite N.eqb_refl in Hall. discriminate.
Qed.

Lemma firstn_2_month (month : str) :
  firstn 2 (month ++ py ".html") = month <-> length month = 2.
Proof.
  destruct month as [|a [|b [|c m]]]; simpl; split; intros H;
    try discriminate; try reflexivity; try lia.
Qed.

(** X10.  The file a conference list is cached in is named after the year and
    the month of its URL, and the parser reads the year back from that
    name; the month it reads back is the first two characters after the
    dash, which is the month exactly when the month has two characters. *)
Theorem conference_file_round_trip (year month : str) :
  ~ In 47%N year -> ~ In 45%N year ->
  ~ In 47%N month -> ~ In 63%N month -> ~ In 45%N month ->
  let filename := year ++ py "-" ++ month ++ py ".html" in
  conference_list_filename (conference_url year month) = Some filename /\
  endswith filename (py ".html") = true /\
  year_from_filename filename = Some year /\
  month_from_filename filename = Some (firstn 2 (month ++ py ".html")) /\
  (month_from_filename filename = Some month <-> length month = 2).
Proof.
  intros Hy47 Hy45 Hm47 Hm63 Hm45 filename.
  assert (Hsplit : split 45 filename = [year; month ++ py ".html"]).
  { unfold filename. change (py "-" ++ month ++ py ".html")
      with (45%N :: (month ++ py ".html")).
    apply split_two; [exact Hy45|].
    apply not_in_app; [exact Hm45 | apply not_in_literal; reflexivity]. }
  split; [|split; [|split; [|split]]].
  - unfold conference_list_filename, conference_url.
    change (BASE_URL ++ year ++ py "/" ++ month ++ py "?lang=eng")
      with (py "https://www.churchofjesuschrist.org/study/general-conference"
            ++ 47%N :: (year ++ 47%N :: (month ++ py "?lang=eng"))).
    assert (Hrest : ~ In 47%N (month ++ py "?lang=eng"))
      by (apply not_in_app; [assumption | apply not_in_literal; reflexivity]).
    rewrite split_app_sep, (split_two 47 year (month ++ py "?lang=eng") Hy47 Hrest).
    rewrite !index_neg_app by (simpl; lia).
    change (index_neg [year; month ++ py "?lang=eng"] 2) with (Some year).
    change (index_neg [year; month ++ py "?lang=eng"] 1)
      with (Some (month ++ py "?lang=eng")).
    cbn [mbind option_bind].
    change (month ++ py "?lang=eng") with (month ++ 63%N :: py "lang=eng").
    rewrite (split_two 63 month (py "lang=eng") Hm63)
      by (apply not_in_literal; reflexivity).
    reflexivity.
  - unfold filename. rewrite !app_assoc. apply endswith_app.
  - unfold year_from_filename. rewrite Hsplit. reflexivity.
  - unfold month_from_filename. rewrite Hsplit. reflexivity.
  - unfold month_from_filename. rewrite Hsplit. cbn [nth_error mbind option_bind].
    rewrite <- firstn_2_month. split; [intros [= H]; exact H | intros ->; reflexivity].
Qed.

Lemma conference_file_round_trip_witness :
  let filename := py "2023-10.html" in
  conference_list_filename (conference_url (py "2023") (py "10")) = Some filename /\
  endswith filename (py ".html") = true /\
  year_from_filename filename = Some (py "2023") /\
  month_from_filename filename = Some (py "10") /\
  (month_from_filename filename = Some (py "10") <-> length (py "10") = 2).
Proof.
  apply (conference_file_round_trip (py "2023") (py "10"));
    apply not_in_literal; reflexivity.
Defined.

Lemma index_neg_cons {A} (x : A) (l : list A) (k : nat) :
  k <= length l -> index_neg (x :: l) k = index_neg l k.
Proof. intros Hk. apply (index_neg_app [x] l k Hk). Qed.

Lemma index_neg_head {A} (x y : A) (l : list A) (k : nat) :
  k <= length l -> index_neg (x :: l) k = index_neg (y :: l) k.
Proof. intros Hk. rewrite !index_neg_cons by exact Hk. reflexivity. Qed.

(** Text put before a string changes only the first part of its split. *)
Lemma split_app_tail (sep : N) (a b : str) :
  exists first, split sep (a ++ b) = first ++ tl (split sep b) /\ first <> [].
Proof.
  induction a as [|c a (first & IH & Hne)]; simpl.
  - exists [hd [] (split sep b)]. split; [|discriminate].
    pose proof (split_nonempty sep b). destruct (split sep b); [congruence | reflexivity].
  - destruct (c =? sep)%N.
    + exists ([] :: first). rewrite IH. split; [reflexivity | discriminate].
    + rewrite IH. destruct first as [|h t]; [congruence|].
      exists ((c :: h) :: t). split; [reflexivity | discriminate].
Qed.

Lemma index_neg_split_app (sep : N) (a b : str) (k : nat) :
  k < length (split sep b) ->
  index_neg (split sep (a ++ b)) k = index_neg (split sep b) k.
Proof.
  intros Hk. destruct (split_app_tail sep a b) as (first & -> & _).
  destruct (split sep b) as [|h t]; simpl in *; [lia|].
  rewrite index_neg_app, index_neg_cons by lia. reflexivity.
Qed.

(** Text that lacks the first character of [sub] adds no occurrence of
    [sub] when put in front. *)
Lemma contains_app_left (a s sub : str) (c : N) :
  ~ In c a -> contains (a ++ s) (c :: sub) = contains s (c :: sub).
Proof.
  induction a as [|x a IH]; intros Hno; [reflexivity|].
  simpl app. cbn [contains startswith].
  destruct (N.eqb_spec x c) as [->|Hne]; [exfalso; apply Hno; left; reflexivity|].
  cbn [andb orb]. apply IH. intros Hin. apply Hno. right. exact Hin.
Qed.

(** X11.  The [filename] cell of a row names the file the talk of that row is
    downloaded to: for a link with at least three [/], the cell computed
    from the link is the file name [save_talk_html] writes for the full
    URL of the link.  The full URL always starts with [http], so it is
    fetched as it is. *)
Theorem filename_names_the_download (suffix folder : str) :
  4 <= length (split 47 suffix) ->
  main_talk_url (full_url suffix) = full_url suffix /\
  exists name paths,
    filename_of_suffix suffix = Some name /\
    talk_cache_paths (full_url suffix) folder = Some paths /\
    talk_download_path (full_url suffix) paths = os_path_join folder name.
Proof.
  intros Hparts. split; [reflexivity|].
  unfold filename_of_suffix, talk_cache_paths, talk_base_filename,
    talk_download_path, full_url.
  rewrite !index_neg_split_app by lia.
  change (py "lang=eng") with (108%N :: py "ang=eng").
  rewrite contains_app_left by (apply not_in_literal; reflexivity).
  destruct (index_neg (split 47 suffix) 3) as [a|] eqn:Ha;
    [|unfold index_neg in Ha;
      destruct (Nat.leb_spec 3 (length (split 47 suffix))) as [H3|]; [|lia];
      cbn [Nat.leb andb] in Ha; apply nth_error_None in Ha; lia].
  destruct (index_neg (split 47 suffix) 2) as [b|] eqn:Hb;
    [|unfold index_neg in Hb;
      destruct (Nat.leb_spec 2 (length (split 47 suffix))) as [H2|]; [|lia];
      cbn [Nat.leb andb] in Hb; apply nth_error_None in Hb; lia].
  destruct (index_neg (split 47 suffix) 1) as [c|] eqn:Hc;
    [|unfold index_neg in Hc;
      destruct (Nat.leb_spec 1 (length (split 47 suffix))) as [H1|]; [|lia];
      cbn [Nat.leb andb] in Hc; apply nth_error_None in Hc; lia].
  cbn [mbind option_bind].
  pose proof (split_nonempty 63 c) as Hne.
  destruct (split 63 c) as [|d rest] eqn:Hd; [congruence|].
  cbn [nth_error mbind option_bind fst snd].
  eexists. eexists. split; [reflexivity|]. split; [reflexivity|].
  cbn [fst snd].
  destruct (contains suffix (108%N :: py "ang=eng"));
    rewrite <- !app_assoc; reflexivity.
Qed.

Lemma filename_names_the_download_witness :
  main_talk_url (full_url (py "/study/general-conference/2023/10/11nelson?lang=eng"))
    = talk_url /\
  exists name paths,
    filename_of_suffix (py "/study/general-conference/2023/10/11nelson?lang=eng")
      = Some name /\
    talk_cache_paths talk_url (py "conference_talks") = Some paths /\
    talk_download_path talk_url paths = os_path_join (py "conference_talks") name.
Proof.
  apply (filename_names_the_download
           (py "/study/general-conference/2023/10/11nelson?lang=eng")
           (py "conference_talks")).
  vm_compute. lia.
Defined.

(* ===================================================================== *)
(** * More about the citation counts *)
(* ===================================================================== *)

Lemma startswith_length (s pre : str) :
  startswith s pre = true -> length pre <= length s.
Proof.
  intros H. apply startswith_iff in H as [rest ->]. rewrite length_app. lia.
Qed.

Lemma count_from_fits (sub : str) (skip : nat) (s : str) :
  (count_from sub skip s * Z.of_nat (length sub)
   <= Z.of_nat (length s - skip))%Z.
Proof.
  revert skip. induction s as [|c s IH]; intros skip; [simpl; lia|].
  cbn [count_from]. destruct skip as [|k].
  - destruct (startswith (c :: s) sub) eqn:Hm.
    + apply startswith_length in Hm. simpl in Hm.
      specialize (IH (length sub - 1)). simpl length. nia.
    + specialize (IH 0).
      pose proof (count_from_nonneg sub 0 s). simpl length. nia.
  - specialize (IH k). simpl length. simpl Nat.sub. exact IH.
Qed.

Lemma count_from_positive (sub : str) (skip : nat) (s : str) :
  (0 < count_from sub skip s)%Z -> contains s sub = true.
Proof.
  revert skip. induction s as [|c s IH]; intros skip; cbn [count_from]; [lia|].
  cbn [contains]. destruct skip as [|k].
  - destruct (startswith (c :: s) sub); [reflexivity|].
    intros H. rewrite (IH 0 H). apply orb_true_r.
  - intros H. rewrite (IH k H). apply orb_true_r.
Qed.

Lemma contains_count_from (sub s : str) :
  sub <> [] -> contains s sub = true -> (0 < count_from sub 0 s)%Z.
Proof.
  intros Hne. induction s as [|c s IH]; cbn [contains count_from].
  - destruct sub; [congruence | discriminate].
  - destruct (startswith (c :: s) sub).
    + intros _. pose proof (count_from_nonneg sub (length sub - 1) s). lia.
    + cbn [orb]. exact IH.
Qed.

Lemma count_zero_iff (s sub : str) :
  count s sub = 0%Z <-> contains s sub = false.
Proof.
  destruct sub as [|x sub].
  - unfold count. destruct s; simpl; split; intros H; try discriminate; lia.
  - unfold count. split.
    + intros Hz. destruct (contains s (x :: sub)) eqn:Hc; [|reflexivity].
      apply contains_count_from in Hc; [lia | discriminate].
    + intros Hc. pose proof (count_from_nonneg (x :: sub) 0 s).
      destruct (Z.eq_dec (count_from (x :: sub) 0 s) 0%Z) as [|Hne]; [assumption|].
      assert (Hpos : (0 < count_from (x :: sub) 0 s)%Z) by lia.
      apply count_from_positive in Hpos. congruence.
Qed.

(** X13.  The count of a book is zero exactly when its marker occurs nowhere
    in the text, and the counted occurrences fit into the text side by
    side: count times the length of the marker is at most the length of
    the text. *)
Theorem citation_count_zero_and_bound (E : env) (text code marker : str) :
  In (code, marker) search_strings_map ->
  exists n,
    dict_get (count_in_text E text) code = Some n /\
    (n = 0%Z <-> contains text marker = false) /\
    (n * Z.of_nat (length marker) <= Z.of_nat (length text))%Z.
Proof.
  intros Hin. exists (count text marker).
  split; [apply count_in_text_value; exact Hin|].
  split; [apply count_zero_iff|].
  pose proof (search_strings_nonempty _ _ Hin) as Hne.
  unfold count. destruct marker as [|x marker]; [congruence|].
  pose proof (count_from_fits (x :: marker) 0 text) as Hfit.
  rewrite Nat.sub_0_r in Hfit. exact Hfit.
Qed.

Lemma citation_count_zero_and_bound_witness :
  exists n,
    dict_get (count_in_text plain_env talk_fixture) (py "nt") = Some n /\
    (n = 0%Z <-> contains talk_fixture (py "scriptures/nt/") = false) /\
    (n * Z.of_nat (length (py "scriptures/nt/"))
     <= Z.of_nat (length talk_fixture))%Z.
Proof.
  apply (citation_count_zero_and_bound plain_env talk_fixture (py "nt")
           (py "scriptures/nt/")).
  vm_compute. tauto.
Defined.

(** X14.  No place in a text is counted for two books: where the marker of
    one book occurs, the marker of no other book occurs. *)
Theorem markers_exclude_each_other (s : str) (p : nat)
    (code1 marker1 code2 marker2 : str) :
  In (code1, marker1) search_strings_map ->
  In (code2, marker2) search_strings_map ->
  occurs_at s marker1 p -> occurs_at s marker2 p ->
  code1 = code2.
Proof.
  unfold occurs_at. intros H1 H2 Ho1 Ho2.
  apply startswith_iff in Ho1 as [r1 E1]. apply startswith_iff in Ho2 as [r2 E2].
  rewrite E1 in E2. clear E1.
  unfold search_strings_map in H1, H2. simpl in H1, H2.
  destruct H1 as [H1|[H1|[H1|[H1|[H1|[]]]]]]; injection H1 as <- <-;
  destruct H2 as [H2|[H2|[H2|[H2|[H2|[]]]]]]; injection H2 as <- <-;
    try reflexivity; simpl in E2; discriminate.
Qed.

Lemma markers_exclude_each_other_witness :
  py "bom" = py "bom".
Proof.
  apply (markers_exclude_each_other talk_fixture 22 (py "bom")
           (py "scriptures/bofm/") (py "bom") (py "scriptures/bofm/")).
  - vm_compute. tauto.
  - vm_compute. tauto.
  - vm_compute. reflexivity.
  - vm_compute. reflexivity.
Defined.

(* ===================================================================== *)
(** * More about de-duplication *)
(* ===================================================================== *)

Section SortedInput.
Context {A : Type} (key : A -> str).

Lemma insert_desc_last (r : A) (l : list A) :
  List.Forall (fun x => desc key x r) l -> insert_desc key r l = l ++ [r].
Proof.
  induction l as [|x l IH]; intros Hall; [reflexivity|].
  inversion Hall as [|? ? Hx Hl]; subst. simpl.
  destruct (str_ltb (key x) (key r)) eqn:Hlt.
  - apply str_ltb_not_leb in Hlt. unfold desc in Hx. congruence.
  - rewrite (IH Hl). reflexivity.
Qed.

Lemma StronglySorted_snoc (R : A -> A -> Prop) (l : list A) (x : A) :
  StronglySorted R (l ++ [x]) ->
  StronglySorted R l /\ List.Forall (fun y => R y x) l.
Proof.
  induction l as [|y l IH]; simpl; intros Hs.
  - split; constructor.
  - inversion Hs as [|? ? Hs' Hall]; subst. destruct (IH Hs') as [Hl Hx].
    rewrite List.Forall_forall in Hall. split.
    + constructor; [exact Hl|]. rewrite List.Forall_forall. intros z Hz.
      apply Hall. apply in_or_app. left. exact Hz.
    + constructor; [|exact Hx]. apply Hall. apply in_or_app. right. left.
      reflexivity.
Qed.

(** Sorting a table that is in descending order already changes
    nothing. *)
Lemma sort_values_desc_sorted_id (rows : list A) :
  StronglySorted (desc key) rows -> sort_values_desc key rows = rows.
Proof.
  induction rows as [|x rows IH] using rev_ind; intros Hs; [reflexivity|].
  apply StronglySorted_snoc in Hs as [Hs Hall].
  unfold sort_values_desc in *. rewrite rev_app_distr. simpl.
  rewrite (IH Hs). apply insert_desc_last. exact Hall.
Qed.

Lemma drop_duplicates_sorted (R : A -> A -> Prop) (seen : list str) (rows : list A) :
  StronglySorted R rows -> StronglySorted R (drop_duplicates_from key seen rows).
Proof.
  revert seen. induction rows as [|x rows IH]; intros seen Hs; simpl; [constructor|].
  inversion Hs as [|? ? Hs' Hall]; subst.
  destruct (bool_decide (key x ∈ seen)); [apply IH; exact Hs'|].
  constructor; [apply IH; exact Hs'|].
  rewrite List.Forall_forall in *. intros y Hy. apply Hall.
  eapply drop_duplicates_subset. exact Hy.
Qed.

Lemma drop_duplicates_length (seen : list str) (rows : list A) :
  length (drop_duplicates_from key seen rows) <= length rows.
Proof.
  revert seen. induction rows as [|x rows IH]; intros seen; simpl; [lia|].
  destruct (bool_decide (key x ∈ seen)); simpl.
  - specialize (IH seen). lia.
  - specialize (IH (key x :: seen)). lia.
Qed.

(** Rows with distinct keys, none of them seen, are all kept. *)
Lemma drop_duplicates_distinct (seen : list str) (rows : list A) :
  NoDup (List.map key rows) ->
  (forall r, In r rows -> key r ∉ seen) ->
  drop_duplicates_from key seen rows = rows.
Proof.
  revert seen. induction rows as [|x rows IH]; intros seen Hnd Hunseen; [reflexivity|].
  simpl in *. apply NoDup_cons in Hnd as [Hx Hnd].
  rewrite bool_decide_eq_false_2 by (apply Hunseen; left; reflexivity).
  f_equal. apply IH; [exact Hnd|].
  intros r Hr Hmem. apply list_elem_of_In in Hmem as [Hmem|Hmem].
  - apply Hx. rewrite Hmem. apply list_elem_of_In, in_map. exact Hr.
  - apply (Hunseen r); [right; exact Hr | apply list_elem_of_In; exact Hmem].
Qed.
End SortedInput.

Lemma StronglySorted_map {A B} (R : B -> B -> Prop) (f : A -> B) (l : list A) :
  StronglySorted (fun x y => R (f x) (f y)) l -> StronglySorted R (List.map f l).
Proof.
  induction 1 as [|x l Hs IH Hall]; simpl; constructor; [exact IH|].
  rewrite List.Forall_forall in *. intros y Hy.
  apply in_map_iff in Hy as (z & <- & Hz). apply Hall. exact Hz.
Qed.

Lemma kept_rows_tagged (processed_df : list talk_row) :
  List.map tagged (deduplicate processed_df)
  = drop_duplicates_first snd (sorted_table processed_df).
Proof.
  rewrite deduplicate_unfold, List.map_map.
  rewrite <- (map_id (drop_duplicates_first snd (sorted_table processed_df))) at 2.
  apply map_ext_in. intros rb Hrb.
  apply drop_duplicates_subset, sorted_table_rows in Hrb as [_ Heq].
  symmetry. exact Heq.
Qed.

Lemma kept_rows_sorted (processed_df : list talk_row) :
  StronglySorted (desc (fun rb : talk_row * str => filename (fst rb)))
    (drop_duplicates_first snd (sorted_table processed_df)).
Proof.
  apply drop_duplicates_sorted. apply sort_values_desc_sorted.
Qed.

(** X15.  The de-duplicated table is in descending order of [filename] and
    has no more rows than the input; de-duplicating it again changes
    nothing; and a table whose base filenames are distinct already keeps
    all its rows. *)
Theorem deduplicate_sorted_and_idempotent (processed_df : list talk_row) :
  let kept := deduplicate processed_df in
  StronglySorted (desc filename) kept /\
  length kept <= length processed_df /\
  deduplicate kept = kept /\
  (NoDup (List.map base_filename processed_df) -> Permutation processed_df kept).
Proof.
  intros kept. split; [|split; [|split]].
  - unfold kept. rewrite deduplicate_unfold.
    apply (StronglySorted_map (desc filename) fst). apply kept_rows_sorted.
  - unfold kept. rewrite deduplicate_unfold, length_map.
    etransitivity; [apply drop_duplicates_length|].
    unfold sorted_table.
    rewrite <- (Permutation_length (sort_values_desc_perm _ _)), length_map.
    reflexivity.
  - unfold kept. rewrite (deduplicate_unfold (deduplicate processed_df)).
    unfold sorted_table. rewrite kept_rows_tagged.
    rewrite sort_values_desc_sorted_id by apply kept_rows_sorted.
    unfold drop_duplicates_first at 1.
    rewrite drop_duplicates_distinct.
    + symmetry. apply deduplicate_unfold.
    + apply drop_duplicates_nodup.
    + intros r _. apply not_elem_of_nil.
  - intros Hnd. unfold kept. rewrite deduplicate_unfold.
    unfold drop_duplicates_first. rewrite drop_duplicates_distinct.
    + unfold sorted_table. rewrite <- sort_values_desc_perm.
      rewrite List.map_map. simpl. rewrite map_id. reflexivity.
    + unfold sorted_table. rewrite <- sort_values_desc_perm.
      rewrite List.map_map. exact Hnd.
    + intros r _. apply not_elem_of_nil.
Qed.

(* ===================================================================== *)
(** * More about cleaning text *)
(* ===================================================================== *)

Lemma filter_filter_implied (keep p : N -> bool) (s : str) :
  (forall c, keep c = true -> p c = true) ->
  List.filter keep (List.filter p s) = List.filter keep s.
Proof.
  intros Himp. induction s as [|c s IH]; simpl; [reflexivity|].
  destruct (p c) eqn:Hp; simpl.
  - rewrite IH. reflexivity.
  - destruct (keep c) eqn:Hk; [rewrite (Himp _ Hk) in Hp; discriminate|].
    exact IH.
Qed.

Section KeptCharacters.
Variable keep : N -> bool.
Hypothesis keep_no_space : forall c, keep c = true -> isspace c = false.

Lemma filter_collapse_spaces (b : bool) (s : str) :
  List.filter keep (collapse_spaces b s) = List.filter keep s.
Proof.
  assert (Hblank : keep 32%N = false).
  { destruct (keep 32%N) eqn:H; [|reflexivity].
    apply keep_no_space in H. discriminate. }
  revert b. induction s as [|c s IH]; intros b; simpl; [reflexivity|].
  destruct (isspace c) eqn:Hc.
  - assert (Hk : keep c = false).
    { destruct (keep c) eqn:H; [|reflexivity].
      apply keep_no_space in H. congruence. }
    rewrite Hk. destruct b; simpl; [apply IH|]. rewrite Hblank. apply IH.
  - simpl. rewrite IH. reflexivity.
Qed.

Lemma filter_lstrip (s : str) :
  List.filter keep (lstrip s) = List.filter keep s.
Proof.
  induction s as [|c s IH]; simpl; [reflexivity|].
  destruct (isspace c) eqn:Hc; [|reflexivity].
  destruct (keep c) eqn:H; [apply keep_no_space in H; congruence|]. exact IH.
Qed.

Lemma filter_strip (s : str) :
  List.filter keep (strip s) = List.filter keep s.
Proof.
  unfold strip, rstrip.
  rewrite <- (rev_involutive (List.filter keep (rev _))).
  rewrite <- (rev_involutive (List.filter keep s)).
  f_equal.
  assert (Hrev : forall l : str, rev (List.filter keep l) = List.filter keep (rev l)).
  { induction l as [|x l IHl]; simpl; [reflexivity|].
    rewrite List.filter_app. simpl.
    destruct (keep x); simpl; rewrite <- IHl; [reflexivity|].
    rewrite app_nil_r. reflexivity. }
  rewrite Hrev, rev_involutive, filter_lstrip, <- Hrev, filter_lstrip, Hrev.
  reflexivity.
Qed.
End KeptCharacters.

Lemma collapse_spaces_length (b : bool) (s : str) :
  length (collapse_spaces b s) <= length s.
Proof.
  revert b. induction s as [|c s IH]; intros b; simpl; [lia|].
  destruct (isspace c); [|simpl; specialize (IH false); lia].
  destruct b; simpl; specialize (IH true); lia.
Qed.

Lemma strip_length (s : str) : length (strip s) <= length s.
Proof.
  unfold strip.
  destruct (lstrip_suffix s) as [d1 H1].
  destruct (rstrip_prefix (lstrip s)) as [d2 H2].
  rewrite H1 at 2. rewrite H2 at 2. rewrite !length_app. lia.
Qed.

(** X16.  [clean_text] neither changes nor reorders the characters it keeps
    (ASCII, outside its first pattern, not white space), and never makes
    a text longer; it returns a text as it is exactly when the text has
    no character of the first pattern, only ASCII, single blanks as its
    only white space, and none of it at either end. *)
Theorem clean_text_keeps_what_is_clean (text : str) :
  exists cleaned,
    clean_text (Some text) = Some cleaned /\
    List.filter kept_by_clean_text cleaned = List.filter kept_by_clean_text text /\
    length cleaned <= length text /\
    (cleaned = text <-> already_clean text).
Proof.
  set (collapsed := collapse_spaces false
         (re_sub_delete (fun c => negb (is_ascii c))
            (re_sub_delete is_odd_char text))).
  exists (strip collapsed). split; [reflexivity|].
  assert (Hspace : forall c, kept_by_clean_text c = true -> isspace c = false).
  { intros c Hc. unfold kept_by_clean_text in Hc.
    apply andb_true_iff in Hc as [_ Hc]. apply negb_true_iff. exact Hc. }
  split; [|split; [|split]].
  - rewrite (filter_strip _ Hspace). unfold collapsed.
    rewrite (filter_collapse_spaces _ Hspace). unfold re_sub_delete.
    rewrite !filter_filter_implied; [reflexivity| |];
      intros c Hc; unfold kept_by_clean_text in Hc;
      apply andb_true_iff in Hc as [Hc _]; apply andb_true_iff in Hc as [Ha Ho].
    + exact Ho.
    + rewrite Ha. reflexivity.
  - etransitivity; [apply strip_length|]. unfold collapsed.
    etransitivity; [apply collapse_spaces_length|]. unfold re_sub_delete.
    etransitivity; [apply List.filter_length_le|]. apply List.filter_length_le.
  - intros Heq. rewrite <- Heq. unfold already_clean.
    split; [apply strip_sublist, collapse_spaces_Forall; [reflexivity|];
            apply re_sub_delete_Forall, re_sub_delete_clean|].
    split; [|split; [|split]].
    + assert (Hascii : List.Forall (fun c => negb (is_ascii c) = false)
                         (strip collapsed)).
      { apply strip_sublist, collapse_spaces_Forall; [reflexivity|].
        apply re_sub_delete_clean. }
      eapply List.Forall_impl; [|exact Hascii].
      intros c Hc. apply negb_false_iff. exact Hc.
    + apply strip_single_blanks, collapse_spaces_single_blanks.
    + apply rstrip_no_leading_space, lstrip_no_leading_space.
    + apply rstrip_no_trailing_space.
  - intros (Hodd & Hascii & Hblanks & Hlead & Htrail). unfold collapsed.
    rewrite (re_sub_delete_id _ _ Hodd).
    rewrite re_sub_delete_id
      by (eapply List.Forall_impl; [|exact Hascii];
          intros c Hc; rewrite Hc; reflexivity).
    rewrite (collapse_spaces_id _ _ Hblanks). apply strip_id; assumption.
Qed.

(* ===================================================================== *)
(** * More about removing the speaker *)
(* ===================================================================== *)

Lemma remove_speaker_from_title_unfold
    (U : str -> N -> str -> str) (title speaker : str) :
  remove_speaker_from_title U (Some title) (Some speaker) =
  if endswith (letters_and_digits title) (letters_and_digits speaker)
  then Some (strip (slice_until title (- Z.of_nat (length speaker))))
  else Some title.
Proof.
  unfold remove_speaker_from_title. rewrite !normalized_ascii. reflexivity.
Qed.

Lemma slice_until_neg_prefix (s : str) (n : nat) :
  exists back, s = slice_until s (- Z.of_nat n) ++ back.
Proof.
  unfold slice_until. destruct (- Z.of_nat n <? 0)%Z.
  - exists (skipn (Z.to_nat (Z.of_nat (length s) + - Z.of_nat n)) s).
    symmetry. apply firstn_skipn.
  - exists (skipn (Z.to_nat (- Z.of_nat n)) s). symmetry. apply firstn_skipn.
Qed.

(** X17.  Where the cut is right: when the title ends with a byline that
    has the letters and digits of the speaker, in any case, and is as
    long as the speaker string, the byline is cut off, and what is left
    is the title before it, stripped. *)
Theorem remove_speaker_from_title_same_length
    (U : str -> N -> str -> str) (front byline speaker : str) :
  letters_and_digits byline = letters_and_digits speaker ->
  length byline = length speaker ->
  speaker <> [] ->
  remove_speaker_from_title U (Some (front ++ byline)) (Some speaker) =
  Some (strip front).
Proof.
  intros Hsame Hlen Hne. rewrite remove_speaker_from_title_unfold.
  unfold letters_and_digits in *.
  rewrite List.filter_app, List.map_app, Hsame, endswith_app.
  rewrite <- Hlen, slice_until_neg_app; [reflexivity|].
  intros ->. destruct speaker; [congruence | discriminate].
Qed.

Lemma remove_speaker_from_title_same_length_witness :
  remove_speaker_from_title (fun _ c _ => [c])
    (Some (py "Faith in Christ  ELDER JOHN-SMITH")) (Some (py "Elder John Smith"))
  = Some (py "Faith in Christ").
Proof.
  apply (remove_speaker_from_title_same_length (fun _ c _ => [c])
           (py "Faith in Christ  ") (py "ELDER JOHN-SMITH") (py "Elder John Smith"));
    [reflexivity | reflexivity | discriminate].
Defined.

(** X18.  [remove_speaker_from_title] returns a null title, and a title whose
    speaker is null, as it is.  Otherwise it returns the title itself or
    a beginning of the title, stripped: it only ever removes characters
    from the end of the title and white space around the rest, so the
    result is never longer than the title. *)
Theorem remove_speaker_from_title_shortens
    (U : str -> N -> str -> str) (title speaker : option str) :
  remove_speaker_from_title U None speaker = None /\
  remove_speaker_from_title U title None = title /\
  forall t, title = Some t ->
    exists front back result,
      t = front ++ back /\
      remove_speaker_from_title U title speaker = Some result /\
      (result = t \/ result = strip front) /\
      length result <= length t.
Proof.
  split; [reflexivity|]. split; [destruct title; reflexivity|].
  intros t ->. destruct speaker as [s|].
  - rewrite remove_speaker_from_title_unfold.
    destruct (slice_until_neg_prefix t (length s)) as [back Hback].
    exists (slice_until t (- Z.of_nat (length s))), back.
    destruct (endswith _ _).
    + eexists. split; [exact Hback|]. split; [reflexivity|].
      split; [right; reflexivity|].
      etransitivity; [apply strip_length|].
      rewrite Hback at 2. rewrite length_app. lia.
    + exists t. split; [exact Hback|]. split; [reflexivity|].
      split; [left; reflexivity | lia].
  - exists t, [], t. rewrite app_nil_r. repeat split; auto.
Qed.

(* ===================================================================== *)
(** * More about the per-100-verse columns *)
(* ===================================================================== *)

(** Looking up after an assignment. *)
Lemma dict_get_set {V : Type} (d : dict V) (k k' : str) (v : V) :
  dict_get (dict_set d k v) k' =
  if bool_decide (k = k') then Some v else dict_get d k'.
Proof.
  induction d as [|[k0 v0] d IH]; simpl.
  - reflexivity.
  - destruct (bool_decide (k0 = k)) eqn:H0; simpl.
    + apply bool_decide_eq_true in H0. subst k0.
      destruct (bool_decide (k = k')); reflexivity.
    + rewrite IH. destruct (bool_decide (k0 = k')) eqn:H1; [|reflexivity].
      apply bool_decide_eq_true in H1. subst k0.
      apply bool_decide_eq_false in H0.
      rewrite bool_decide_eq_false_2; [reflexivity|].
      intros Heq. apply H0. symmetry. exact Heq.
Qed.

Section Per100Fold.
Variable df : dict (list Z).

Lemma per100_fold_some (vc : dict Z) (out : dict (list float)) (k : str)
    (values : list float) :
  dict_get
    (fold_left
       (fun out kv =>
          match dict_get df (fst kv) with
          | Some column =>
              dict_set out (fst kv ++ py "_per100")
                (List.map (per100 (snd kv)) column)
          | None => out
          end) vc out) k = Some values ->
  dict_get out k = Some values \/
  exists col verses column,
    In (col, verses) vc /\ k = col ++ py "_per100" /\
    dict_get df col = Some column /\
    values = List.map (per100 verses) column.
Proof.
  revert out. induction vc as [|[c v] vc IH]; intros out; simpl; [tauto|].
  intros Hget. apply IH in Hget as [Hout | (col & verses & column & Hin & Hrest)].
  - destruct (dict_get df c) as [column|] eqn:Hc; [|left; exact Hout].
    rewrite dict_get_set in Hout.
    destruct (bool_decide (c ++ py "_per100" = k)) eqn:Hk; [|left; exact Hout].
    apply bool_decide_eq_true in Hk. injection Hout as <-.
    right. exists c, v, column. repeat split; auto.
  - right. exists col, verses, column. split; [right; exact Hin | exact Hrest].
Qed.

Lemma per100_fold_none (vc : dict Z) (out : dict (list float)) (k : str) :
  dict_get
    (fold_left
       (fun out kv =>
          match dict_get df (fst kv) with
          | Some column =>
              dict_set out (fst kv ++ py "_per100")
                (List.map (per100 (snd kv)) column)
          | None => out
          end) vc out) k = None ->
  forall col verses, In (col, verses) vc -> k = col ++ py "_per100" ->
                     dict_get df col = None.
Proof.
  revert out. induction vc as [|[c v] vc IH]; intros out; simpl; [tauto|].
  intros Hget col verses [Hin|Hin] Hk; [|eapply IH; eassumption].
  injection Hin as -> ->.
  destruct (dict_get df col) as [column|] eqn:Hc; [|reflexivity].
  exfalso. revert Hget. generalize (List.map (per100 verses) column).
  clear IH. intros values.
  assert (Hkept : forall (rest : dict Z) o,
             dict_get o k <> None ->
             dict_get
               (fold_left
                  (fun out kv =>
                     match dict_get df (fst kv) with
                     | Some column =>
                         dict_set out (fst kv ++ py "_per100")
                           (List.map (per100 (snd kv)) column)
                     | None => out
                     end) rest o) k <> None).
  { induction rest as [|[c' v'] rest IHr]; intros o Ho; simpl; [exact Ho|].
    apply IHr. destruct (dict_get df c'); [|exact Ho].
    rewrite dict_get_set. destruct (bool_decide _); [discriminate | exact Ho]. }
  apply Hkept. rewrite dict_get_set, Hk, bool_decide_eq_true_2 by reflexivity.
  discriminate.
Qed.
End Per100Fold.

(** X20.  The derived columns follow the table: a [_per100] column is there
    only for a citation column of the table, and holds one value for each
    of its rows, computed with the verse total of its book; where a
    citation column is missing, no column is derived for it (and nothing
    fails). *)
Theorem per100_columns_only_from_the_table (df : dict (list Z)) (k : str) :
  match dict_get (per100_columns df) k with
  | Some values =>
      exists col verses column,
        k = col ++ py "_per100" /\ In (col, verses) VERSE_COUNTS /\
        dict_get df col = Some column /\
        values = List.map (per100 verses) column /\
        length values = length column
  | None =>
      forall col, In col get_citation_columns -> k = col ++ py "_per100" ->
                  dict_get df col = None
  end.
Proof.
  destruct (dict_get (per100_columns df) k) as [values|] eqn:Hget.
  - apply per100_fold_some in Hget
      as [Hout | (col & verses & column & Hin & Hk & Hcol & Hval)];
      [discriminate|].
    exists col, verses, column. repeat split; auto.
    rewrite Hval. apply length_map.
  - intros col Hin Hk. unfold get_citation_columns, dict_keys in Hin.
    apply in_map_iff in Hin as ([c v] & Hc & Hin). simpl in Hc. subst c.
    eapply per100_fold_none; eassumption.
Qed.

(* ===================================================================== *)
(** * More about smoothing *)
(* ===================================================================== *)

Lemma total_bounds (l : list Q) (lo hi : Q) :
  List.Forall (fun v => lo <= v <= hi)%Q l ->
  (inject_Z (Z.of_nat (length l)) * lo <= total l
   /\ total l <= inject_Z (Z.of_nat (length l)) * hi)%Q.
Proof.
  induction 1 as [|x l [Hlo Hhi] _ [IHlo IHhi]].
  - simpl. split; rewrite Qmult_0_l; apply Qle_refl.
  - cbn [length total fold_right]. fold (total l).
    rewrite Nat2Z.inj_succ, <- Z.add_1_l, inject_Z_plus.
    split.
    + setoid_replace ((inject_Z 1 + inject_Z (Z.of_nat (length l))) * lo)%Q
        with (lo + inject_Z (Z.of_nat (length l)) * lo)%Q using relation Qeq
        by ring.
      apply Qplus_le_compat; assumption.
    + setoid_replace ((inject_Z 1 + inject_Z (Z.of_nat (length l))) * hi)%Q
        with (hi + inject_Z (Z.of_nat (length l)) * hi)%Q using relation Qeq
        by ring.
      apply Qplus_le_compat; assumption.
Qed.

(** The mean of values lies between their bounds. *)
Lemma mean_bounds (l : list Q) (lo hi : Q) :
  l <> [] ->
  List.Forall (fun v => lo <= v <= hi)%Q l ->
  (lo <= mean l <= hi)%Q.
Proof.
  intros Hne Hall. destruct (total_bounds l lo hi Hall) as [Hlo Hhi].
  unfold mean. cbn [num_div_count num_add num_zero Q_number].
  fold (total l).
  assert (Hpos : (0 < inject_Z (Z.of_nat (length l)))%Q).
  { change 0%Q with (inject_Z 0). rewrite <- Zlt_Qlt.
    destruct l; [congruence | simpl; lia]. }
  split.
  - apply Qle_shift_div_l; [exact Hpos|]. rewrite Qmult_comm. exact Hlo.
  - apply Qle_shift_div_r; [exact Hpos|]. rewrite Qmult_comm. exact Hhi.
Qed.

Lemma window_at_bounds (window i : nat) (values : list Q) (P : Q -> Prop) :
  List.Forall P values -> List.Forall P (window_at window i values).
Proof.
  intros Hall. unfold window_at.
  rewrite <- (firstn_skipn (S i) values) in Hall.
  apply Forall_app in Hall as [Hall _].
  rewrite <- (firstn_skipn (S i - window) (firstn (S i) values)) in Hall.
  apply Forall_app in Hall as [_ Hall]. exact Hall.
Qed.

(** X21.  Smoothing invents nothing: with a window of at least one, the
    rolling mean has one value for each value of the series, none null,
    and every one of them lies between bounds that hold for the
    series. *)
Theorem rolling_mean_within_range (window : nat) (values : list Q) (lo hi : Q) :
  1 <= window ->
  List.Forall (fun v => lo <= v <= hi)%Q values ->
  length (rolling_mean window 1 values) = length values /\
  List.Forall (fun got => exists q, got = Some q /\ (lo <= q <= hi)%Q)
    (rolling_mean window 1 values).
Proof.
  intros Hwindow Hall.
  assert (Hmm : Forall2 holds (rolling_mean window 1 values)
                  (moving_mean_spec window values)).
  { apply (rolling_from_is_moving_mean window [] values 0%Q Hwindow).
    simpl. destruct window; reflexivity. }
  assert (Hspec : List.Forall (fun m => lo <= m <= hi)%Q
                    (moving_mean_spec window values)).
  { unfold moving_mean_spec. rewrite List.Forall_forall. intros m Hm.
    apply in_map_iff in Hm as (i & <- & Hi). apply in_seq in Hi.
    apply mean_bounds; [|apply window_at_bounds; exact Hall].
    intros Hnil.
    assert (Hlt : i < length values) by apply Hi.
    pose proof (window_at_length window i values Hlt) as Hlen.
    rewrite Hnil in Hlen. cbn [length] in Hlen. lia. }
  split.
  - assert (Hlen : length (rolling_mean window 1 values)
                   = length (moving_mean_spec window values)).
    { clear Hspec. induction Hmm; simpl; [reflexivity | f_equal; assumption]. }
    rewrite Hlen. unfold moving_mean_spec. rewrite length_map, length_seq.
    reflexivity.
  - induction Hmm as [|got want gots wants (q & -> & Hq) _ IH];
      [constructor|].
    inversion Hspec as [|? ? [Hlo Hhi] Hrest]; subst.
    constructor; [|apply IH; exact Hrest].
    exists q. split; [reflexivity|]. rewrite Hq. split; assumption.
Qed.

Lemma rolling_mean_within_range_witness :
  length (rolling_mean 2 1 [10; 20; 30]%Q) = 3 /\
  List.Forall (fun got => exists q, got = Some q /\ (10 <= q <= 30)%Q)
    (rolling_mean 2 1 [10; 20; 30]%Q).
Proof.
  apply (rolling_mean_within_range 2 [10; 20; 30]%Q 10%Q 30%Q); [lia|].
  repeat constructor; discriminate.
Defined.

Lemma dict_get_not_in {V : Type} (d : dict V) (k : str) :
  ~ In k (dict_keys d) -> dict_get d k = None.
Proof.
  induction d as [|[k0 v0] d IH]; simpl; intros Hno; [reflexivity|].
  rewrite bool_decide_eq_false_2 by (intros ->; apply Hno; left; reflexivity).
  apply IH. intros H. apply Hno. right. exact H.
Qed.

Lemma dict_get_in {V : Type} (d : dict V) (k : str) :
  In k (dict_keys d) -> exists v, dict_get d k = Some v.
Proof.
  induction d as [|[k0 v0] d IH]; simpl; intros Hin; [contradiction|].
  destruct (bool_decide (k0 = k)) eqn:Hk; [eexists; reflexivity|].
  apply bool_decide_eq_false in Hk.
  destruct Hin as [Hin|Hin]; [contradiction | apply IH; exact Hin].
Qed.

Lemma dict_get_some_in {V : Type} (d : dict V) (k : str) (v : V) :
  dict_get d k = Some v -> In k (dict_keys d).
Proof.
  induction d as [|[k0 v0] d IH]; simpl; [discriminate|].
  destruct (bool_decide (k0 = k)) eqn:Hk.
  - apply bool_decide_eq_true in Hk. intros _. left. exact Hk.
  - intros H. right. apply IH. exact H.
Qed.

(** A label that sorts before the first group of a sorted table is not
    in the table. *)
Lemma sorted_before_absent (label k0 : str) (keys : list str) :
  StronglySorted (fun a b => str_ltb a b = true) (k0 :: keys) ->
  str_compare label k0 = Lt ->
  ~ In label (k0 :: keys).
Proof.
  intros Hs Hcmp [<-|Hin].
  - rewrite str_compare_refl in Hcmp. discriminate.
  - inversion Hs as [|? ? _ Hall]; subst.
    rewrite List.Forall_forall in Hall. specialize (Hall _ Hin).
    unfold str_ltb in Hall.
    rewrite (str_compare_antisym label k0), Hcmp in Hall. discriminate.
Qed.

(** Adding a row to the groups adds its value to the sum of its label
    and leaves the other sums alone. *)
Lemma add_to_group_sum (label : str) (value : Q) (groups : dict Q) (k : str) :
  StronglySorted (fun a b => str_ltb a b = true) (dict_keys groups) ->
  Qeq (sum_of (add_to_group label value groups) k)
      (sum_of groups k + (if bool_decide (label = k) then value else 0)).
Proof.
  unfold sum_of.
  induction groups as [|[k0 sum] rest IH]; intros Hs.
  - simpl. destruct (bool_decide (label = k)); ring.
  - cbn [add_to_group]. destruct (str_compare label k0) eqn:Hcmp.
    + apply str_compare_eq in Hcmp. subst k0. cbn [dict_get].
      destruct (bool_decide (label = k)); ring.
    + pose proof (sorted_before_absent _ _ _ Hs Hcmp) as Habsent.
      cbn [dict_get].
      destruct (bool_decide (label = k)) eqn:Hk.
      * apply bool_decide_eq_true in Hk. subst k.
        change (if bool_decide (k0 = label) then Some sum else dict_get rest label)
          with (dict_get ((k0, sum) :: rest) label).
        rewrite (dict_get_not_in ((k0, sum) :: rest) label Habsent). ring.
      * ring.
    + assert (Hne : label <> k0).
      { intros ->. rewrite str_compare_refl in Hcmp. discriminate. }
      cbn [dict_get].
      destruct (bool_decide (k0 = k)) eqn:Hk0.
      * apply bool_decide_eq_true in Hk0. subst k.
        rewrite bool_decide_eq_false_2 by exact Hne. ring.
      * apply IH. simpl in Hs. inversion Hs; assumption.
Qed.

Lemma groupby_fold_sum (rows groups : dict Q) (k : str) :
  StronglySorted (fun a b => str_ltb a b = true) (dict_keys groups) ->
  Qeq (sum_of (fold_left (fun groups row => add_to_group (fst row) (snd row) groups)
                 rows groups) k)
      (sum_of groups k + total (values_with k rows)).
Proof.
  revert groups. induction rows as [|[l v] rows IH]; intros groups Hs.
  - simpl. ring.
  - cbn [fold_left fst snd].
    rewrite IH by (apply add_to_group_ascending; exact Hs).
    rewrite add_to_group_sum by exact Hs.
    unfold values_with. cbn [List.filter fst snd].
    destruct (bool_decide (l = k)); cbn [List.map total fold_right snd];
      fold (total (List.map snd
                     (List.filter (fun row : str * Q => bool_decide (fst row = k))
                        rows))); ring.
Qed.

Lemma groupby_fold_labels (rows groups : dict Q) (k : str) :
  In k (dict_keys (fold_left
                     (fun groups row => add_to_group (fst row) (snd row) groups)
                     rows groups)) <->
  In k (dict_keys groups) \/ In k (List.map fst rows).
Proof.
  revert groups. induction rows as [|[l v] rows IH]; intros groups; simpl.
  - tauto.
  - rewrite IH, add_to_group_labels. intuition.
Qed.

(** X22.  The sums the page plots: a conference has a point exactly when some
    row carries its label, and the point is the sum of the values of the
    rows with that label. *)
Theorem groupby_sum_is_sum_by_label (rows : dict Q) (label : str) :
  match dict_get (groupby_sum rows) label with
  | Some sum =>
      In label (List.map fst rows) /\ Qeq sum (total (values_with label rows))
  | None => ~ In label (List.map fst rows)
  end.
Proof.
  pose proof (groupby_fold_sum rows [] label) as Hsum.
  pose proof (groupby_fold_labels rows [] label) as Hlabels.
  fold (groupby_sum rows) in Hsum, Hlabels. unfold sum_of in Hsum.
  destruct (dict_get (groupby_sum rows) label) as [sum|] eqn:Hget.
  - split.
    + apply dict_get_some_in in Hget. apply Hlabels in Hget as [[]|H]. exact H.
    + rewrite Hsum by constructor. simpl. ring.
  - intros Hin.
    destruct (dict_get_in (groupby_sum rows) label) as [v Hv];
      [apply Hlabels; right; exact Hin|].
    congruence.
Qed.

(* ===================================================================== *)
(** * The order of the conferences *)
(* ===================================================================== *)

Lemma str_compare_app_same_length (a b c d : str) :
  length a = length b ->
  str_compare (a ++ c) (b ++ d) =
  match str_compare a b with
  | Eq => str_compare c d
  | o => o
  end.
Proof.
  revert b. induction a as [|x a IH]; intros [|y b] Hlen; try discriminate.
  - reflexivity.
  - simpl. destruct (x ?= y)%N; [|reflexivity|reflexivity].
    apply IH. simpl in Hlen. lia.
Qed.

(** Digit strings of one length compare as the numbers they spell. *)
Lemma int_from_compare (a b : str) (acc1 acc2 : N) :
  digits a -> digits b -> length a = length b ->
  (int_from acc1 a ?= int_from acc2 b)%N =
  match (acc1 ?= acc2)%N with
  | Eq => str_compare a b
  | o => o
  end.
Proof.
  intros Ha. revert b acc1 acc2.
  induction Ha as [|x a Hx _ IH]; intros [|y b] acc1 acc2 Hb Hlen;
    try discriminate.
  - simpl. destruct (acc1 ?= acc2)%N; reflexivity.
  - inversion Hb as [|? ? Hy Hb']; subst. simpl in Hlen.
    cbn [int_from str_compare]. rewrite (IH b _ _ Hb') by lia.
    unfold is_digit in Hx, Hy.
    apply andb_true_iff in Hx as [Hx1 Hx2]. apply andb_true_iff in Hy as [Hy1 Hy2].
    apply N.leb_le in Hx1, Hx2, Hy1, Hy2.
    destruct (N.compare_spec acc1 acc2) as [Hacc|Hacc|Hacc].
    + subst acc2.
      destruct (N.compare_spec x y) as [Hxy|Hxy|Hxy].
      * subst y. rewrite N.compare_refl. reflexivity.
      * assert (H : (10 * acc1 + (x - 48) < 10 * acc1 + (y - 48))%N) by lia.
        apply N.compare_lt_iff in H. rewrite H. reflexivity.
      * assert (H : (10 * acc1 + (y - 48) < 10 * acc1 + (x - 48))%N) by lia.
        apply N.compare_gt_iff in H. rewrite H. reflexivity.
    + assert (H : (10 * acc1 + (x - 48) < 10 * acc2 + (y - 48))%N) by lia.
      apply N.compare_lt_iff in H. rewrite H. reflexivity.
    + assert (H : (10 * acc2 + (y - 48) < 10 * acc1 + (x - 48))%N) by lia.
      apply N.compare_gt_iff in H. rewrite H. reflexivity.
Qed.

Lemma zfill_month (month : str) :
  digits month -> 1 <= length month <= 2 ->
  digits (zfill 2 month) /\ length (zfill 2 month) = 2 /\
  int (zfill 2 month) = int month.
Proof.
  intros Hd Hlen. destruct month as [|a [|b [|c m]]]; simpl in Hlen; try lia.
  - split; [|split; reflexivity]. constructor; [reflexivity | exact Hd].
  - split; [exact Hd | split; reflexivity].
Qed.

(** X23.  The labels put the conferences in the order of time: for years
    written with the same number of digits and months of one or two
    digits, the [YYYY-MM] labels compare as the pairs of year and month
    compare as numbers. *)
Theorem conference_labels_sort_chronologically (year1 month1 year2 month2 : str) :
  digits year1 -> digits year2 -> length year1 = length year2 ->
  digits month1 -> digits month2 ->
  1 <= length month1 <= 2 -> 1 <= length month2 <= 2 ->
  str_compare (conference_label year1 month1) (conference_label year2 month2) =
  match (int year1 ?= int year2)%N with
  | Eq => (int month1 ?= int month2)%N
  | o => o
  end.
Proof.
  intros Hy1 Hy2 Hlen Hm1 Hm2 Hl1 Hl2.
  destruct (zfill_month month1 Hm1 Hl1) as (Hz1 & Hzl1 & <-).
  destruct (zfill_month month2 Hm2 Hl2) as (Hz2 & Hzl2 & <-).
  unfold conference_label, int.
  rewrite (str_compare_app_same_length _ _ _ _ Hlen).
  rewrite (int_from_compare year1 year2 0 0 Hy1 Hy2 Hlen).
  rewrite (int_from_compare _ _ 0 0 Hz1 Hz2) by congruence.
  cbn [N.compare]. destruct (str_compare year1 year2); reflexivity.
Qed.

Lemma conference_labels_sort_chronologically_witness :
  str_compare (conference_label (py "1999") (py "10"))
              (conference_label (py "2000") (py "4")) =
  match (int (py "1999") ?= int (py "2000"))%N with
  | Eq => (int (py "10") ?= int (py "4"))%N
  | o => o
  end.
Proof.
  apply (conference_labels_sort_chronologically (py "1999") (py "10")
           (py "2000") (py "4"));
    try (repeat constructor); simpl; lia.
Defined.

(* ===================================================================== *)
(** * The download loop *)
(* ===================================================================== *)

(** One call for a talk: it returns, sends nothing or one request for
    its URL, and deletes nothing. *)
Lemma save_talk_html_step (E : env) (w : world) (url folder : str) :
  exists res w',
    save_talk_html E url folder w = (Returned res, w') /\
    (sent w' = sent w \/ sent w' = sent w ++ [url]) /\
    (forall q, exists_in w q = true -> exists_in w' q = true).
Proof.
  destruct (talk_cache_paths url folder) as [[plain lang]|] eqn:Hpaths.
  - destruct (exists_in w plain || exists_in w lang) eqn:Hcached.
    + exists (Some (if exists_in w lang then lang else plain), false), w.
      split; [apply save_talk_html_cached;
              [assumption | apply orb_true_iff; exact Hcached]|].
      split; auto.
    + apply orb_false_iff in Hcached as [Hplain Hlang].
      pose proof (fun q => fetch_and_store_keeps E w url folder
                             (talk_download_path url (plain, lang)) q) as Hkeep.
      destruct (fetch_and_store_outcome E w url folder
                  (talk_download_path url (plain, lang)))
        as (res & w' & Hres & Hsent & _ & _).
      rewrite Hres in Hkeep. cbn [snd] in Hkeep.
      exists res, w'.
      rewrite (save_talk_html_miss _ _ _ _ _ Hpaths Hplain Hlang).
      split; [exact Hres|]. split; [right; exact Hsent | exact Hkeep].
  - exists (None, false), w.
    split; [apply save_talk_html_underivable; assumption|]. split; auto.
Qed.

Lemma cached_in_keeps (w w' : world) (url : str) :
  (forall q, exists_in w q = true -> exists_in w' q = true) ->
  cached_in w url -> cached_in w' url.
Proof.
  intros Hkeep (plain & lang & Hpaths & Hthere).
  exists plain, lang. split; [exact Hpaths|].
  destruct Hthere as [H|H]; [left | right]; apply Hkeep; exact H.
Qed.

Lemma save_talk_html_leaves_cached (E : env) (w w' : world) (url p : str)
    (downloaded : bool) :
  save_talk_html E url CONFERENCE_TALKS_DIR w = (Returned (Some p, downloaded), w') ->
  cached_in w' url.
Proof.
  intros Hrun.
  apply save_talk_html_path in Hrun as (plain & lang & Hpaths & Hp & Hthere).
  exists plain, lang. split; [exact Hpaths|].
  rewrite Hp in Hthere. destruct (exists_in w' lang); [right | left]; auto.
Qed.

Lemma save_talk_html_of_cached (E : env) (w : world) (url : str) :
  cached_in w url ->
  exists p, save_talk_html E url CONFERENCE_TALKS_DIR w
            = (Returned (Some p, false), w).
Proof.
  intros (plain & lang & Hpaths & Hthere).
  eexists. apply save_talk_html_cached; eassumption.
Qed.

Lemma download_talks_cons (E : env) (w : world) (url : str) (urls : list str) :
  download_talks E (url :: urls) w =
  match save_talk_html E (main_talk_url url) CONFERENCE_TALKS_DIR w with
  | (Returned result, w') =>
      match download_talks E urls w' with
      | (Returned paths, w'') => (Returned (fst result :: paths), w'')
      | (Raised e, w'') => (Raised e, w'')
      end
  | (Raised e, w') => (Raised e, w')
  end.
Proof.
  cbn [download_talks]. unfold bind, ret.
  destruct (save_talk_html E (main_talk_url url) CONFERENCE_TALKS_DIR w)
    as [[result|e] w']; [|reflexivity].
  destruct (download_talks E urls w') as [[paths|e] w'']; reflexivity.
Qed.

(** What a run of the loop leaves behind. *)
Lemma download_talks_run (E : env) (urls : list str) (w : world) :
  exists paths w' requested,
    download_talks E urls w = (Returned paths, w') /\
    length paths = length urls /\
    sent w' = sent w ++ requested /\
    sublist requested (List.map main_talk_url urls) /\
    (forall q, exists_in w q = true -> exists_in w' q = true) /\
    List.Forall (fun path => forall p, path = Some p -> exists_in w' p = true)
      paths /\
    Forall2 (fun url path => path <> None -> cached_in w' (main_talk_url url))
      urls paths.
Proof.
  revert w. induction urls as [|url urls IH]; intros w.
  - exists [], w, []. rewrite app_nil_r. repeat split; auto; constructor.
  - destruct (save_talk_html_step E w (main_talk_url url) CONFERENCE_TALKS_DIR)
      as ([p d] & w1 & Hrun & Hsent & Hkeep).
    destruct (IH w1) as (paths & w2 & requested & Hrest & Hlen & Hsent2 & Hsub
                         & Hkeep2 & Hthere & Hcached).
    rewrite download_talks_cons, Hrun, Hrest. cbn [fst].
    exists (p :: paths), w2,
      (if bool_decide (sent w1 = sent w) then requested
       else main_talk_url url :: requested).
    split; [reflexivity|]. split; [simpl; lia|].
    split; [|split; [|split; [|split]]].
    + rewrite Hsent2. destruct (bool_decide (sent w1 = sent w)) eqn:Hsame.
      * apply bool_decide_eq_true in Hsame. rewrite Hsame. reflexivity.
      * apply bool_decide_eq_false in Hsame.
        destruct Hsent as [H|H]; [contradiction|].
        rewrite H, <- app_assoc. reflexivity.
    + cbn [List.map]. destruct (bool_decide (sent w1 = sent w)).
      * apply sublist_cons. exact Hsub.
      * apply sublist_skip. exact Hsub.
    + intros q Hq. apply Hkeep2, Hkeep, Hq.
    + constructor; [|exact Hthere].
      intros p0 ->. apply Hkeep2.
      apply save_talk_html_path in Hrun as (_ & _ & _ & _ & Hp0). exact Hp0.
    + constructor; [|exact Hcached].
      intros Hsome. destruct p as [p|]; [|congruence].
      eapply cached_in_keeps; [exact Hkeep2|].
      eapply save_talk_html_leaves_cached. exact Hrun.
Qed.

(** X8.  The loop never aborts: whatever the site and the disk do, it returns
    one entry for each row, in row order.  It sends at most one request
    for each row, in row order, and deletes nothing; every path it
    returns names something on disk when the loop ends, and every row
    that got a path has a cache file there. *)
Theorem download_talks_completes (E : env) (full_urls : list str) (w : world) :
  exists paths w' requested,
    download_talks E full_urls w = (Returned paths, w') /\
    length paths = length full_urls /\
    sent w' = sent w ++ requested /\
    sublist requested (List.map main_talk_url full_urls) /\
    (forall q, exists_in w q = true -> exists_in w' q = true) /\
    List.Forall (fun path => forall p, path = Some p -> exists_in w' p = true)
      paths /\
    Forall2 (fun url path => path <> None -> cached_in w' (main_talk_url url))
      full_urls paths.
Proof. apply download_talks_run. Qed.

(** A second run asks only for what the first run failed to get. *)
Lemma download_talks_again (E : env) (urls : list str) (paths : list (option str))
    (w : world) :
  Forall2 (fun url path => path <> None -> cached_in w (main_talk_url url))
    urls paths ->
  exists paths' w' requested,
    download_talks E urls w = (Returned paths', w') /\
    sent w' = sent w ++ requested /\
    sublist requested (without_path urls paths) /\
    Forall2 (fun path path' => path <> None -> path' <> None) paths paths'.
Proof.
  intros Hcached. revert paths w Hcached.
  induction urls as [|url urls IH]; intros paths w Hcached.
  - inversion Hcached; subst. exists [], w, []. rewrite app_nil_r.
    repeat split; auto; constructor.
  - inversion Hcached as [|? path ? rest Hhead Hrest]; subst.
    rewrite download_talks_cons.
    destruct path as [p|].
    + destruct (save_talk_html_of_cached E w (main_talk_url url))
        as [p' Hrun]; [apply Hhead; discriminate|].
      rewrite Hrun.
      destruct (IH rest w Hrest) as (paths' & w' & requested & Hrun' & Hsent
                                     & Hsub & Hpaths).
      rewrite Hrun'. exists (Some p' :: paths'), w', requested.
      repeat split; auto.
    + destruct (save_talk_html_step E w (main_talk_url url) CONFERENCE_TALKS_DIR)
        as ([p' d] & w1 & Hrun & Hsent & Hkeep).
      rewrite Hrun.
      assert (Hrest1 : Forall2 (fun url path => path <> None ->
                                  cached_in w1 (main_talk_url url)) urls rest).
      { clear IH Hcached Hhead. induction Hrest as [|u q us qs Hq _ IHr];
          constructor; [|exact IHr].
        intros Hsome. eapply cached_in_keeps; [exact Hkeep | apply Hq, Hsome]. }
      destruct (IH rest w1 Hrest1) as (paths' & w' & requested & Hrun' & Hsent'
                                       & Hsub & Hpaths).
      rewrite Hrun'. cbn [fst without_path].
      exists (p' :: paths'), w',
        (if bool_decide (sent w1 = sent w) then requested
         else main_talk_url url :: requested).
      split; [reflexivity|]. split; [|split].
      * rewrite Hsent'. destruct (bool_decide (sent w1 = sent w)) eqn:Hsame.
        -- apply bool_decide_eq_true in Hsame. rewrite Hsame. reflexivity.
        -- apply bool_decide_eq_false in Hsame.
           destruct Hsent as [H|H]; [contradiction|].
           rewrite H, <- app_assoc. reflexivity.
      * destruct (bool_decide (sent w1 = sent w)).
        -- apply sublist_cons. exact Hsub.
        -- apply sublist_skip. exact Hsub.
      * constructor; [congruence | exact Hpaths].
Qed.

(** X9.  The loop can be resumed: run again after a run that ended, it asks
    the site only for rows that got no path the first time, and every
    row that had a path has one again.  After a run in which every row
    got a path, a second run sends no request at all. *)
Theorem download_talks_resumes (E : env) (full_urls : list str)
    (paths : list (option str)) (w w1 : world) :
  download_talks E full_urls w = (Returned paths, w1) ->
  exists paths' w2 requested,
    download_talks E full_urls w1 = (Returned paths', w2) /\
    sent w2 = sent w1 ++ requested /\
    sublist requested (without_path full_urls paths) /\
    Forall2 (fun path path' => path <> None -> path' <> None) paths paths' /\
    (List.Forall (fun path => path <> None) paths -> sent w2 = sent w1).
Proof.
  intros Hrun.
  destruct (download_talks_run E full_urls w)
    as (paths0 & w0 & _ & Hrun0 & Hlen & _ & _ & _ & _ & Hcached).
  rewrite Hrun in Hrun0. injection Hrun0 as <- <-.
  destruct (download_talks_again E full_urls paths w1 Hcached)
    as (paths' & w2 & requested & Hrun' & Hsent & Hsub & Hpaths).
  exists paths', w2, requested. repeat split; auto.
  intros Hall.
  assert (Hnone : without_path full_urls paths = []).
  { clear -Hall Hlen. revert paths Hall Hlen.
    induction full_urls as [|u us IH]; intros [|[p|] ps] Hall Hlen;
      try reflexivity; simpl in *.
    - apply IH; [inversion Hall; assumption | lia].
    - inversion Hall; congruence. }
  rewrite Hnone in Hsub. apply sublist_nil_r in Hsub. subst requested.
  rewrite Hsent, app_nil_r. reflexivity.
Qed.

Lemma download_talks_resumes_witness :
  let first := download_talks plain_env three_talks empty_world in
  exists paths' w2 requested,
    download_talks plain_env three_talks (snd first) = (Returned paths', w2) /\
    sent w2 = sent (snd first) ++ requested /\
    sublist requested
      (without_path three_talks
         [Some talk_fixture_path;
          Some (py "conference_talks/2023-10-12oaks_lang=eng.html");
          Some (py "conference_talks/2023-10-12oaks_lang=eng.html")]) /\
    Forall2 (fun path path' => path <> None -> path' <> None)
      [Some talk_fixture_path;
       Some (py "conference_talks/2023-10-12oaks_lang=eng.html");
       Some (py "conference_talks/2023-10-12oaks_lang=eng.html")] paths' /\
    (List.Forall (fun path => path <> None)
       [Some talk_fixture_path;
        Some (py "conference_talks/2023-10-12oaks_lang=eng.html");
        Some (py "conference_talks/2023-10-12oaks_lang=eng.html")] ->
     sent w2 = sent (snd first)).
Proof.
  intros first.
  apply (download_talks_resumes plain_env three_talks _ empty_world (snd first)).
  vm_compute. reflexivity.
Defined.

(* ===================================================================== *)
(** * A link and its language-tagged variant *)
(* ===================================================================== *)

Lemma contains_here (s sub : str) : startswith s sub = true -> contains s sub = true.
Proof. intros H. destruct s; simpl in *; rewrite H; reflexivity. Qed.

Lemma contains_later (c : N) (s sub : str) :
  contains s sub = true -> contains (c :: s) sub = true.
Proof. intros H. cbn [contains]. rewrite H. apply orb_true_r. Qed.

Lemma contains_intro (pre sub post : str) : contains (pre ++ sub ++ post) sub = true.
Proof.
  induction pre as [|c pre IH]; simpl app.
  - apply contains_here, startswith_app.
  - apply contains_later, IH.
Qed.

Lemma startswith_app_sep (sep : N) (x y sub : str) :
  ~ In sep sub -> startswith (x ++ sep :: y) sub = startswith x sub.
Proof.
  revert x. induction sub as [|p sub IH]; intros x Hno; [reflexivity|].
  destruct x as [|c x]; simpl.
  - destruct (N.eqb_spec sep p) as [->|]; [|reflexivity].
    exfalso. apply Hno. left. reflexivity.
  - rewrite IH; [reflexivity|]. intros H. apply Hno. right. exact H.
Qed.

(** An occurrence of a text without the separator lies on one side of
    the separator. *)
Lemma contains_app_sep (sep : N) (x y sub : str) :
  ~ In sep sub -> sub <> [] ->
  contains (x ++ sep :: y) sub = contains x sub || contains y sub.
Proof.
  intros Hno Hne. induction x as [|c x IH].
  - pose proof (startswith_app_sep sep [] y sub Hno) as H0.
    simpl app in *. cbn [contains]. rewrite H0.
    destruct sub; [congruence | reflexivity].
  - pose proof (startswith_app_sep sep (c :: x) y sub Hno) as H0.
    simpl app in *. cbn [contains]. rewrite H0, IH.
    rewrite orb_assoc. reflexivity.
Qed.

Lemma split_head_prefix (sep : N) (s h : str) (t : list str) :
  split sep s = h :: t -> exists rest, s = h ++ rest.
Proof.
  revert h t. induction s as [|c s IH]; intros h t; simpl.
  - intros [= <- <-]. exists []. reflexivity.
  - destruct (c =? sep)%N.
    + intros [= <- <-]. exists (c :: s). reflexivity.
    + destruct (split sep s) as [|h' t'] eqn:Hs; intros [= <- <-].
      * exists s. reflexivity.
      * destruct (IH h' t' eq_refl) as [rest ->]. exists rest. reflexivity.
Qed.

(** What occurs in a part of a split occurs in the whole. *)
Lemma contains_split_part (sep : N) (s part sub : str) :
  In part (split sep s) -> contains part sub = true -> contains s sub = true.
Proof.
  revert part. induction s as [|c s IH]; intros part; simpl split.
  - intros [<-|[]] H. exact H.
  - destruct (c =? sep)%N.
    + intros [<-|Hin] H.
      * destruct sub; [reflexivity | discriminate].
      * apply contains_later. eapply IH; eassumption.
    + destruct (split sep s) as [|h t] eqn:Hs.
      * intros [<-|[]] H. destruct (split_nonempty sep s Hs).
      * intros [<-|Hin] H.
        -- destruct (split_head_prefix _ _ _ _ Hs) as [rest ->].
           cbn [contains] in H. apply orb_true_iff in H as [H|H].
           ++ apply contains_here. apply startswith_iff in H as [r Hr].
              apply startswith_iff. exists (r ++ rest).
              change (c :: h ++ rest) with ((c :: h) ++ rest).
              rewrite Hr, app_assoc. reflexivity.
           ++ apply contains_later. apply (IH h); [left; reflexivity | exact H].
        -- apply contains_later. apply (IH part); [right; exact Hin | exact H].
Qed.

Lemma split_part_chars (sep : N) (s part : str) (c : N) :
  In part (split sep s) -> In c part -> In c s.
Proof.
  revert part. induction s as [|x s IH]; intros part; simpl split.
  - intros [<-|[]] [].
  - destruct (x =? sep)%N.
    + intros [<-|Hin] Hc; [destruct Hc|]. right. eapply IH; eassumption.
    + destruct (split sep s) as [|h t] eqn:Hs.
      * intros [<-|[]] [<-|[]]. left. reflexivity.
      * intros [<-|Hin] Hc.
        -- destruct Hc as [<-|Hc]; [left; reflexivity|].
           right. apply (IH h); [left; reflexivity | exact Hc].
        -- right. apply (IH part); [right; exact Hin | exact Hc].
Qed.

(** Text without the separator, put behind a string, extends the last
    part of its split. *)
Lemma split_app_last (sep : N) (s t : str) :
  ~ In sep t ->
  exists front l,
    split sep s = front ++ [l] /\ split sep (s ++ t) = front ++ [l ++ t].
Proof.
  intros Hno. induction s as [|c s (front & l & Hs & Hst)].
  - exists [], []. split; [reflexivity|]. simpl. apply split_single. exact Hno.
  - simpl app. simpl split. destruct (c =? sep)%N.
    + exists ([] :: front), l. rewrite Hs, Hst. split; reflexivity.
    + rewrite Hs, Hst. destruct front as [|h front]; simpl.
      * exists [], (c :: l). split; reflexivity.
      * exists ((c :: h) :: front), l. split; reflexivity.
Qed.

Lemma index_neg_snoc {A} (front : list A) (x : A) (k : nat) :
  index_neg (front ++ [x]) 1 = Some x /\
  (1 <= k -> index_neg (front ++ [x]) (S k) = index_neg front k).
Proof.
  unfold index_neg. rewrite length_app. simpl length. split.
  - destruct (Nat.leb_spec 1 (length front + 1)); [|lia]. simpl.
    rewrite nth_error_app2 by lia.
    replace (length front + 1 - 1 - length front) with 0 by lia. reflexivity.
  - intros Hk.
    destruct (Nat.leb_spec 1 (S k)); [|lia].
    destruct (Nat.leb_spec 1 k); [|lia].
    destruct (Nat.leb_spec k (length front)),
      (Nat.leb_spec (S k) (length front + 1)); try lia; cbn [andb];
      [|reflexivity].
    rewrite nth_error_app1 by lia. f_equal. lia.
Qed.

(** X12.  A link and the same link with [?lang=eng] behind it get file names
    with one base: the bare link the plain name, the tagged link the
    language-tagged name, and [get_base_talk_filename] maps both to the
    plain name.  (So de-duplication takes their rows for one talk.) *)
Theorem lang_variant_shares_base_filename (suffix : str) :
  3 <= length (split 47 suffix) ->
  ~ In 63%N suffix ->
  contains suffix (py "lang=eng") = false ->
  exists base,
    filename_of_suffix suffix = Some (base ++ py ".html") /\
    filename_of_suffix (suffix ++ py "?lang=eng")
      = Some (base ++ py "_lang=eng.html") /\
    get_base_talk_filename (base ++ py ".html") = base ++ py ".html" /\
    get_base_talk_filename (base ++ py "_lang=eng.html") = base ++ py ".html".
Proof.
  intros Hparts Hquery Hplain.
  destruct (split_app_last 47 suffix (py "?lang=eng"))
    as (front & l & Hs & Hst); [apply not_in_literal; reflexivity|].
  assert (Hl : In l (split 47 suffix))
    by (rewrite Hs; apply in_or_app; right; left; reflexivity).
  assert (Hlq : ~ In 63%N l)
    by (intros H; apply Hquery; eapply split_part_chars; eassumption).
  assert (Hlen : 2 <= length front)
    by (rewrite Hs, length_app in Hparts; simpl in Hparts; lia).
  unfold filename_of_suffix. rewrite Hst, Hs.
  destruct (index_neg_snoc front l 2) as [H1 H3].
  destruct (index_neg_snoc front l 1) as [_ H2].
  destruct (index_neg_snoc front (l ++ py "?lang=eng") 2) as [H1' H3'].
  destruct (index_neg_snoc front (l ++ py "?lang=eng") 1) as [_ H2'].
  rewrite H1, H2, H3, H1', H2', H3' by lia.
  destruct (index_neg front 2) as [a|] eqn:Ha;
    [|unfold index_neg in Ha;
      destruct (Nat.leb_spec 2 (length front)); [|lia];
      cbn [Nat.leb andb] in Ha; apply nth_error_None in Ha; lia].
  destruct (index_neg front 1) as [b|] eqn:Hb;
    [|unfold index_neg in Hb;
      destruct (Nat.leb_spec 1 (length front)); [|lia];
      cbn [Nat.leb andb] in Hb; apply nth_error_None in Hb; lia].
  cbn [mbind option_bind].
  rewrite (split_single 63 l Hlq).
  change (l ++ py "?lang=eng") with (l ++ 63%N :: py "lang=eng").
  rewrite (split_two 63 l (py "lang=eng") Hlq)
    by (apply not_in_literal; reflexivity).
  cbn [nth_error mbind option_bind].
  rewrite Hplain.
  change (suffix ++ py "?lang=eng") with (suffix ++ py "?" ++ py "lang=eng" ++ []).
  rewrite (app_assoc suffix (py "?") (py "lang=eng" ++ [])).
  rewrite (contains_intro (suffix ++ py "?") (py "lang=eng") []).
  exists (a ++ py "-" ++ b ++ py "-" ++ l).
  rewrite <- !app_assoc. split; [reflexivity|]. split; [reflexivity|].
  rewrite !app_assoc. split; [|apply get_base_talk_filename_lang].
  rewrite <- !app_assoc.
  unfold get_base_talk_filename.
  destruct (endswith _ (py "_lang=eng.html")) eqn:Hend; [|reflexivity].
  exfalso. apply endswith_iff in Hend as [pre Hpre].
  change (py "_lang=eng.html") with (py "_" ++ py "lang=eng" ++ py ".html") in Hpre.
  rewrite !app_assoc in Hpre. apply app_inv_tail in Hpre.
  assert (Hin : contains (a ++ 45%N :: b ++ 45%N :: l) (py "lang=eng") = true).
  { change (a ++ 45%N :: b ++ 45%N :: l) with (a ++ py "-" ++ b ++ py "-" ++ l).
    rewrite !app_assoc. rewrite Hpre.
    pose proof (contains_intro (pre ++ py "_") (py "lang=eng") []) as Hc.
    rewrite app_nil_r in Hc. exact Hc. }
  rewrite !contains_app_sep in Hin
    by (try discriminate; apply not_in_literal; reflexivity).
  assert (Hpart : forall part, In part (split 47 suffix) ->
                               contains part (py "lang=eng") = false).
  { intros part Hp. destruct (contains part (py "lang=eng")) eqn:Hc; [|reflexivity].
    rewrite (contains_split_part 47 suffix part _ Hp Hc) in Hplain. discriminate. }
  rewrite (Hpart l Hl) in Hin.
  apply index_neg_In in Ha, Hb.
  rewrite (Hpart a), (Hpart b) in Hin
    by (rewrite Hs; apply in_or_app; left; assumption).
  discriminate.
Qed.

Lemma lang_variant_shares_base_filename_witness :
  exists base,
    filename_of_suffix (py "/study/general-conference/2023/10/12oaks")
      = Some (base ++ py ".html") /\
    filename_of_suffix (py "/study/general-conference/2023/10/12oaks" ++ py "?lang=eng")
      = Some (base ++ py "_lang=eng.html") /\
    get_base_talk_filename (base ++ py ".html") = base ++ py ".html" /\
    get_base_talk_filename (base ++ py "_lang=eng.html") = base ++ py ".html".
Proof.
  apply (lang_variant_shares_base_filename
           (py "/study/general-conference/2023/10/12oaks")).
  - vm_compute. lia.
  - apply not_in_literal. reflexivity.
  - reflexivity.
Defined.

(* ===================================================================== *)
(** * The table page *)
(* ===================================================================== *)

Lemma insert_asc_In (s x : str) (l : list str) :
  In x (insert_asc s l) <-> x = s \/ In x l.
Proof.
  induction l as [|y l IH]; simpl; [intuition|].
  destruct (str_ltb s y); simpl; [intuition|]. rewrite IH. intuition.
Qed.

Lemma sorted_asc_In (x : str) (l : list str) : In x (sorted_asc l) <-> In x l.
Proof.
  induction l as [|y l IH]; simpl; [tauto|].
  rewrite insert_asc_In, IH. intuition.
Qed.

Lemma str_ltb_trans (a b c : str) :
  str_ltb a b = true -> str_ltb b c = true -> str_ltb a c = true.
Proof.
  intros Hab Hbc.
  pose proof (str_leb_trans _ _ _ (str_ltb_leb _ _ Hab) (str_ltb_leb _ _ Hbc)) as Hac.
  unfold str_ltb, str_leb in *.
  destruct (str_compare a c) eqn:Hcmp; [|reflexivity|discriminate].
  apply str_compare_eq in Hcmp. subst c.
  rewrite (str_compare_antisym a b) in Hbc.
  destruct (str_compare a b); discriminate.
Qed.

Lemma insert_asc_sorted (s : str) (l : list str) :
  ~ In s l ->
  StronglySorted (fun a b => str_ltb a b = true) l ->
  StronglySorted (fun a b => str_ltb a b = true) (insert_asc s l).
Proof.
  induction l as [|y l IH]; simpl; intros Hnew Hs.
  - repeat constructor.
  - inversion Hs as [|? ? Hs' Hall]; subst.
    destruct (str_ltb s y) eqn:Hlt.
    + constructor; [exact Hs|]. constructor; [exact Hlt|].
      eapply List.Forall_impl; [|exact Hall].
      intros z Hz. eapply str_ltb_trans; eassumption.
    + constructor; [apply IH; [tauto | exact Hs']|].
      rewrite List.Forall_forall in *. intros z Hz.
      apply insert_asc_In in Hz as [->|Hz]; [|apply Hall; exact Hz].
      unfold str_ltb in *. rewrite (str_compare_antisym s y).
      destruct (str_compare s y) eqn:Hcmp; [|discriminate|reflexivity].
      apply str_compare_eq in Hcmp. subst y. exfalso. apply Hnew. left. reflexivity.
Qed.

Lemma sorted_asc_sorted (l : list str) :
  NoDup l -> StronglySorted (fun a b => str_ltb a b = true) (sorted_asc l).
Proof.
  induction 1 as [|x l Hx Hnd IH]; simpl; [constructor|].
  apply insert_asc_sorted; [|exact IH].
  rewrite sorted_asc_In. rewrite <- list_elem_of_In. exact Hx.
Qed.

Lemma dropna_In {A : Type} (series : list (option A)) (a : A) :
  In a (dropna series) <-> In (Some a) series.
Proof.
  unfold dropna. rewrite in_flat_map. split.
  - intros ([b|] & Hin & Ha); [|destruct Ha].
    destruct Ha as [->|[]]. exact Hin.
  - intros Hin. exists (Some a). split; [exact Hin | left; reflexivity].
Qed.

Lemma unique_In (x : str) (series : list str) :
  In x (unique series) <-> In x series.
Proof.
  unfold unique, drop_duplicates_first. split.
  - apply drop_duplicates_subset.
  - intros Hin.
    destruct (drop_duplicates_complete (fun s => s) [] series x Hin)
      as (x' & Hx' & ->); [apply not_elem_of_nil | exact Hx'].
Qed.

Lemma unique_NoDup (series : list str) : NoDup (unique series).
Proof.
  unfold unique, drop_duplicates_first.
  pose proof (drop_duplicates_nodup (fun s : str => s) [] series) as H.
  rewrite map_id in H. exact H.
Qed.

Lemma filter_sublist {A : Type} (f : A -> bool) (l : list A) :
  sublist (List.filter f l) l.
Proof.
  induction l as [|x l IH]; simpl; [constructor|].
  destruct (f x); [apply sublist_skip | apply sublist_cons]; exact IH.
Qed.

(** X24.  The speaker menu offers [All] and then every speaker of the table
    once, in ascending order; choosing a speaker and a year shows, in the
    order of the table, exactly the rows of that speaker and year, where
    [All] stands for no restriction; and every speaker the menu offers
    besides [All] has at least one row when no year is chosen. *)
Theorem speaker_menu_and_filter {row : Type}
    (Speaker_of : row -> option str) (Year_of : row -> str) (df : list row) :
  (exists speakers,
     speaker_options Speaker_of df = py "All" :: speakers /\
     StronglySorted (fun a b => str_ltb a b = true) speakers /\
     (forall s, In s speakers <-> exists r, In r df /\ Speaker_of r = Some s)) /\
  (forall speaker year,
     sublist (filter_table Speaker_of Year_of speaker year df) df /\
     forall r, In r (filter_table Speaker_of Year_of speaker year df) <->
               In r df /\
               (speaker = py "All" \/ Speaker_of r = Some speaker) /\
               (year = py "All" \/ Year_of r = year)) /\
  (forall speaker,
     In speaker (speaker_options Speaker_of df) -> speaker <> py "All" ->
     filter_table Speaker_of Year_of speaker (py "All") df <> []).
Proof.
  assert (Hmenu : forall s,
            In s (sorted_asc (unique (dropna (List.map Speaker_of df)))) <->
            exists r, In r df /\ Speaker_of r = Some s).
  { intros s. rewrite sorted_asc_In, unique_In, dropna_In, in_map_iff.
    split; intros (r & H1 & H2); exists r; tauto. }
  assert (Hfilter : forall speaker year r,
            In r (filter_table Speaker_of Year_of speaker year df) <->
            In r df /\
            (speaker = py "All" \/ Speaker_of r = Some speaker) /\
            (year = py "All" \/ Year_of r = year)).
  { intros speaker year r. unfold filter_table.
    destruct (bool_decide (speaker = py "All")) eqn:Hs,
      (bool_decide (year = py "All")) eqn:Hy; cbn [negb];
      rewrite ?filter_In, ?bool_decide_eq_true;
      try apply bool_decide_eq_true in Hs; try apply bool_decide_eq_true in Hy;
      try apply bool_decide_eq_false in Hs; try apply bool_decide_eq_false in Hy;
      tauto. }
  split; [|split].
  - eexists. split; [reflexivity|]. split; [|exact Hmenu].
    apply sorted_asc_sorted, unique_NoDup.
  - intros speaker year. split; [|apply Hfilter].
    unfold filter_table.
    destruct (negb (bool_decide (speaker = py "All"))),
      (negb (bool_decide (year = py "All")));
      repeat (etransitivity; [apply filter_sublist|]); reflexivity.
  - intros speaker [Hall|Hin] Hne; [congruence|].
    apply Hmenu in Hin as (r & Hr & Hs). intros Hempty.
    assert (Hshown : In r (filter_table Speaker_of Year_of speaker (py "All") df))
      by (apply Hfilter; tauto).
    rewrite Hempty in Hshown. destruct Hshown.
Qed.

(* ===================================================================== *)
(** * Titles as [load_data] leaves them *)
(* ===================================================================== *)

Lemma clean_text_twice (text : str) :
  clean_text (clean_text (Some text)) = clean_text (Some text).
Proof.
  set (collapsed := collapse_spaces false
         (re_sub_delete (fun c => negb (is_ascii c))
            (re_sub_delete is_odd_char text))).
  change (clean_text (Some text)) with (Some (strip collapsed)).
  assert (Hodd : List.Forall (fun c => is_odd_char c = false) (strip collapsed)).
  { apply strip_sublist, collapse_spaces_Forall; [reflexivity|].
    apply re_sub_delete_Forall, re_sub_delete_clean. }
  assert (Hascii : List.Forall (fun c => negb (is_ascii c) = false)
                     (strip collapsed)).
  { apply strip_sublist, collapse_spaces_Forall; [reflexivity|].
    apply re_sub_delete_clean. }
  unfold clean_text.
  rewrite (re_sub_delete_id _ _ Hodd), (re_sub_delete_id _ _ Hascii).
  rewrite collapse_spaces_id
    by apply strip_single_blanks, collapse_spaces_single_blanks.
  rewrite strip_id; [reflexivity| |].
  - apply rstrip_no_leading_space, lstrip_no_leading_space.
  - apply rstrip_no_trailing_space.
Qed.

Lemma collapse_spaces_app_kept (b : bool) (x y : str) (c : N) :
  isspace c = false ->
  collapse_spaces b (x ++ c :: y) =
  collapse_spaces b x ++ c :: collapse_spaces false y.
Proof.
  intros Hc. revert b. induction x as [|a x IH]; intros b; simpl.
  - rewrite Hc. reflexivity.
  - destruct (isspace a).
    + rewrite IH, <- app_assoc. reflexivity.
    + rewrite IH. reflexivity.
Qed.

Lemma lstrip_app_kept (x y : str) (c : N) :
  isspace c = false -> lstrip (x ++ c :: y) = lstrip x ++ c :: y.
Proof.
  intros Hc. induction x as [|a x IH]; simpl.
  - rewrite Hc. reflexivity.
  - destruct (isspace a); [exact IH | reflexivity].
Qed.

Lemma rstrip_app_kept (x y : str) (c : N) :
  isspace c = false ->
  rstrip (x ++ c :: y) = x ++ c :: rev (lstrip (rev y)).
Proof.
  intros Hc. unfold rstrip.
  rewrite rev_app_distr. simpl rev. rewrite <- app_assoc. simpl app.
  rewrite (lstrip_app_kept _ _ _ Hc), rev_app_distr. simpl rev.
  rewrite rev_involutive, <- app_assoc. reflexivity.
Qed.

Lemma lstrip_twice (x : str) : lstrip (lstrip x) = lstrip x.
Proof. apply lstrip_id, lstrip_no_leading_space. Qed.

(** X19.  As [load_data] cleans the title and the speaker in the same way
    before it cuts, a title that ends with the speaker's name as the
    table has it loses exactly that name, whatever odd characters and
    runs of white space the two hold: where the name starts with a
    character [clean_text] keeps, the cells become the cleaned text
    before the name and the cleaned name. *)
Theorem load_data_removes_byline
    (U : str -> N -> str -> str) (front speaker : str) (c : N) (rest : str) :
  speaker = c :: rest ->
  kept_by_clean_text c = true ->
  load_data_cells U (Some (front ++ speaker)) (Some speaker) =
  (clean_text (Some front), clean_text (Some speaker)).
Proof.
  intros -> Hkept. unfold kept_by_clean_text in Hkept.
  apply andb_true_iff in Hkept as [Hkept Hspace].
  apply andb_true_iff in Hkept as [Hascii Hodd].
  apply negb_true_iff in Hspace, Hodd.
  set (f := fun s => re_sub_delete (fun c => negb (is_ascii c))
                       (re_sub_delete is_odd_char s)).
  assert (Hf : forall x, f (x ++ c :: rest) = f x ++ c :: f rest).
  { intros x. unfold f, re_sub_delete.
    rewrite !List.filter_app. cbn [List.filter].
    rewrite Hodd. cbn [negb List.filter]. rewrite Hascii. reflexivity. }
  assert (Hspeaker : clean_text (Some (c :: rest)) =
                     Some (c :: rev (lstrip (rev (collapse_spaces false (f rest)))))).
  { pose proof (Hf []) as Hf0. simpl app in Hf0.
    pose proof (rstrip_app_kept [] (collapse_spaces false (f rest)) c Hspace)
      as Hr. simpl app in Hr.
    unfold clean_text. fold (f (c :: rest)). rewrite Hf0.
    cbn [collapse_spaces]. rewrite Hspace. unfold strip. cbn [lstrip].
    rewrite Hspace, Hr. reflexivity. }
  assert (Htitle : clean_text (Some (front ++ c :: rest)) =
                   Some (lstrip (collapse_spaces false (f front)) ++
                         c :: rev (lstrip (rev (collapse_spaces false (f rest)))))).
  { unfold clean_text. fold (f (front ++ c :: rest)). rewrite Hf.
    rewrite (collapse_spaces_app_kept _ _ _ _ Hspace). unfold strip.
    rewrite (lstrip_app_kept _ _ _ Hspace), (rstrip_app_kept _ _ _ Hspace).
    reflexivity. }
  unfold load_data_cells. rewrite Hspeaker, Htitle.
  rewrite remove_speaker_from_title_literal by discriminate.
  f_equal. unfold strip at 1. rewrite lstrip_twice.
  change (Some (rstrip (lstrip (collapse_spaces false (f front)))))
    with (clean_text (Some front)).
  apply clean_text_twice.
Qed.

Lemma load_data_removes_byline_witness :
  load_data_cells (fun _ c _ => [c])
    (Some (py "Faith  in Christ   Elder  John 'Jack' Smith "))
    (Some (py "Elder  John 'Jack' Smith "))
  = (Some (py "Faith in Christ"), Some (py "Elder John 'Jack' Smith")).
Proof.
  apply (load_data_removes_byline (fun _ c _ => [c]) (py "Faith  in Christ   ")
           (py "Elder  John 'Jack' Smith ") 69%N (py "lder  John 'Jack' Smith "));
    reflexivity.
Defined.
